(** * mac-to-m3u: a shallow embedding of the three portal crawlers

    The repository holds three scripts that talk to a Stalker-style IPTV
    portal and dump a playlist:

    - [maclist.py]  live channels   (module [MacList]),
    - [macvod.py]   movies          (module [MacVod]),
    - [macshow.py]  series/episodes (module [MacShow]).

    Everything outside the scripts (the user at the terminal, the portal,
    the clock, the file system and the Python library functions whose code
    is not part of the repository) is gathered in a [world].  The scripts
    are written in a small state-and-exception monad over the log of the
    events they cause: prompts, GET requests with their replies, the
    opening of the playlist and the writes to it.

    What the model leaves out or fixes:
    - strings are sequences of 8-bit characters; where the class of a
      character matters ([upper], the digits of [re]) the facts are
      stated for ASCII text;
    - a write is the call of [file.write], which returns or raises; the
      buffer of the file, its flush when the [with] block ends and what
      reaches the disk are not modelled;
    - JSON numbers are integers;
    - console output is not modelled, but an expression that is evaluated
      only to be printed is, because it can raise;
    - the user interrupts at a prompt only, and the interrupt is the
      [KeyboardInterrupt] that [input] raises; under [asyncio.run], from
      Python 3.11 on, the first Ctrl-C cancels the task of [macshow.py]
      instead, and the facts on Ctrl-C are stated for [maclist.py] and
      [macvod.py];
    - a [while True] loop takes a bound on its iterations ([fuel]) and
      ends in [OutOfFuel] when the bound is reached;
    - the recursive call of [main] takes the number of nested calls that
      the interpreter still allows ([depth]);
    - the thread pool of [macvod.py] runs its jobs one after the other, in
      the order of submission. *)

From Stdlib Require Import String Ascii List ZArith Lia Bool Arith.
From Stdlib Require Import DecimalString.
Import ListNotations.
Local Open Scope list_scope.
Local Open Scope string_scope.

Set Implicit Arguments.
Set Warnings "-register-all".

(* ===================================================================== *)
(** * Python strings *)
(* ===================================================================== *)

Module PyStr.

(** The double quote and the line feed, which occur in the f-strings of
    the scripts. *)
Definition dq : string := String (ascii_of_nat 34) EmptyString.
Definition nl : string := String (ascii_of_nat 10) EmptyString.

(** [p.startswith(s)] with the arguments swapped: [startswith p s] is
    [s.startswith(p)]. *)
Fixpoint startswith (p s : string) : bool :=
  match p with
  | EmptyString => true
  | String a p' =>
      match s with
      | EmptyString => false
      | String b s' => Ascii.eqb a b && startswith p' s'
      end
  end.

(** [p in s] for strings. *)
Fixpoint str_in (p s : string) : bool :=
  startswith p s
  || match s with
     | EmptyString => false
     | String _ s' => str_in p s'
     end.

(** [s.replace(old, new)] for a non-empty [old]: occurrences are found
    from the left and do not overlap.  [skip] counts the characters of an
    occurrence that are still to be dropped. *)
Fixpoint replace_from (old new : string) (skip : nat) (s : string) : string :=
  match s with
  | EmptyString => EmptyString
  | String c s' =>
      match skip with
      | S k => replace_from old new k s'
      | O =>
          if startswith old s
          then new ++ replace_from old new (String.length old - 1) s'
          else String c (replace_from old new 0 s')
      end
  end.

Definition str_replace (old new s : string) : string :=
  replace_from old new 0 s.

(** [s.upper()] on ASCII text, where it changes the letters [a]..[z]
    only.  The facts that need more of [upper] than that it returns a
    string are stated for ASCII text. *)
Definition upper_char (c : ascii) : ascii :=
  let n := nat_of_ascii c in
  if (97 <=? n)%nat && (n <=? 122)%nat then ascii_of_nat (n - 32) else c.

Fixpoint upper (s : string) : string :=
  match s with
  | EmptyString => EmptyString
  | String c s' => String (upper_char c) (upper s')
  end.

(** [s.split(sep)] for a one-character separator. *)
Fixpoint split_on (sep : ascii) (cur : string) (s : string) : list string :=
  match s with
  | EmptyString => [cur]
  | String c s' =>
      if Ascii.eqb c sep
      then cur :: split_on sep EmptyString s'
      else split_on sep (cur ++ String c EmptyString) s'
  end.

Definition split (sep : ascii) (s : string) : list string :=
  split_on sep EmptyString s.

(** [str(n)] for an integer. *)
Definition str_of_Z (z : Z) : string :=
  NilZero.string_of_int (Z.to_int z).

(** ** The regular expression [/ch/(\d+)_]

    [\d] is a decimal digit.  On a [str] pattern it is any Unicode
    decimal digit; among the ASCII characters these are [0]..[9], and the
    facts on the expression are stated for ASCII text. *)
Definition is_digit (c : ascii) : bool :=
  let n := nat_of_ascii c in (48 <=? n)%nat && (n <=? 57)%nat.

(** The longest run of digits at the head of [s], and what follows it. *)
Fixpoint span_digits (s : string) : string * string :=
  match s with
  | EmptyString => (EmptyString, EmptyString)
  | String c s' =>
      if is_digit c
      then let (ds, rest) := span_digits s' in (String c ds, rest)
      else (EmptyString, s)
  end.

(** A match anchored at the head of [s]; the result is group 1.  The
    greedy [\d+] takes the whole run: a shorter run is followed by a
    digit, never by [_]. *)
Definition match_ch_at (s : string) : option string :=
  match s with
  | String c1 (String c2 (String c3 (String c4 t))) =>
      if Ascii.eqb c1 "/" && Ascii.eqb c2 "c" && Ascii.eqb c3 "h"
         && Ascii.eqb c4 "/"
      then
        match span_digits t with
        | (String d ds, String u _) =>
            if Ascii.eqb u "_" then Some (String d ds) else None
        | _ => None
        end
      else None
  | _ => None
  end.

(** [re.search(r'/ch/(\d+)_', s)]: the leftmost match, as its group 1. *)
Fixpoint re_search_ch (s : string) : option string :=
  match match_ch_at s with
  | Some ds => Some ds
  | None =>
      match s with
      | EmptyString => None
      | String _ s' => re_search_ch s'
      end
  end.

(** [urllib.parse.quote(s)] with its default [safe='/']: letters, digits
    and [_ . - ~ /] are kept, every other byte becomes [%XX]. *)
Definition hex_digit (n : nat) : ascii :=
  if (n <? 10)%nat then ascii_of_nat (48 + n) else ascii_of_nat (55 + n).

Definition quote_safe (c : ascii) : bool :=
  let n := nat_of_ascii c in
  ((48 <=? n) && (n <=? 57) || (65 <=? n) && (n <=? 90)
   || (97 <=? n) && (n <=? 122)
   || (n =? 95) || (n =? 46) || (n =? 45) || (n =? 126) || (n =? 47))%nat.

Fixpoint quote (s : string) : string :=
  match s with
  | EmptyString => EmptyString
  | String c s' =>
      if quote_safe c then String c (quote s')
      else
        let n := nat_of_ascii c in
        String "%" (String (hex_digit (n / 16))
                      (String (hex_digit (n mod 16)) (quote s')))
  end.

End PyStr.

Import PyStr.

(* ===================================================================== *)
(** * Python values and exceptions *)
(* ===================================================================== *)

(** What [json.loads] returns.  A [PDict] lists the items of a dict, whose
    keys are distinct. *)
Inductive pyval : Type :=
| PNone
| PBool (b : bool)
| PInt (z : Z)
| PStr (s : string)
| PList (l : list pyval)
| PDict (d : list (string * pyval)).

(** The exception classes that the scripts raise or catch.
    [TransportError] stands for [requests.RequestException] in the two
    synchronous scripts and for [aiohttp.ClientError] in [macshow.py].
    [TimeoutError] is the [asyncio.TimeoutError] of a request of
    [macshow.py] that runs into its [timeout=]: it is not an
    [aiohttp.ClientError].  [UnicodeEncodeError] is what [file.write]
    raises for text that the encoding of the file cannot take. *)
Inductive exn : Type :=
| KeyboardInterrupt
| TransportError
| JSONDecodeError
| KeyError
| IndexError
| TypeError
| AttributeError
| ValueError
| OSError
| EOFError
| RecursionError
| SystemExit
| TimeoutError
| UnicodeEncodeError.

(** [except Exception] catches everything but [KeyboardInterrupt] and
    the [SystemExit] that [sys.exit] raises. *)
Definition is_Exception (e : exn) : bool :=
  match e with KeyboardInterrupt | SystemExit => false | _ => true end.

Definition is_KeyboardInterrupt (e : exn) : bool :=
  match e with KeyboardInterrupt => true | _ => false end.

(** [except requests.RequestException] / [except aiohttp.ClientError]. *)
Definition is_TransportError (e : exn) : bool :=
  match e with TransportError => true | _ => false end.

(** [except (requests.RequestException, json.JSONDecodeError)]. *)
Definition is_Transport_or_JSON (e : exn) : bool :=
  match e with TransportError | JSONDecodeError => true | _ => false end.

(** [except IOError]. *)
Definition is_IOError (e : exn) : bool :=
  match e with OSError => true | _ => false end.

(** The outcome of a computation: a value, an exception on its way up,
    or a loop that was still running when the fuel ran out. *)
Inductive result (A : Type) : Type :=
| Ret (a : A)
| Raise (e : exn)
| OutOfFuel.

Arguments Raise {A} e.
Arguments OutOfFuel {A}.

Definition rbind {A B} (r : result A) (f : A -> result B) : result B :=
  match r with
  | Ret a => f a
  | Raise e => Raise e
  | OutOfFuel => OutOfFuel
  end.

Declare Scope res_scope.
Delimit Scope res_scope with res.
Notation "x <- r ;; k" := (rbind r (fun x => k))
  (at level 61, r at next level, right associativity) : res_scope.

Module Py.

(** Truth value, as tested by [if v:] and [if not v:]. *)
Definition truthy (v : pyval) : bool :=
  match v with
  | PNone => false
  | PBool b => b
  | PInt z => negb (z =? 0)%Z
  | PStr s => negb (String.eqb s "")
  | PList l => match l with [] => false | _ => true end
  | PDict d => match d with [] => false | _ => true end
  end.

Fixpoint assoc (k : string) (d : list (string * pyval)) : option pyval :=
  match d with
  | [] => None
  | (k', v) :: d' => if String.eqb k k' then Some v else assoc k d'
  end.

(** [v[k]] for a string key. *)
Definition getitem (v : pyval) (k : string) : result pyval :=
  match v with
  | PDict d => match assoc k d with Some x => Ret x | None => Raise KeyError end
  | _ => Raise TypeError
  end.

Definition str_nth (n : nat) (s : string) : option ascii := String.get n s.

(** [v[n]] for a literal index [n >= 0]. *)
Definition getindex (v : pyval) (n : nat) : result pyval :=
  match v with
  | PList l => match nth_error l n with Some x => Ret x | None => Raise IndexError end
  | PStr s =>
      match str_nth n s with
      | Some c => Ret (PStr (String c EmptyString))
      | None => Raise IndexError
      end
  | PDict _ => Raise KeyError
  | _ => Raise TypeError
  end.

(** [v.get(k, default)]. *)
Definition get_default (v : pyval) (k : string) (default : pyval) : result pyval :=
  match v with
  | PDict d => Ret (match assoc k d with Some x => x | None => default end)
  | _ => Raise AttributeError
  end.

Fixpoint chars (s : string) : list pyval :=
  match s with
  | EmptyString => []
  | String c s' => PStr (String c EmptyString) :: chars s'
  end.

(** The items that [for x in v] runs over. *)
Definition iter (v : pyval) : result (list pyval) :=
  match v with
  | PList l => Ret l
  | PDict d => Ret (map (fun kv => PStr (fst kv)) d)
  | PStr s => Ret (chars s)
  | _ => Raise TypeError
  end.

(** [len(v)]. *)
Definition len (v : pyval) : result Z :=
  match v with
  | PList l => Ret (Z.of_nat (List.length l))
  | PDict d => Ret (Z.of_nat (List.length d))
  | PStr s => Ret (Z.of_nat (String.length s))
  | _ => Raise TypeError
  end.

(** [v.replace(old, new)] and [v.split(sep)] exist on strings only. *)
Definition replace (v : pyval) (old new : string) : result string :=
  match v with
  | PStr s => Ret (str_replace old new s)
  | _ => Raise AttributeError
  end.

Definition split (v : pyval) (sep : ascii) : result (list string) :=
  match v with
  | PStr s => Ret (PyStr.split sep s)
  | _ => Raise AttributeError
  end.

(** [l[n]] on the list that [split] returns. *)
Definition nth_str (l : list string) (n : nat) : result string :=
  match nth_error l n with Some s => Ret s | None => Raise IndexError end.

(** [urllib.parse.quote(v)]. *)
Definition quote (v : pyval) : result string :=
  match v with
  | PStr s => Ret (PyStr.quote s)
  | _ => Raise TypeError
  end.

(** [v == "*"] for a string literal. *)
Definition eq_str (v : pyval) (s : string) : bool :=
  match v with PStr s' => String.eqb s' s | _ => false end.

(** ** Dictionaries built by the scripts

    Keys are arbitrary hashable values; [1], [True] compare equal. *)
Definition pydict := list (pyval * pyval).

Definition hashable (v : pyval) : bool :=
  match v with PList _ | PDict _ => false | _ => true end.

Definition key_eqb (a b : pyval) : bool :=
  match a, b with
  | PNone, PNone => true
  | PStr s, PStr t => String.eqb s t
  | PInt x, PInt y => (x =? y)%Z
  | PBool x, PBool y => Bool.eqb x y
  | PInt x, PBool y | PBool y, PInt x => (x =? (if y then 1 else 0))%Z
  | _, _ => false
  end.

Fixpoint dict_lookup (d : pydict) (k : pyval) : option pyval :=
  match d with
  | [] => None
  | (k', v) :: d' => if key_eqb k k' then Some v else dict_lookup d' k
  end.

(** [d[k] = v]: an existing key keeps its place and takes the new value. *)
Fixpoint dict_store (d : pydict) (k v : pyval) : pydict :=
  match d with
  | [] => [(k, v)]
  | (k', v') :: d' =>
      if key_eqb k k' then (k', v) :: d' else (k', v') :: dict_store d' k v
  end.

Definition dict_set (d : pydict) (k v : pyval) : result pydict :=
  if hashable k then Ret (dict_store d k v) else Raise TypeError.

(** [d.get(k, default)]. *)
Definition dict_get (d : pydict) (k default : pyval) : result pyval :=
  if hashable k
  then Ret (match dict_lookup d k with Some v => v | None => default end)
  else Raise TypeError.

Definition dict_truthy (d : pydict) : bool :=
  match d with [] => false | _ => true end.

(** [f"{z:0{width}d}"]: the sign comes before the padding. *)
Fixpoint zeros (n : nat) : string :=
  match n with O => EmptyString | S k => String "0" (zeros k) end.

Definition pad_left (width : nat) (s : string) : string :=
  zeros (width - String.length s) ++ s.

Definition format_0d (width : nat) (z : Z) : string :=
  if (z <? 0)%Z
  then "-" ++ pad_left (width - 1) (str_of_Z (- z))
  else pad_left width (str_of_Z z).

(** [format(v, "0{width}d")]: integers and booleans only. *)
Definition format_d (width : nat) (v : pyval) : result string :=
  match v with
  | PInt z => Ret (format_0d width z)
  | PBool b => Ret (format_0d width (if b then 1 else 0))
  | PNone | PList _ | PDict _ => Raise TypeError
  | PStr _ => Raise ValueError
  end.

End Py.

(* ===================================================================== *)
(** * The world, the event log and the monad of the scripts *)
(* ===================================================================== *)

(** The place in a script that sends a request.  It is a label of the
    model: the portal sees the URL and the headers only. *)
Inductive callsite : Type :=
| Handshake
| AccountInfo
| Genres
| AllChannels
| Categories
| ItemPage (page : Z)
| Seasons
| CreateLink.

(** A GET request: the URL and the [headers=] argument of [session.get].
    The [mac] cookie of the session goes with every request and is left
    out. *)
Record request : Type := {
  rq_site : callsite;
  rq_url : string;
  rq_headers : list (string * string)
}.

(** A response: the status, the [Content-Type] header ([""] when absent)
    and the body as [json.loads] reads it, [None] when it is not JSON. *)
Record response : Type := {
  status_code : Z;
  content_type : string;
  parsed : option pyval
}.

(** What a GET leads to: no response at all (a transport error or a
    timeout), or a response. *)
Inductive reply : Type :=
| NoResponse
| Responded (r : response).

(** What the user does at a prompt. *)
Inductive typed : Type :=
| Line (s : string)
| CtrlC
| EndOfInput.

(** One [file.write] call.  [Header] is ['#EXTM3U\n'].  [Entry] is the
    f-string of [maclist.py] and [macvod.py],
    [#EXTINF:-1 tvg-logo="{logo}" group-title="{group}",{name}\n{url}\n];
    [Episode] is the f-string of [macshow.py].  The interpolated values
    are kept as they are. *)
Inductive chunk : Type :=
| Header
| Entry (logo group name : pyval) (url : string)
| Episode (series_id season_num : string) (episode_num series_title
           logo group : pyval) (formatted_episode_num : string)
          (url : string).

Inductive event : Type :=
| EInput (prompt : string)
| EGet (rq : request) (rp : reply)
| EOpen (path : string)
| EWrite (c : chunk).

(** What a [file.write] call does: it writes the chunk, or it raises
    [OSError] (the disk, the device), or it raises [UnicodeEncodeError]. *)
Inductive write_outcome : Type :=
| Written
| WriteOSError
| WriteEncodeError.

(** The log holds the events of a run, the earliest first.  A
    [file.write] that raises leaves no event. *)
Definition log := list event.

Definition is_get (e : event) : bool :=
  match e with EGet _ _ => true | _ => false end.
Definition is_input (e : event) : bool :=
  match e with EInput _ => true | _ => false end.
Definition is_open (e : event) : bool :=
  match e with EOpen _ => true | _ => false end.
Definition is_write (e : event) : bool :=
  match e with EWrite _ => true | _ => false end.

Definition count (p : event -> bool) (l : log) : nat :=
  List.length (filter p l).

(** Everything the scripts depend on and do not define.  The user, the
    portal, the file system and the clock are scripts of answers: the
    [n]-th prompt, GET, [open] gets the [n]-th answer.  [w_write n] is
    what a [file.write] does when the log has [n] events, and
    [w_timeout n] tells whether the [n]-th GET, when it gets no response,
    ends in a timeout rather than in a connection error: the two differ
    for [macshow.py] only.  The other four fields are library functions:
    - [w_urlparse s] is the pair
      [(urlparse(s).hostname, urlparse(s).port)], or the [ValueError] that
      reading it raises;
    - [w_int s] is [int(s)], [None] for a [ValueError];
    - [w_cmd series_id season] is
      [base64.b64encode(json.dumps({"series_id": series_id,
       "season_num": season, "type": "series"}).encode()).decode()];
    - [w_repr v] is [str(v)] for a list or a dict. *)
Record world : Type := {
  w_input : nat -> typed;
  w_reply : nat -> reply;
  w_open : nat -> bool;
  w_now : nat -> string;
  w_urlparse : string -> result (option string * option Z);
  w_int : string -> option Z;
  w_cmd : string -> Z -> string;
  w_repr : pyval -> string;
  w_write : nat -> write_outcome;
  w_timeout : nat -> bool
}.

(** A computation of a script: from the log so far to an outcome and the
    log after. *)
Definition M (A : Type) : Type := log -> result A * log.

Definition mret {A} (a : A) : M A := fun st => (Ret a, st).

Definition mbind {A B} (m : M A) (f : A -> M B) : M B :=
  fun st =>
    match m st with
    | (Ret a, st') => f a st'
    | (Raise e, st') => (Raise e, st')
    | (OutOfFuel, st') => (OutOfFuel, st')
    end.

Definition lift {A} (r : result A) : M A := fun st => (r, st).

Definition raise {A} (e : exn) : M A := fun st => (Raise e, st).

(** [try: m except <classes>: handler]. *)
Definition try_except {A} (m : M A) (classes : exn -> bool)
           (handler : exn -> M A) : M A :=
  fun st =>
    match m st with
    | (Raise e, st') => if classes e then handler e st' else (Raise e, st')
    | other => other
    end.

Declare Scope py_scope.
Delimit Scope py_scope with py.
Notation "x <- m ;; k" := (mbind m (fun x => k))
  (at level 61, m at next level, right associativity) : py_scope.
Notation "' pat <- m ;; k" :=
  (mbind m (fun x => match x with pat => k end))
  (at level 61, pat pattern, m at next level, right associativity) : py_scope.
Notation "m1 ;; m2" := (mbind m1 (fun _ => m2))
  (at level 61, right associativity) : py_scope.

Local Open Scope py_scope.

(** [for x in xs: acc = body(acc, x)]: a loop over a list that updates
    local variables. *)
Fixpoint for_fold {A S} (xs : list A) (acc : S) (body : S -> A -> M S) : M S :=
  match xs with
  | [] => mret acc
  | x :: xs' => acc' <- body acc x ;; for_fold xs' acc' body
  end.

Section Primitives.

Variable W : world.

(** [input(prompt)]. *)
Definition input_colored (prompt : string) : M string :=
  fun st =>
    let st' := (st ++ [EInput prompt])%list in
    match w_input W (count is_input st) with
    | Line s => (Ret s, st')
    | CtrlC => (Raise KeyboardInterrupt, st')
    | EndOfInput => (Raise EOFError, st')
    end.

(** [session.get(url, headers=headers, timeout=timeout)] of [requests]:
    a request without response raises a [RequestException], the timeout
    included. *)
Definition http_get (site : callsite) (url : string)
           (headers : list (string * string)) : M response :=
  fun st =>
    let rp := w_reply W (count is_get st) in
    let st' := (st ++ [EGet {| rq_site := site; rq_url := url;
                               rq_headers := headers |} rp])%list in
    match rp with
    | NoResponse => (Raise TransportError, st')
    | Responded r => (Ret r, st')
    end.

(** [async with session.get(url, headers=headers, timeout=timeout)] of
    [aiohttp]: a request without response raises a [ClientError], or the
    [asyncio.TimeoutError] of the timeout. *)
Definition aio_get (site : callsite) (url : string)
           (headers : list (string * string)) : M response :=
  fun st =>
    let rp := w_reply W (count is_get st) in
    let st' := (st ++ [EGet {| rq_site := site; rq_url := url;
                               rq_headers := headers |} rp])%list in
    match rp with
    | NoResponse =>
        (Raise (if w_timeout W (count is_get st) then TimeoutError
                else TransportError), st')
    | Responded r => (Ret r, st')
    end.

(** [datetime.now().strftime("%Y-%m-%d_%H-%M-%S")]. *)
Definition now : M string :=
  fun st => (Ret (w_now W (count is_open st)), st).

(** [open(path, 'w', encoding='utf-16')]. *)
Definition open_write (path : string) : M unit :=
  fun st =>
    let st' := (st ++ [EOpen path])%list in
    if w_open W (count is_open st) then (Ret tt, st') else (Raise OSError, st').

(** [str(v)], which is also how an f-string formats [{v}]. *)
Definition py_str (v : pyval) : string :=
  match v with
  | PStr s => s
  | PInt z => str_of_Z z
  | PNone => "None"
  | PBool true => "True"
  | PBool false => "False"
  | PList _ | PDict _ => w_repr W v
  end.

(** [file.write(c)]. *)
Definition file_write (c : chunk) : M unit :=
  fun st =>
    match w_write W (List.length st) with
    | Written => (Ret tt, (st ++ [EWrite c])%list)
    | WriteOSError => (Raise OSError, st)
    | WriteEncodeError => (Raise UnicodeEncodeError, st)
    end.

End Primitives.

(** [json.loads(res.text)], and [await res.json(content_type=None)].
    [parsed] is the body as the reader of the call reads it: an empty
    body is not JSON for [json.loads], and is [None] ([Some PNone]) for
    [res.json] of [aiohttp]. *)
Definition json_loads (res : response) : result pyval :=
  match parsed res with
  | Some v => Ret v
  | None => Raise JSONDecodeError
  end.

(** [base_url.replace("://", "_").replace("/", "_").replace(".", "_")
     .replace(":", "_")]. *)
Definition sanitize (base_url : string) : string :=
  str_replace ":" "_"
    (str_replace "." "_" (str_replace "/" "_" (str_replace "://" "_" base_url))).

(** [{"Authorization": f"Bearer {token}"}]. *)
Definition bearer (W : world) (token : pyval) : list (string * string) :=
  [("Authorization", "Bearer " ++ py_str W token)].

(** The requests of a log, with the replies they got. *)
Fixpoint requests (l : log) : list (request * reply) :=
  match l with
  | [] => []
  | EGet rq rp :: l' => (rq, rp) :: requests l'
  | _ :: l' => requests l'
  end.

(** The chunks written. *)
Fixpoint written (l : log) : list chunk :=
  match l with
  | [] => []
  | EWrite c :: l' => c :: written l'
  | _ :: l' => written l'
  end.

(* ===================================================================== *)
(** * maclist.py: live channels *)
(* ===================================================================== *)

Module MacList.

(** Lines 191-195 of [save_channel_list]: the rewrite of a command URL
    that points at the portal's own loopback proxy. *)
Definition rewrite_local (base_url mac cmd_url : string) : string :=
  if str_in "localhost" cmd_url then
    match re_search_ch cmd_url with
    | Some ch_id =>
        base_url ++ "/play/live.php?mac=" ++ mac ++ "&stream=" ++ ch_id
                 ++ "&extension=ts"
    | None => cmd_url
    end
  else cmd_url.

(** The body of the [for] loop of [save_channel_list], lines 186-197: the
    record of one channel. *)
Definition channel_record (base_url mac : string) (group_info : Py.pydict)
           (channel : pyval) : result chunk :=
  (group_id <- Py.getitem channel "tv_genre_id" ;;
   group_name <- Py.dict_get group_info group_id (PStr "General") ;;
   name <- Py.getitem channel "name" ;;
   logo <- Py.get_default channel "logo" (PStr "") ;;
   cmds <- Py.getitem channel "cmds" ;;
   cmd0 <- Py.getindex cmds 0 ;;
   url <- Py.getitem cmd0 "url" ;;
   cmd_url <- Py.replace url "ffmpeg " "" ;;
   Ret (Entry logo group_name name (rewrite_local base_url mac cmd_url)))%res.

(** [{group['id']: group['title'] for group in id_genre}]. *)
Fixpoint genre_dict (groups : list pyval) (acc : Py.pydict) : result Py.pydict :=
  match groups with
  | [] => Ret acc
  | group :: rest =>
      (id <- Py.getitem group "id" ;;
       title <- Py.getitem group "title" ;;
       acc' <- Py.dict_set acc id title ;;
       genre_dict rest acc')%res
  end.

Section WithWorld.

Variable W : world.

Definition get_base_url : M string :=
  base_url <- input_colored W "Enter IPTV link: " ;;
  ' (host, port) <- lift (w_urlparse W base_url) ;;
  let host := match host with Some h => h | None => "None" end in
  let port := match port with Some p => p | None => 80%Z end in
  mret ("http://" ++ host ++ ":" ++ str_of_Z port).

Definition get_mac_address : M string :=
  mac <- input_colored W "Input Mac address: " ;;
  mret (upper mac).

Definition get_token (base_url : string) : M pyval :=
  let url :=
    base_url ++ "/portal.php?action=handshake&type=stb&token=&JsHttpRequest=1-xml" in
  try_except
    (res <- http_get W Handshake url [] ;;
     data <- lift (json_loads res) ;;
     js <- lift (Py.getitem data "js") ;;
     lift (Py.getitem js "token"))
    is_Transport_or_JSON
    (fun _ => mret PNone).

Definition get_subscription (base_url : string) (token : pyval) : M bool :=
  let url :=
    base_url ++ "/portal.php?type=account_info&action=get_main_info&JsHttpRequest=1-xml" in
  let headers := bearer W token in
  try_except
    (res <- http_get W AccountInfo url headers ;;
     if (status_code res =? 200)%Z then
       data <- lift (json_loads res) ;;
       js <- lift (Py.getitem data "js") ;;
       _ <- lift (Py.getitem js "mac") ;;
       _ <- lift (Py.getitem js "phone") ;;
       mret true
     else mret false)
    is_TransportError
    (fun _ => mret false).

(** The result is the pair [(channels_data, group_info)]; the second
    component is [None] when the script returns [None, None]. *)
Definition get_channel_list (base_url : string)
           (headers : list (string * string)) : M (pyval * option Py.pydict) :=
  let url_genre :=
    base_url ++ "/server/load.php?type=itv&action=get_genres&JsHttpRequest=1-xml" in
  try_except
    (res_genre <- http_get W Genres url_genre headers ;;
     if (status_code res_genre =? 200)%Z then
       data <- lift (json_loads res_genre) ;;
       id_genre <- lift (Py.getitem data "js") ;;
       groups <- lift (Py.iter id_genre) ;;
       group_info <- lift (genre_dict groups []) ;;
       let url3 :=
         base_url ++ "/portal.php?type=itv&action=get_all_channels&JsHttpRequest=1-xml" in
       res3 <- http_get W AllChannels url3 headers ;;
       if (status_code res3 =? 200)%Z then
         data3 <- lift (json_loads res3) ;;
         js3 <- lift (Py.getitem data3 "js") ;;
         channels_data <- lift (Py.getitem js3 "data") ;;
         mret (channels_data, Some group_info)
       else mret (PNone, None)
     else mret (PNone, None))
    is_TransportError
    (fun _ => mret (PNone, None)).

Definition save_channel_list (base_url current : string) (channels_data : pyval)
           (group_info : Py.pydict) (mac : string) : M unit :=
  let sanitized_url := sanitize base_url in
  try_except
    (open_write W (sanitized_url ++ "_" ++ current ++ ".m3u") ;;
     file_write W Header ;;
     channels <- lift (Py.iter channels_data) ;;
     _ <- for_fold channels 0%Z
            (fun count channel =>
               channel_str <- lift (channel_record base_url mac group_info channel) ;;
               file_write W channel_str ;;
               mret (count + 1)%Z) ;;
     mret tt)
    is_IOError
    (fun _ => mret tt).

(** The [try] block of [main]. *)
Definition main_body : M unit :=
  base_url <- get_base_url ;;
  mac <- get_mac_address ;;
  token <- get_token base_url ;;
  if Py.truthy token then
    ok <- get_subscription base_url token ;;
    if ok then
      let headers := bearer W token in
      ' (channels_data, group_info) <- get_channel_list base_url headers ;;
      match group_info with
      | Some group_info =>
          if Py.truthy channels_data && Py.dict_truthy group_info then
            current <- now W ;;
            save_channel_list base_url current channels_data group_info mac
          else mret tt
      | None => mret tt
      end
    else mret tt
  else mret tt.

(** [main]: only [KeyboardInterrupt] is handled; any other exception
    leaves [main] as it is. *)
Definition main : M unit :=
  try_except main_body is_KeyboardInterrupt (fun _ => raise SystemExit).

End WithWorld.

End MacList.

(** [executor.submit(job)] and the completion of the job.  The thread
    pool of [macvod.py] is run under the schedule in which every job
    finishes before the next one is submitted; the future keeps the
    outcome of the job, and a job that never finishes blocks the run. *)
Definition submit {A} (job : M A) : M (result A) :=
  fun st =>
    match job st with
    | (OutOfFuel, st') => (OutOfFuel, st')
    | (r, st') => (Ret r, st')
    end.

(** Lines 213-219 of [macvod.py] and 223-229 of [macshow.py]: what
    [fetch_play_link] makes of a response, [None] for "no link". *)
Definition play_link_of (res : response) : result (option string) :=
  if (status_code res =? 200)%Z then
    (data <- json_loads res ;;
     js <- Py.getitem data "js" ;;
     cmd <- Py.getitem js "cmd" ;;
     tokens <- Py.split cmd " " ;;
     play_token <- Py.nth_str tokens 1 ;;
     Ret (Some play_token))%res
  else Ret None.

(** [if play_link:] on an [Optional[str]]. *)
Definition link_truthy (play_link : option string) : bool :=
  match play_link with
  | Some s => negb (String.eqb s "")
  | None => false
  end.

(* ===================================================================== *)
(** * macvod.py: movies *)
(* ===================================================================== *)

Module MacVod.

Section WithWorld.

Variable W : world.

Definition get_base_url : M string :=
  base_url <- input_colored W "Enter IPTV link: " ;;
  ' (host, port) <- lift (w_urlparse W base_url) ;;
  let host := match host with Some h => h | None => "" end in
  let port :=
    match port with
    | Some p => if (p =? 0)%Z then 80%Z else p
    | None => 80%Z
    end in
  mret ("http://" ++ host ++ ":" ++ str_of_Z port).

Definition get_mac_address : M string :=
  mac <- input_colored W "Input Mac address: " ;;
  mret (upper mac).

Definition get_token (base_url : string) : M pyval :=
  let url :=
    base_url ++ "/portal.php?action=handshake&type=stb&token=&JsHttpRequest=1-xml" in
  try_except
    (res <- http_get W Handshake url [] ;;
     data <- lift (json_loads res) ;;
     js <- lift (Py.getitem data "js") ;;
     lift (Py.getitem js "token"))
    is_Transport_or_JSON
    (fun _ => mret PNone).

Definition get_subscription (base_url : string) (token : pyval) : M bool :=
  let url :=
    base_url ++ "/portal.php?type=account_info&action=get_main_info&JsHttpRequest=1-xml" in
  let headers := bearer W token in
  try_except
    (res <- http_get W AccountInfo url headers ;;
     if (status_code res =? 200)%Z then
       data <- lift (json_loads res) ;;
       js <- lift (Py.getitem data "js") ;;
       _ <- lift (Py.getitem js "mac") ;;
       _ <- lift (Py.getitem js "phone") ;;
       mret true
     else mret false)
    is_TransportError
    (fun _ => mret false).

Definition get_vod_categories (base_url : string)
           (headers : list (string * string)) : M pyval :=
  let url :=
    base_url ++ "/portal.php?type=vod&action=get_categories&JsHttpRequest=1-xml" in
  try_except
    (res <- http_get W Categories url headers ;;
     if (status_code res =? 200)%Z then
       data <- lift (json_loads res) ;;
       lift (Py.getitem data "js")
     else mret PNone)
    is_TransportError
    (fun _ => mret PNone).

Definition get_vod_list (base_url : string) (headers : list (string * string))
           (category_id : pyval) (page : Z) : M pyval :=
  let url :=
    base_url
    ++ "/portal.php?type=vod&action=get_ordered_list&movie_id=0&season_id=0&episode_id=0&row=0&"
    ++ "JsHttpRequest=1-xml&category=" ++ py_str W category_id
    ++ "&sortby=added&fav=0&hd=0&not_ended=0&abc=*&genre=*&years=*&search=&p="
    ++ str_of_Z page in
  try_except
    (res <- http_get W (ItemPage page) url headers ;;
     if (status_code res =? 200)%Z then
       data <- lift (json_loads res) ;;
       js <- lift (Py.getitem data "js") ;;
       lift (Py.getitem js "data")
     else mret PNone)
    is_TransportError
    (fun _ => mret PNone).

Definition fetch_play_link (base_url : string) (cmd : pyval) : M (option string) :=
  quoted <- lift (Py.quote cmd) ;;
  let url := base_url ++ "/portal.php?type=vod&action=create_link&cmd=" ++ quoted in
  try_except
    (res <- http_get W CreateLink url [] ;;
     lift (play_link_of res))
    is_TransportError
    (fun _ => mret None).

Definition save_vod_list (vod_data : pyval) (base_url : string)
           (category_title : pyval) : M Z :=
  vods <- lift (Py.iter vod_data) ;;
  for_fold vods 0%Z
    (fun count vod =>
       name <- lift (Py.getitem vod "name") ;;
       logo <- lift (Py.get_default vod "screenshot_uri" (PStr "")) ;;
       cmd <- lift (Py.getitem vod "cmd") ;;
       play_link <- fetch_play_link base_url cmd ;;
       match play_link with
       | Some link =>
           if link_truthy play_link then
             file_write W (Entry logo category_title name link) ;;
             mret (count + 1)%Z
           else mret count
       | None => mret count
       end).

(** The [while True] loop of [fetch_and_save_vods]; [fuel] bounds the
    number of pages. *)
Fixpoint vod_pages (fuel : nat) (base_url : string)
         (headers : list (string * string)) (category_id category_title : pyval)
         (page total_count : Z) : M Z :=
  match fuel with
  | O => lift OutOfFuel
  | S fuel' =>
      vod_data <- get_vod_list base_url headers category_id page ;;
      if negb (Py.truthy vod_data) then mret total_count
      else
        count <- save_vod_list vod_data base_url category_title ;;
        vod_pages fuel' base_url headers category_id category_title
                  (page + 1)%Z (total_count + count)%Z
  end.

Definition fetch_and_save_vods (fuel : nat) (base_url : string)
           (headers : list (string * string)) (category : pyval) : M Z :=
  category_id <- lift (Py.getitem category "id") ;;
  category_title <- lift (Py.getitem category "title") ;;
  if Py.eq_str category_id "*" then mret 0%Z
  else vod_pages fuel base_url headers category_id category_title 1%Z 0%Z.

(** The dictionary comprehension that submits one job per category. *)
Fixpoint submit_all (fuel : nat) (base_url : string)
         (headers : list (string * string)) (categories : list pyval)
  : M (list (result Z * pyval)) :=
  match categories with
  | [] => mret []
  | category :: rest =>
      id <- lift (Py.getitem category "id") ;;
      if negb (Py.eq_str id "*") then
        future <- submit (fetch_and_save_vods fuel base_url headers category) ;;
        futures <- submit_all fuel base_url headers rest ;;
        mret ((future, category) :: futures)
      else submit_all fuel base_url headers rest
  end.

(** The loop over [as_completed(futures)]: the title is looked up for the
    progress line, and again in the handler. *)
Definition report (futures : list (result Z * pyval)) : M unit :=
  for_fold futures tt
    (fun _ fc =>
       let (future, category) := fc in
       try_except
         (_ <- lift future ;;
          _ <- lift (Py.getitem category "title") ;;
          mret tt)
         is_Exception
         (fun _ => _ <- lift (Py.getitem category "title") ;; mret tt)).

(** The [try] block of [main]. *)
Definition main_body (fuel : nat) : M unit :=
  base_url <- get_base_url ;;
  mac <- get_mac_address ;;
  token <- get_token base_url ;;
  if Py.truthy token then
    ok <- get_subscription base_url token ;;
    if ok then
      let headers := bearer W token in
      vod_categories <- get_vod_categories base_url headers ;;
      if Py.truthy vod_categories then
        let sanitized_url := sanitize base_url in
        current <- now W ;;
        open_write W (sanitized_url ++ "_" ++ current ++ ".m3u") ;;
        file_write W Header ;;
        categories <- lift (Py.iter vod_categories) ;;
        futures <- submit_all fuel base_url headers categories ;;
        report futures
      else mret tt
    else mret tt
  else mret tt.

(** [main], with its two handlers.  The second one calls [main] again;
    [depth] is the number of nested calls that the interpreter still
    allows before it raises [RecursionError] from the call. *)
Fixpoint main (depth fuel : nat) : M unit :=
  fun st =>
    match main_body fuel st with
    | (Raise e, st') =>
        if is_KeyboardInterrupt e then (Raise SystemExit, st')
        else if is_Exception e then
          match depth with
          | O => (Raise RecursionError, st')
          | S depth' => main depth' fuel st'
          end
        else (Raise e, st')
    | other => other
    end.

End WithWorld.

End MacVod.

(* ===================================================================== *)
(** * macshow.py: series *)
(* ===================================================================== *)

Module MacShow.

(** [[cat for cat in categories if cat['id'] != "*"]]. *)
Fixpoint drop_sentinel (categories : list pyval) : result (list pyval) :=
  match categories with
  | [] => Ret []
  | cat :: rest =>
      (id <- Py.getitem cat "id" ;;
       kept <- drop_sentinel rest ;;
       Ret (if negb (Py.eq_str id "*") then cat :: kept else kept))%res
  end.

(** [f"S{season_num} E{episode_num:0{len(str(total_episodes))}d}"]. *)
Definition format_episode_number (season_num : Z) (episode_num : pyval)
           (total_episodes : Z) : result string :=
  (padded <- Py.format_d (String.length (str_of_Z total_episodes)) episode_num ;;
   Ret ("S" ++ str_of_Z season_num ++ " E" ++ padded))%res.

Section WithWorld.

Variable W : world.

Definition get_base_url : M string :=
  base_url <- input_colored W "Enter IPTV link: " ;;
  ' (host, port) <- lift (w_urlparse W base_url) ;;
  let host := match host with Some h => h | None => "" end in
  let port :=
    match port with
    | Some p => if (p =? 0)%Z then 80%Z else p
    | None => 80%Z
    end in
  mret ("http://" ++ host ++ ":" ++ str_of_Z port).

Definition get_mac_address : M string :=
  mac <- input_colored W "Input Mac address: " ;;
  mret (upper mac).

Definition get_token (base_url : string) : M pyval :=
  let url :=
    base_url ++ "/portal.php?action=handshake&type=stb&token=&JsHttpRequest=1-xml" in
  try_except
    (res <- aio_get W Handshake url [] ;;
     if startswith "text/javascript" (content_type res) then
       data <- lift (json_loads res) ;;
       js <- lift (Py.getitem data "js") ;;
       lift (Py.getitem js "token")
     else mret PNone)
    is_Transport_or_JSON
    (fun _ => mret PNone).

Definition get_subscription (base_url : string) (token : pyval) : M bool :=
  let url :=
    base_url ++ "/portal.php?type=account_info&action=get_main_info&JsHttpRequest=1-xml" in
  let headers := bearer W token in
  try_except
    (res <- aio_get W AccountInfo url headers ;;
     if (status_code res =? 200)%Z then
       data <- lift (json_loads res) ;;
       js <- lift (Py.getitem data "js") ;;
       _ <- lift (Py.getitem js "mac") ;;
       _ <- lift (Py.getitem js "phone") ;;
       mret true
     else mret false)
    is_TransportError
    (fun _ => mret false).

Definition get_series_categories (base_url : string)
           (headers : list (string * string)) : M pyval :=
  let url :=
    base_url ++ "/portal.php?type=series&action=get_categories&JsHttpRequest=1-xml" in
  try_except
    (res <- aio_get W Categories url headers ;;
     if (status_code res =? 200)%Z then
       data <- lift (json_loads res) ;;
       categories <- lift (Py.getitem data "js") ;;
       cats <- lift (Py.iter categories) ;;
       kept <- lift (drop_sentinel cats) ;;
       mret (PList kept)
     else mret PNone)
    is_TransportError
    (fun _ => mret PNone).

Definition get_series_list (base_url : string) (headers : list (string * string))
           (category_id : pyval) (page : Z) : M pyval :=
  let url :=
    base_url
    ++ "/portal.php?type=series&action=get_ordered_list&movie_id=0&season_id=0&episode_id=0&row=0&"
    ++ "JsHttpRequest=1-xml&category=" ++ py_str W category_id
    ++ "&sortby=added&fav=0&hd=0&not_ended=0&abc=*&genre=*&years=*&search=&p="
    ++ str_of_Z page in
  try_except
    (res <- aio_get W (ItemPage page) url headers ;;
     if (status_code res =? 200)%Z then
       data <- lift (json_loads res) ;;
       js <- lift (Py.getitem data "js") ;;
       lift (Py.getitem js "data")
     else mret PNone)
    is_TransportError
    (fun _ => mret PNone).

Definition get_seasons_episodes (base_url : string)
           (headers : list (string * string)) (series_id : string)
           (category_id : pyval) : M pyval :=
  let url :=
    base_url
    ++ "/portal.php?type=series&action=get_ordered_list&movie_id="
    ++ quote series_id
    ++ "&season_id=0&episode_id=0&row=0&JsHttpRequest=1-xml&category="
    ++ py_str W category_id
    ++ "&sortby=added&fav=0&hd=0&not_ended=0&abc=*&genre=*&years=*&search=&p=1" in
  try_except
    (res <- aio_get W Seasons url headers ;;
     if (status_code res =? 200)%Z then
       data <- lift (json_loads res) ;;
       js <- lift (Py.getitem data "js") ;;
       lift (Py.getitem js "data")
     else mret PNone)
    is_TransportError
    (fun _ => mret PNone).

Definition fetch_play_link (base_url cmd : string) (episode_num : pyval)
  : M (option string) :=
  let url :=
    base_url ++ "/portal.php?type=vod&action=create_link&cmd=" ++ quote cmd
             ++ "&series=" ++ py_str W episode_num in
  try_except
    (res <- aio_get W CreateLink url [] ;;
     lift (play_link_of res))
    is_TransportError
    (fun _ => mret None).

(** [int(season_num)]. *)
Definition py_int (s : string) : result Z :=
  match w_int W s with
  | Some z => Ret z
  | None => Raise ValueError
  end.

(** The innermost loop of [save_series_data], lines 271-288. *)
Definition save_episodes (base_url : string) (series : pyval)
           (series_title : pyval) (series_id season_num : string)
           (total_episodes : Z) (category_title : pyval)
           (episodes : list pyval) (total_count : Z) : M Z :=
  for_fold episodes total_count
    (fun total_count episode_num =>
       season <- lift (py_int season_num) ;;
       let cmd := w_cmd W series_id season in
       play_link <- fetch_play_link base_url cmd episode_num ;;
       match play_link with
       | Some link =>
           if link_truthy play_link then
             season' <- lift (py_int season_num) ;;
             formatted_episode_num <-
               lift (format_episode_number season' episode_num total_episodes) ;;
             logo <- lift (Py.get_default series "screenshot_uri" (PStr "")) ;;
             file_write W (Episode series_id season_num episode_num series_title
                                 logo category_title formatted_episode_num link) ;;
             mret (total_count + 1)%Z
           else mret total_count
       | None => mret total_count
       end).

(** The loop over the seasons of one series, lines 267-288. *)
Definition save_seasons (base_url : string) (series : pyval)
           (series_title : pyval) (series_id : string) (category_title : pyval)
           (seasons : list pyval) (total_count : Z) : M Z :=
  for_fold seasons total_count
    (fun total_count season =>
       season_id <- lift (Py.getitem season "id") ;;
       parts <- lift (Py.split season_id ":") ;;
       season_num <- lift (Py.nth_str parts 1) ;;
       episodes <- lift (Py.getitem season "series") ;;
       total_episodes <- lift (Py.len episodes) ;;
       episode_nums <- lift (Py.iter episodes) ;;
       save_episodes base_url series series_title series_id season_num
                     total_episodes category_title episode_nums total_count).

Definition save_series_data (series_data : pyval) (base_url : string)
           (headers : list (string * string)) (category_title : pyval) : M Z :=
  series_list <- lift (Py.iter series_data) ;;
  for_fold series_list 0%Z
    (fun total_count series =>
       series_title <- lift (Py.getitem series "name") ;;
       id <- lift (Py.getitem series "id") ;;
       parts <- lift (Py.split id ":") ;;
       series_id <- lift (Py.nth_str parts 0) ;;
       category_id <- lift (Py.getitem series "category_id") ;;
       seasons_data <-
         get_seasons_episodes base_url headers series_id category_id ;;
       if Py.truthy seasons_data then
         seasons <- lift (Py.iter seasons_data) ;;
         save_seasons base_url series series_title series_id category_title
                      seasons total_count
       else mret total_count).

(** The [while True] loop of [fetch_and_save_series]; [fuel] bounds the
    number of pages. *)
Fixpoint series_pages (fuel : nat) (base_url : string)
         (headers : list (string * string)) (category_id category_title : pyval)
         (page total_count : Z) : M Z :=
  match fuel with
  | O => lift OutOfFuel
  | S fuel' =>
      series_data <- get_series_list base_url headers category_id page ;;
      if negb (Py.truthy series_data) then mret total_count
      else
        count <- save_series_data series_data base_url headers category_title ;;
        series_pages fuel' base_url headers category_id category_title
                     (page + 1)%Z (total_count + count)%Z
  end.

Definition fetch_and_save_series (fuel : nat) (base_url : string)
           (headers : list (string * string)) (category : pyval) : M Z :=
  category_id <- lift (Py.getitem category "id") ;;
  category_title <- lift (Py.getitem category "title") ;;
  series_pages fuel base_url headers category_id category_title 1%Z 0%Z.

(** The loop over the categories in [main], lines 334-339. *)
Definition crawl_categories (fuel : nat) (base_url : string)
           (headers : list (string * string)) (categories : list pyval) : M unit :=
  for_fold categories tt
    (fun _ category =>
       try_except
         (_ <- fetch_and_save_series fuel base_url headers category ;;
          _ <- lift (Py.getitem category "title") ;;
          mret tt)
         is_Exception
         (fun _ => _ <- lift (Py.getitem category "title") ;; mret tt)).

(** The [try] block of [main]. *)
Definition main_body (fuel : nat) : M unit :=
  base_url <- get_base_url ;;
  mac <- get_mac_address ;;
  token <- get_token base_url ;;
  if Py.truthy token then
    ok <- get_subscription base_url token ;;
    if ok then
      let headers := bearer W token in
      series_categories <- get_series_categories base_url headers ;;
      if Py.truthy series_categories then
        let sanitized_url := sanitize base_url in
        current <- now W ;;
        open_write W (sanitized_url ++ "_" ++ current ++ ".m3u") ;;
        file_write W Header ;;
        categories <- lift (Py.iter series_categories) ;;
        crawl_categories fuel base_url headers categories
      else mret tt
    else mret tt
  else mret tt.

(** [main], with its two handlers; the second one awaits [main] again.
    [depth] is as in [MacVod.main]. *)
Fixpoint main (depth fuel : nat) : M unit :=
  fun st =>
    match main_body fuel st with
    | (Raise e, st') =>
        if is_KeyboardInterrupt e then (Raise SystemExit, st')
        else if is_Exception e then
          match depth with
          | O => (Raise RecursionError, st')
          | S depth' => main depth' fuel st'
          end
        else (Raise e, st')
    | other => other
    end.

End WithWorld.

End MacShow.

(* ===================================================================== *)
(** * The vocabulary of the statements *)
(* ===================================================================== *)

(** Every character of [s] is a decimal digit. *)
Fixpoint all_digits (s : string) : bool :=
  match s with
  | EmptyString => true
  | String c s' => is_digit c && all_digits s'
  end.

(** The character [c] does not occur in [s]. *)
Fixpoint no_char (c : ascii) (s : string) : bool :=
  match s with
  | EmptyString => true
  | String d s' => negb (Ascii.eqb d c) && no_char c s'
  end.

(** The genre lookup succeeded: status 200 and a list of genres from
    which the dictionary of titles is built. *)
Definition genres_ok (rp : reply) : bool :=
  match rp with
  | NoResponse => false
  | Responded r =>
      (status_code r =? 200)%Z
      && match (data <- json_loads r ;;
                js <- Py.getitem data "js" ;;
                groups <- Py.iter js ;;
                MacList.genre_dict groups [])%res with
         | Ret _ => true
         | _ => false
         end
  end.

(** ** A world for the examples

    The library functions are given at the arguments that the examples
    use. *)
Module Demo.

Definition urlparse (s : string) : result (option string * option Z) :=
  if String.eqb s "http://example.com:8080/c/"
  then Ret (Some "example.com", Some 8080%Z)
  else if String.eqb s "https://tv.example.org/stalker_portal/c/?x=1"
  then Ret (Some "tv.example.org", None)
  else if String.eqb s "http://localhost:8080/c/"
  then Ret (Some "localhost", Some 8080%Z)
  else if String.eqb s "http://example.com:0/c/"
  then Ret (Some "example.com", Some 0%Z)
  else if String.eqb s "http://example.com:99999/c/"
  then Raise ValueError
  else Ret (None, None).

Definition int (s : string) : option Z :=
  if String.eqb s "1" then Some 1%Z
  else if String.eqb s "2" then Some 2%Z
  else None.

Definition cmd (series_id : string) (season : Z) : string :=
  "eyJzZXJpZXNfaWQiOiAiNyIsICJzZWFzb25fbnVtIjogMSwgInR5cGUiOiAic2VyaWVzIn0=".

(** A world from what the user types and what the portal answers; every
    [open] succeeds. *)
Definition world_of (typed_lines : list string) (replies : list reply) : world :=
  {| w_input := fun n => match nth_error typed_lines n with
                         | Some s => Line s
                         | None => EndOfInput
                         end;
     w_reply := fun n => nth n replies NoResponse;
     w_open := fun _ => true;
     w_now := fun _ => "2024-05-01_12-00-00";
     w_urlparse := urlparse;
     w_int := int;
     w_cmd := cmd;
     w_repr := fun _ => "";
     w_write := fun _ => Written;
     w_timeout := fun _ => false |}.


(** The world [W] in which a request that gets no response has timed
    out. *)
Definition with_timeouts (W : world) : world :=
  {| w_input := w_input W;
     w_reply := w_reply W;
     w_open := w_open W;
     w_now := w_now W;
     w_urlparse := w_urlparse W;
     w_int := w_int W;
     w_cmd := w_cmd W;
     w_repr := w_repr W;
     w_write := w_write W;
     w_timeout := fun _ => true |}.

(** A 200 response with a JSON body. *)
Definition ok (v : pyval) : reply :=
  Responded {| status_code := 200;
               content_type := "text/javascript;charset=UTF-8";
               parsed := Some v |}.

(** A response with another status and a body that is not JSON. *)
Definition status (code : Z) : reply :=
  Responded {| status_code := code; content_type := "text/html";
               parsed := None |}.

Definition js (v : pyval) : pyval := PDict [("js", v)].

Definition handshake_ok : reply := ok (js (PDict [("token", PStr "T0K3N")])).

Definition account_ok : reply :=
  ok (js (PDict [("mac", PStr "00:1A:79:AA:BB:CC"); ("phone", PStr "2030-01-01")])).

(** Scenario A of the specification: one genre, one channel behind the
    portal's loopback proxy. *)
Definition channel_A : pyval :=
  PDict [("name", PStr "Ch1"); ("tv_genre_id", PStr "1");
         ("cmds", PList [PDict [("url", PStr "ffmpeg http://localhost/ch/42_x")]])].

Definition genres_A : Py.pydict := [(PStr "1", PStr "News")].

Definition world_A : world :=
  world_of ["http://example.com:8080/c/"; "00:1a:79:aa:bb:cc"]
           [handshake_ok; account_ok;
            ok (js (PList [PDict [("id", PStr "1"); ("title", PStr "News")]]));
            ok (js (PDict [("data", PList [channel_A])]))].

End Demo.

(** [m] only appends to the log, and what it appends satisfies [P]. *)
Definition adds {A} (P : event -> Prop) (m : M A) : Prop :=
  forall st, exists evs, snd (m st) = (st ++ evs)%list /\ Forall P evs.

(** The query marker of the portal protocol. *)
Definition marker : string := "JsHttpRequest=1-xml".

(** How the scripts send a request, by the place that sends it: with the
    marker and no header for the handshake, with no header for
    [create_link], with the marker and the bearer token everywhere else. *)
Definition request_shape (W : world) (rq : request) : Prop :=
  match rq_site rq with
  | Handshake => str_in marker (rq_url rq) = true /\ rq_headers rq = []
  | CreateLink => rq_headers rq = []
  | _ => str_in marker (rq_url rq) = true
         /\ exists token, rq_headers rq = bearer W token
  end.

Definition sent_in_shape (W : world) (e : event) : Prop :=
  match e with
  | EGet rq _ => request_shape W rq
  | _ => True
  end.

(** The request goes to [base_url]. *)
Definition sent_to (base_url : string) (e : event) : Prop :=
  match e with
  | EGet rq _ => startswith base_url (rq_url rq) = true
  | _ => True
  end.

Definition well_sent (W : world) (base_url : string) (e : event) : Prop :=
  sent_to base_url e /\ sent_in_shape W e.

(** [headers.get(name)] on the headers of a request. *)
Fixpoint assoc_header (name : string) (headers : list (string * string))
  : option string :=
  match headers with
  | [] => None
  | (k, v) :: rest => if String.eqb name k then Some v else assoc_header name rest
  end.

(** A portal with movies: the sentinel category and one real category
    with one page of one movie. *)
Module DemoVod.

Import Demo.

Definition movie : pyval :=
  PDict [("name", PStr "Film"); ("screenshot_uri", PStr "http://img.example.com/1.jpg");
         ("cmd", PStr "ffmpeg http://vod.example.com/1.mp4")].

Definition categories : pyval :=
  js (PList [PDict [("id", PStr "*"); ("title", PStr "All")];
             PDict [("id", PStr "5"); ("title", PStr "Action")]]).

Definition link : reply :=
  ok (js (PDict [("cmd", PStr "ffmpeg http://cdn.example.com/film.mp4?token=abc")])).

Definition portal : world :=
  world_of ["http://example.com:8080/c/"; "00:1a:79:aa:bb:cc"]
           [handshake_ok; account_ok; ok categories;
            ok (js (PDict [("data", PList [movie])]));
            link;
            ok (js (PDict [("data", PList [])]))].

(** The portal as the crawl of the category meets it, with a file that
    cannot be written to. *)
Definition full_disk : world :=
  {| w_input := fun _ => EndOfInput;
     w_reply := fun n => nth n [ok (js (PDict [("data", PList [movie])])); link]
                             NoResponse;
     w_open := fun _ => true;
     w_now := fun _ => "2024-05-01_12-00-00";
     w_urlparse := urlparse;
     w_int := int;
     w_cmd := cmd;
     w_repr := fun _ => "";
     w_write := fun _ => WriteOSError;
     w_timeout := fun _ => false |}.

(** Two categories; the page of the first one comes without [js]. *)
Definition broken : pyval := PDict [("id", PStr "9"); ("title", PStr "Broken")].

Definition action : pyval := PDict [("id", PStr "5"); ("title", PStr "Action")].

Definition after_a_failure : world :=
  world_of []
    [ok (PDict [("error", PStr "busy")]);
     ok (js (PDict [("data", PList [movie])]));
     link;
     ok (js (PDict [("data", PList [])]))].

End DemoVod.

(** [m] only appends to the log, and the events it appends, taken
    together, satisfy [R]. *)
Definition appends {A} (R : list event -> Prop) (m : M A) : Prop :=
  forall st, exists evs, snd (m st) = (st ++ evs)%list /\ R evs.

(** The non-empty link that the stream resolver returned for a
    [create_link] request, if it returned one. *)
Definition resolved_link (e : event) : option string :=
  match e with
  | EGet rq (Responded r) =>
      match rq_site rq, play_link_of r with
      | CreateLink, Ret (Some link) =>
          if link_truthy (Some link) then Some link else None
      | _, _ => None
      end
  | _ => None
  end.

Fixpoint resolved_links (evs : log) : list string :=
  match evs with
  | [] => []
  | e :: rest =>
      match resolved_link e with
      | Some link => link :: resolved_links rest
      | None => resolved_links rest
      end
  end.

(** The URL line and the group title of a playlist entry. *)
Definition chunk_url (c : chunk) : option string :=
  match c with
  | Header => None
  | Entry _ _ _ url => Some url
  | Episode _ _ _ _ _ _ _ url => Some url
  end.

Definition chunk_group (c : chunk) : option pyval :=
  match c with
  | Header => None
  | Entry _ group _ _ => Some group
  | Episode _ _ _ _ _ group _ _ => Some group
  end.

Fixpoint written_urls (evs : log) : list string :=
  match evs with
  | [] => []
  | EWrite c :: rest =>
      match chunk_url c with
      | Some url => url :: written_urls rest
      | None => written_urls rest
      end
  | _ :: rest => written_urls rest
  end.

(** The entries written are those of the links resolved, one for one and
    in the same order, and they all carry the group title [title]. *)
Definition written_as_resolved (title : pyval) (evs : log) : Prop :=
  written_urls evs = resolved_links evs
  /\ Forall (fun c => chunk_group c = Some title) (written evs).

(** The [k] writes to the file that begin when the log has [n] events
    all succeed: nothing but these writes is logged in between. *)
Definition writes_succeed (W : world) (n k : nat) : Prop :=
  forall i, (i < k)%nat -> w_write W (n + i) = Written.

(** [file.write] raised. *)
Definition write_error (e : exn) : Prop := e = OSError \/ e = UnicodeEncodeError.

(** The format [:0Nd] of an episode number raised: the number is not an
    integer. *)
Definition format_error (e : exn) : Prop := e = ValueError \/ e = TypeError.

(** The last link resolved has not been written, because of the
    exception [e], which is of the kind [cause]; the entries before it
    are those of the links resolved before it. *)
Definition one_behind (title : pyval) (cause : exn -> Prop) (e : exn)
           (evs : log) : Prop :=
  (exists link, resolved_links evs = (written_urls evs ++ [link])%list)
  /\ cause e
  /\ Forall (fun c => chunk_group c = Some title) (written evs).

(** [m] only appends to the log, and what it writes is what it
    resolved, except that an exception of the kind [cause] may leave the
    last link resolved unwritten. *)
Definition keeps_up {A} (title : pyval) (cause : exn -> Prop) (m : M A) : Prop :=
  forall st, exists evs,
    snd (m st) = (st ++ evs)%list
    /\ match fst (m st) with
       | Raise e => written_as_resolved title evs \/ one_behind title cause e evs
       | _ => written_as_resolved title evs
       end.

(** A portal with series: one category, one series with one season of
    two episodes; the second episode has no link (status 404). *)
Module DemoShow.

Import Demo.

Definition series : pyval :=
  PDict [("name", PStr "Show"); ("id", PStr "7:7"); ("category_id", PStr "3");
         ("screenshot_uri", PStr "http://img.example.com/7.jpg")].

Definition season : pyval :=
  PDict [("id", PStr "7:1"); ("series", PList [PInt 1; PInt 2])].

Definition category : pyval := PDict [("id", PStr "3"); ("title", PStr "Drama")].

Definition link : reply :=
  ok (js (PDict [("cmd", PStr "ffmpeg http://cdn.example.com/show/s1e1.mkv")])).

Definition replies : list reply :=
  [handshake_ok; account_ok;
   ok (js (PList [PDict [("id", PStr "*"); ("title", PStr "All")]; category]));
   ok (js (PDict [("data", PList [series])]));
   ok (js (PDict [("data", PList [season])]));
   link;
   status 404;
   ok (js (PDict [("data", PList [])]))].

Definition portal : world :=
  world_of ["http://example.com:8080/c/"; "00:1a:79:aa:bb:cc"] replies.

(** The same portal, as the crawl of the category meets it. *)
Definition category_portal : world := world_of [] (skipn 3 replies).

(** A portal whose season lists an episode by a name, not a number. *)
Definition named_episode : world :=
  world_of []
    [ok (js (PDict [("data", PList [series])]));
     ok (js (PDict [("data",
                     PList [PDict [("id", PStr "7:1");
                                   ("series", PList [PStr "pilot"])]])]));
     link;
     ok (js (PDict [("data", PList [])]))].

(** Two categories; the page of the first one comes without [js]. *)
Definition broken : pyval := PDict [("id", PStr "9"); ("title", PStr "Broken")].

Definition after_a_failure : world :=
  world_of [] (ok (PDict [("error", PStr "busy")]) :: skipn 3 replies).

End DemoShow.

(** The page requests of a log, with their replies. *)
Fixpoint page_events (evs : log) : list (Z * reply) :=
  match evs with
  | [] => []
  | EGet rq rp :: rest =>
      match rq_site rq with
      | ItemPage p => (p, rp) :: page_events rest
      | _ => page_events rest
      end
  | _ :: rest => page_events rest
  end.

Definition not_page (e : event) : Prop :=
  match e with
  | EGet rq _ => match rq_site rq with ItemPage _ => False | _ => True end
  | _ => True
  end.

(** The page came with status 200 and a JSON body whose [js.data] is
    true in the sense of [if]: the loop goes on to its items. *)
Definition page_continues (rp : reply) : bool :=
  match rp with
  | NoResponse => false
  | Responded r =>
      (status_code r =? 200)%Z
      && match (data <- json_loads r ;;
                js <- Py.getitem data "js" ;;
                Py.getitem js "data")%res with
         | Ret items => Py.truthy items
         | _ => false
         end
  end.

(** The three ways to end the pages that the specification names: a
    status other than 200, a body that is not JSON, an empty list of
    items. *)
Definition stops_as_specified (rp : reply) : bool :=
  match rp with
  | NoResponse => false
  | Responded r =>
      negb (status_code r =? 200)%Z
      || match parsed r with
         | None => true
         | Some data =>
             match (js <- Py.getitem data "js" ;; Py.getitem js "data")%res with
             | Ret (PList []) => true
             | _ => false
             end
         end
  end.

(** The pages [ps] are [p], [p + 1], ... and a page that does not
    continue is the last one. *)
Fixpoint pages_chain (p : Z) (ps : list (Z * reply)) : Prop :=
  match ps with
  | [] => True
  | (q, rp) :: rest =>
      q = p
      /\ (page_continues rp = false -> rest = [])
      /\ pages_chain (p + 1) rest
  end.

(** The last of the pages [ps] does not continue. *)
Fixpoint ends_with_stop (ps : list (Z * reply)) : Prop :=
  match ps with
  | [] => False
  | (_, rp) :: rest =>
      match rest with
      | [] => page_continues rp = false
      | _ => ends_with_stop rest
      end
  end.

(** The two scripts whose [main] has a handler for [Exception]. *)
Inductive retrying : Type := Vod | Show.

Definition try_block (s : retrying) (W : world) (fuel : nat) : M unit :=
  match s with
  | Vod => MacVod.main_body W fuel
  | Show => MacShow.main_body W fuel
  end.

Definition main_of (s : retrying) (W : world) (depth fuel : nat) : M unit :=
  match s with
  | Vod => MacVod.main W depth fuel
  | Show => MacShow.main W depth fuel
  end.

(** The log after [k] runs of the [try] block, one after the other. *)
Fixpoint after_attempts (body : M unit) (k : nat) (st : log) : log :=
  match k with
  | O => st
  | S k' => after_attempts body k' (snd (body st))
  end.

(** Each of the first [k] runs of the [try] block ends in an exception
    that [except Exception] catches. *)
Fixpoint attempts_fail (body : M unit) (k : nat) (st : log) : Prop :=
  match k with
  | O => True
  | S k' =>
      (exists e, fst (body st) = Raise e /\ is_Exception e = true)
      /\ attempts_fail body k' (snd (body st))
  end.

Definition is_link_prompt (e : event) : bool :=
  match e with
  | EInput prompt => String.eqb prompt "Enter IPTV link: "
  | _ => false
  end.

(** A portal whose first handshake answers without a token, and which
    then stops answering; the user types the link and the MAC address
    twice. *)
Module DemoRetry.

Import Demo.

Definition portal : world :=
  world_of ["http://example.com:8080/c/"; "00:1a:79:aa:bb:cc";
            "http://example.com:8080/c/"; "00:1a:79:aa:bb:cc"]
           [ok (js (PDict [])); NoResponse].

End DemoRetry.

(** A portal whose [create_link] answers 200 with a [js.cmd] of one
    token for the first movie of a page, and with a proper link for the
    second. *)
Module DemoMalformed.

Import Demo.

Definition one_token : reply :=
  ok (js (PDict [("cmd", PStr "http://cdn.example.com/film.mp4")])).

Definition not_json : reply :=
  Responded {| status_code := 200; content_type := "text/html"; parsed := None |}.

Definition second_movie : pyval :=
  PDict [("name", PStr "Sequel"); ("cmd", PStr "ffmpeg http://vod.example.com/2.mp4")].

Definition page : pyval := PList [DemoVod.movie; second_movie].

Definition portal : world := world_of [] [one_token; DemoVod.link].

Definition portal_not_json : world := world_of [] [not_json; DemoVod.link].

End DemoMalformed.

(** The text of a chunk, as [file.write] receives it. *)
Definition render (W : world) (c : chunk) : string :=
  match c with
  | Header => "#EXTM3U" ++ nl
  | Entry logo group name url =>
      "#EXTINF:-1 tvg-logo=" ++ dq ++ py_str W logo ++ dq
        ++ " group-title=" ++ dq ++ py_str W group ++ dq ++ ","
        ++ py_str W name ++ nl ++ url ++ nl
  | Episode series_id season_num episode_num series_title logo group
            formatted_episode_num url =>
      "#EXTINF:-1 tvg-type=" ++ dq ++ "serie" ++ dq
        ++ " tvg-serie=" ++ dq ++ series_id ++ dq
        ++ " tvg-season=" ++ dq ++ season_num ++ dq
        ++ " tvg-episode=" ++ dq ++ py_str W episode_num ++ dq
        ++ " serie-title=" ++ dq ++ py_str W series_title ++ dq
        ++ " tvg-logo=" ++ dq ++ py_str W logo ++ dq
        ++ " group-title=" ++ dq ++ py_str W group ++ dq ++ ","
        ++ py_str W series_title ++ " " ++ formatted_episode_num
        ++ nl ++ url ++ nl
  end.

(** What [get_token] reads in the reply to the handshake. *)
Definition handshake_token (r : response) : result pyval :=
  (data <- json_loads r ;;
   js <- Py.getitem data "js" ;;
   Py.getitem js "token")%res.

(** A request with the bearer token [token]. *)
Definition with_token (W : world) (token : pyval) (e : event) : Prop :=
  match e with
  | EGet rq _ => rq_headers rq = bearer W token
  | _ => False
  end.

(** An event of the crawl: a request without headers or with the bearer
    token [token], or the write of an entry. *)
Definition crawl_event (W : world) (token : pyval) (e : event) : Prop :=
  match e with
  | EGet rq _ => rq_headers rq = [] \/ rq_headers rq = bearer W token
  | EWrite c => chunk_url c <> None
  | _ => False
  end.

(** The playlist part of a run: nothing, a file that could not be opened,
    or a file with the header first and entries after it. *)
Inductive playlist_part (W : world) (token : pyval) : log -> Prop :=
| no_playlist : playlist_part W token []
| playlist_refused (path : string) : playlist_part W token [EOpen path]
| playlist_written (path : string) (crawl : log) :
    Forall (crawl_event W token) crawl ->
    playlist_part W token (EOpen path :: EWrite Header :: crawl).

(** What one run of the [try] block of [main] does after the prompts:
    nothing; the handshake alone; the handshake and the account request
    with the token of the handshake; or these two, the account request
    answered with status 200, followed by the catalog requests with the
    token and by the playlist. *)
Inductive session (W : world) : log -> Prop :=
| session_none : session W []
| session_handshake (hs : request) (rp : reply) :
    rq_site hs = Handshake -> rq_headers hs = [] ->
    session W [EGet hs rp]
| session_account (hs acc : request) (r1 : response) (rp2 : reply) (token : pyval) :
    rq_site hs = Handshake -> rq_headers hs = [] ->
    handshake_token r1 = Ret token -> Py.truthy token = true ->
    rq_site acc = AccountInfo -> rq_headers acc = bearer W token ->
    session W [EGet hs (Responded r1); EGet acc rp2]
| session_catalog (hs acc : request) (r1 r2 : response) (token : pyval)
                  (catalog playlist : log) :
    rq_site hs = Handshake -> rq_headers hs = [] ->
    handshake_token r1 = Ret token -> Py.truthy token = true ->
    rq_site acc = AccountInfo -> rq_headers acc = bearer W token ->
    status_code r2 = 200%Z ->
    Forall (with_token W token) catalog ->
    playlist_part W token playlist ->
    session W (EGet hs (Responded r1) :: EGet acc (Responded r2)
                    :: catalog ++ playlist)%list.

Definition only_input (e : event) : Prop := is_input e = true.

(** [evs] is what one run of the [try] block of [main], in one of the
    three scripts, appends to the log [st]. *)
Definition one_run (W : world) (fuel : nat) (st evs : log) : Prop :=
  snd (MacList.main_body W st) = (st ++ evs)%list
  \/ snd (MacVod.main_body W fuel st) = (st ++ evs)%list
  \/ snd (MacShow.main_body W fuel st) = (st ++ evs)%list.

(** An event that is not a prompt. *)
Definition not_prompt (e : event) : Prop := is_input e = false.

(** The token of the requests of the log [evs].  Each request that has a
    header has [Authorization: Bearer {token}], where [token] is
    [js.token] of the reply to the handshake of the same run of the [try]
    block: the handshake is the first event after the last prompt that
    comes before the request. *)
Definition bearer_of_handshake (W : world) (evs : log) : Prop :=
  forall pre rq rp post,
    evs = (pre ++ EGet rq rp :: post)%list ->
    rq_headers rq <> [] ->
    exists before prompt hs r1 between token,
      pre = (before ++ EInput prompt :: EGet hs (Responded r1) :: between)%list
      /\ Forall not_prompt between
      /\ rq_site hs = Handshake
      /\ handshake_token r1 = Ret token
      /\ rq_headers rq = bearer W token.

(** Every request that [m] sends is in the shape of its place, and the
    token of the requests is the one of the handshake. *)
Definition run_in_shape {A} (W : world) (m : M A) : Prop :=
  forall st, exists evs,
    snd (m st) = (st ++ evs)%list
    /\ (forall rq rp, In (EGet rq rp) evs -> request_shape W rq)
    /\ bearer_of_handshake W evs.

(** An event that is neither a prompt, nor the handshake, nor the account
    request: another request, the opening of the file, a write. *)
Definition after_login (e : event) : Prop :=
  match e with
  | EGet rq _ => rq_site rq <> Handshake /\ rq_site rq <> AccountInfo
  | EOpen _ | EWrite _ => True
  | EInput _ => False
  end.

(** An event that writes nothing. *)
Definition quiet (e : event) : Prop := is_write e = false.

(** [m] only appends to the log, and when it returns, it returns [acc]
    plus the number of chunks it wrote. *)
Definition tallies (acc : Z) (m : M Z) : Prop :=
  forall st, exists evs,
    snd (m st) = (st ++ evs)%list
    /\ forall n, fst (m st) = Ret n
                 -> n = (acc + Z.of_nat (List.length (written evs)))%Z.

(** Every character of [s] satisfies [p]. *)
Fixpoint string_forall (p : ascii -> bool) (s : string) : bool :=
  match s with
  | EmptyString => true
  | String c s' => p c && string_forall p s'
  end.

(** A text of ASCII characters only.  The strings of the model are
    strings of bytes; on a text of this kind [str.upper], the digit class
    of [re] and the file's encoder do what the model does. *)
Definition ascii_char (c : ascii) : bool := (nat_of_ascii c <? 128)%nat.

Definition ascii_only (s : string) : bool := string_forall ascii_char s.

(** The characters of a percent-encoded string: the ones that [quote]
    keeps, and the percent sign. *)
Definition quoted_char (c : ascii) : bool := quote_safe c || Ascii.eqb c "%".

(** [data['js']['cmd']] of the body of a response. *)
Definition link_cmd (r : response) : result pyval :=
  (data <- json_loads r ;;
   js <- Py.getitem data "js" ;;
   Py.getitem js "cmd")%res.

(** The genre [g] does not have the id [k]. *)
Definition other_genre (k : pyval) (g : pyval) : Prop :=
  forall id, Py.getitem g "id" = Ret id -> Py.key_eqb k id = false.

(** The category is the sentinel of the portal, the one with the id
    ["*"]. *)
Definition is_sentinel (cat : pyval) : bool :=
  match Py.getitem cat "id" with
  | Ret id => Py.eq_str id "*"
  | _ => false
  end.

(** What [get_subscription] reads in a reply with status 200. *)
Definition account_fields (r : response) : result pyval :=
  (data <- json_loads r ;;
   js <- Py.getitem data "js" ;;
   _ <- Py.getitem js "mac" ;;
   Py.getitem js "phone")%res.

(** [data['js']] of the body of a response, as a list. *)
Definition js_items (r : response) : result (list pyval) :=
  (data <- json_loads r ;;
   categories <- Py.getitem data "js" ;;
   Py.iter categories)%res.

(** The next reply of the portal has status 200 and a JSON body with
    [js.mac] and [js.phone]. *)
Definition account_passes (W : world) (st : log) : Prop :=
  exists r phone,
    w_reply W (count is_get st) = Responded r
    /\ status_code r = 200%Z
    /\ account_fields r = Ret phone.

(** [m] ends, with a value or an exception, from whatever log it
    starts. *)
Definition halts {A} (m : M A) : Prop := forall st, fst (m st) <> OutOfFuel.

(** What [get_token] makes of the body of a reply: [None] when it is not
    JSON, [js.token] when it is. *)
Definition token_of_body (r : response) : result pyval :=
  match parsed r with
  | None => Ret PNone
  | Some _ => handshake_token r
  end.

(** [data['js']['data']] of the body of a response. *)
Definition js_data (r : response) : result pyval :=
  (data <- json_loads r ;;
   js <- Py.getitem data "js" ;;
   Py.getitem js "data")%res.

(** The base URL that [maclist.py] makes of the host and the port of
    the link. *)
Definition list_base_url (host : option string) (port : option Z) : string :=
  "http://" ++ match host with Some h => h | None => "None" end
            ++ ":" ++ str_of_Z match port with Some p => p | None => 80%Z end.

(** The base URL that [macvod.py] and [macshow.py] make of the host and
    the port of the link: [hostname or ""] and [port or 80]. *)
Definition pool_base_url (host : option string) (port : option Z) : string :=
  "http://" ++ match host with Some h => h | None => "" end
            ++ ":" ++ str_of_Z match port with
                               | Some p => if (p =? 0)%Z then 80%Z else p
                               | None => 80%Z
                               end.

(** An exception that [m] raises is one that [except Exception]
    catches. *)
Definition ordinary {A} (m : M A) : Prop :=
  forall st e, fst (m st) = Raise e -> is_Exception e = true.

(** The crawls of the categories one after the other: each begins on
    the log that the one before left, whether that one returned or
    raised, and a crawl that does not end blocks the ones after it. *)
Fixpoint each_in_turn (crawl : pyval -> M Z) (categories : list pyval) : M unit :=
  match categories with
  | [] => mret tt
  | category :: rest =>
      fun st =>
        match crawl category st with
        | (OutOfFuel, st') => (OutOfFuel, st')
        | (_, st') => each_in_turn crawl rest st'
        end
  end.

(** The category has the key [k]. *)
Definition has_key (k : string) (cat : pyval) : Prop :=
  exists v, Py.getitem cat k = Ret v.

(** A user who presses Ctrl-C at the prompt. *)
Module DemoPrompt.

Definition interrupted : world :=
  {| w_input := fun _ => CtrlC;
     w_reply := fun _ => NoResponse;
     w_open := fun _ => true;
     w_now := fun _ => "2024-05-01_12-00-00";
     w_urlparse := Demo.urlparse;
     w_int := Demo.int;
     w_cmd := Demo.cmd;
     w_repr := fun _ => "";
     w_write := fun _ => Written;
     w_timeout := fun _ => false |}.

End DemoPrompt.

(** The portal does not serve the next request: it does not respond, or
    it responds with a status other than 200. *)
Definition not_served (W : world) (st : log) : Prop :=
  match w_reply W (count is_get st) with
  | NoResponse => True
  | Responded r => status_code r <> 200%Z
  end.

(** The call returned [None] after one request, sent from the log [st]. *)
Definition none_after_one_request (W : world) (st : log)
           (run : result pyval * log) : Prop :=
  fst run = Ret PNone
  /\ exists rq, snd run = (st ++ [EGet rq (w_reply W (count is_get st))])%list.

(** The next request gets no response because it times out. *)
Definition times_out (W : world) (st : log) : bool :=
  match w_reply W (count is_get st) with
  | NoResponse => w_timeout W (count is_get st)
  | Responded _ => false
  end.

(** What a getter of [macshow.py] makes of a request that is not served:
    the [asyncio.TimeoutError] of a request that timed out leaves it,
    and otherwise it returns [None]; one request was sent. *)
Definition none_unless_timeout (W : world) (st : log)
           (run : result pyval * log) : Prop :=
  fst run = (if times_out W st then Raise TimeoutError else Ret PNone)
  /\ exists rq, snd run = (st ++ [EGet rq (w_reply W (count is_get st))])%list.



(* ===================================================================== *)
(** * The library functions on examples *)
(* ===================================================================== *)

Example replace_ffmpeg :
  str_replace "ffmpeg " "" "ffmpeg http://localhost/ch/42_x"
  = "http://localhost/ch/42_x".
Proof. reflexivity. Qed.

Example replace_once_per_occurrence :
  str_replace "ffmpeg " "" "ffmpffmpeg eg x" = "ffmpeg x".
Proof. reflexivity. Qed.

Example re_search_leftmost :
  re_search_ch "http://localhost/ch/12a/ch/34_x/ch/5_" = Some "34".
Proof. reflexivity. Qed.

Example quote_cmd :
  quote "ffmpeg http://a b/c?d=e&f~g_.-"
  = "ffmpeg%20http%3A//a%20b/c%3Fd%3De%26f~g_.-".
Proof. reflexivity. Qed.

Example split_spaces :
  split " " "a  b" = ["a"; ""; "b"] /\ split " " "" = [""].
Proof. split; reflexivity. Qed.

Example str_of_Z_examples :
  str_of_Z 80 = "80" /\ str_of_Z 0 = "0" /\ str_of_Z (-7) = "-7".
Proof. repeat split; reflexivity. Qed.

Example format_0d_examples :
  Py.format_0d 3 (-5) = "-05" /\ Py.format_0d 3 5 = "005"
  /\ Py.format_0d 2 12345 = "12345".
Proof. repeat split; reflexivity. Qed.

(* ===================================================================== *)
(** * Facts about strings *)
(* ===================================================================== *)

Unset Implicit Arguments.

Section StringFacts.

Lemma append_assoc (a b c : string) : (a ++ b) ++ c = a ++ (b ++ c).
Proof. induction a as [|x a IH]; simpl; [reflexivity | now rewrite IH]. Qed.

Lemma append_nil_r (a : string) : a ++ "" = a.
Proof. induction a as [|x a IH]; simpl; [reflexivity | now rewrite IH]. Qed.

Lemma startswith_app (p s : string) : startswith p (p ++ s) = true.
Proof.
  induction p as [|x p IH]; simpl; [reflexivity|].
  now rewrite Ascii.eqb_refl, IH.
Qed.

Lemma startswith_app_l (p a b : string) :
  startswith p a = true -> startswith p (a ++ b) = true.
Proof.
  revert a; induction p as [|x p IH]; intros a H; simpl in *; [reflexivity|].
  destruct a as [|y a]; simpl in *; [discriminate|].
  apply andb_true_iff in H as [H1 H2].
  now rewrite H1, (IH _ H2).
Qed.

Lemma str_in_app_l (p a b : string) :
  str_in p a = true -> str_in p (a ++ b) = true.
Proof.
  induction a as [|x a IH]; simpl; intros H.
  - rewrite orb_false_r in H. destruct p; [|discriminate].
    destruct b; reflexivity.
  - apply orb_true_iff in H as [H|H].
    + change (String x (a ++ b)) with (String x a ++ b).
      now rewrite (startswith_app_l _ _ _ H).
    + rewrite (IH H). apply orb_true_r.
Qed.

Lemma str_in_app_r (p a b : string) :
  str_in p b = true -> str_in p (a ++ b) = true.
Proof.
  intros H. induction a as [|x a IH]; simpl; [assumption|].
  rewrite IH. apply orb_true_r.
Qed.

(** ** The digits of [str_of_Z] *)

Lemma no_char_app (c : ascii) (a b : string) :
  no_char c (a ++ b) = no_char c a && no_char c b.
Proof.
  induction a as [|x a IH]; simpl; [reflexivity|].
  now rewrite IH, andb_assoc.
Qed.

Lemma uint_no_slash (d : Decimal.uint) :
  no_char "/" (NilEmpty.string_of_uint d) = true.
Proof. induction d; simpl; auto. Qed.

Lemma str_of_Z_no_slash (z : Z) : no_char "/" (str_of_Z z) = true.
Proof.
  unfold str_of_Z, NilZero.string_of_int, NilZero.string_of_uint.
  destruct (Z.to_int z) as [d|d]; destruct d; simpl;
    try reflexivity; apply uint_no_slash.
Qed.

Lemma digit_not_slash (c : ascii) : is_digit c = true -> Ascii.eqb c "/" = false.
Proof.
  unfold is_digit. intros H. destruct (Ascii.eqb_spec c "/") as [->|]; [|reflexivity].
  discriminate H.
Qed.

Lemma all_digits_no_slash (s : string) :
  all_digits s = true -> no_char "/" s = true.
Proof.
  induction s as [|c s IH]; simpl; [reflexivity|].
  intros H. apply andb_true_iff in H as [H1 H2].
  now rewrite (digit_not_slash _ H1), (IH H2).
Qed.

(** ** Upper case *)

Lemma upper_char_not_c (c : ascii) : Ascii.eqb (upper_char c) "c" = false.
Proof.
  destruct c as [[] [] [] [] [] [] [] []]; vm_compute; reflexivity.
Qed.

Lemma upper_no_c (s : string) : no_char "c" (upper s) = true.
Proof.
  induction s as [|c s IH]; simpl; [reflexivity|].
  now rewrite upper_char_not_c, IH.
Qed.

(** ** The regular expression *)

Lemma span_digits_spec (s a b : string) :
  span_digits s = (a, b) -> s = a ++ b /\ all_digits a = true.
Proof.
  revert a b; induction s as [|c s IH]; simpl; intros a b H.
  - injection H as <- <-. now split.
  - destruct (is_digit c) eqn:Hc.
    + destruct (span_digits s) as [ds rest] eqn:Hs.
      injection H as <- <-. destruct (IH _ _ eq_refl) as [-> Hd].
      simpl. now rewrite Hc, Hd.
    + injection H as <- <-. now split.
Qed.

Lemma span_digits_run (ds post : string) :
  all_digits ds = true ->
  span_digits (ds ++ String "_" post) = (ds, String "_" post).
Proof.
  induction ds as [|c ds IH]; simpl; intros H; [reflexivity|].
  apply andb_true_iff in H as [H1 H2].
  now rewrite H1, (IH H2).
Qed.

(** An anchored match reads [/ch/], a non-empty run of digits and [_]. *)
Lemma match_ch_at_sound (s id : string) :
  match_ch_at s = Some id ->
  exists post, s = "/ch/" ++ id ++ "_" ++ post
               /\ all_digits id = true /\ id <> "".
Proof.
  unfold match_ch_at.
  destruct s as [|c1 [|c2 [|c3 [|c4 t]]]]; try discriminate.
  destruct (Ascii.eqb_spec c1 "/") as [->|]; [|discriminate].
  destruct (Ascii.eqb_spec c2 "c") as [->|]; [|discriminate].
  destruct (Ascii.eqb_spec c3 "h") as [->|]; [|discriminate].
  destruct (Ascii.eqb_spec c4 "/") as [->|]; [|discriminate].
  simpl. destruct (span_digits t) as [ds rest] eqn:Hs.
  destruct ds as [|d ds]; [discriminate|].
  destruct rest as [|u rest]; [discriminate|].
  destruct (Ascii.eqb_spec u "_") as [->|]; [|discriminate].
  intros [= <-]. apply span_digits_spec in Hs as [-> Hd].
  exists rest. repeat split; [assumption | discriminate].
Qed.

Lemma match_ch_at_complete (ds post : string) :
  all_digits ds = true -> ds <> "" ->
  match_ch_at ("/ch/" ++ ds ++ "_" ++ post) = Some ds.
Proof.
  intros Hd Hne. simpl. rewrite (span_digits_run _ _ Hd).
  destruct ds; [contradiction | reflexivity].
Qed.

Lemma re_search_ch_cons (c : ascii) (s : string) :
  re_search_ch (String c s)
  = match match_ch_at (String c s) with
    | Some ds => Some ds
    | None => re_search_ch s
    end.
Proof. reflexivity. Qed.

(** What [re.search] returns is a non-empty run of digits that stands
    between [/ch/] and [_] in the string. *)
Lemma re_search_ch_sound (s id : string) :
  re_search_ch s = Some id ->
  exists pre post, s = pre ++ "/ch/" ++ id ++ "_" ++ post
                   /\ all_digits id = true /\ id <> "".
Proof.
  induction s as [|c s IH]; intros H.
  - discriminate H.
  - rewrite re_search_ch_cons in H.
    destruct (match_ch_at (String c s)) as [d|] eqn:Hm.
    + injection H as ->. apply match_ch_at_sound in Hm as (post & E & Hd & Hne).
      exists "", post. now rewrite E.
    + destruct (IH H) as (pre & post & E & Hd & Hne).
      exists (String c pre), post. simpl. now rewrite E.
Qed.

(** [re.search] finds a match whenever there is one. *)
Lemma re_search_ch_complete (pre ds post : string) :
  all_digits ds = true -> ds <> "" ->
  exists id, re_search_ch (pre ++ "/ch/" ++ ds ++ "_" ++ post) = Some id.
Proof.
  intros Hd Hne. induction pre as [|c pre IH].
  - exists ds. change ("" ++ ?x) with x.
    pose proof (match_ch_at_complete ds post Hd Hne) as Hm.
    simpl in Hm |- *. now rewrite Hm.
  - change (String c pre ++ ?x) with (String c (pre ++ x)).
    rewrite re_search_ch_cons.
    destruct (match_ch_at _) as [d|]; [now exists d | exact IH].
Qed.

Lemma match_ch_at_head (c : ascii) (s : string) :
  Ascii.eqb c "/" = false -> match_ch_at (String c s) = None.
Proof.
  intros H. unfold match_ch_at.
  destruct s as [|c2 [|c3 [|c4 t]]]; try reflexivity.
  now rewrite H.
Qed.

(** A stretch without [/] holds no start of a match. *)
Lemma re_search_ch_skip (a b : string) :
  no_char "/" a = true -> re_search_ch (a ++ b) = re_search_ch b.
Proof.
  induction a as [|c a IH]; simpl app; intros H; [reflexivity|].
  simpl in H. apply andb_true_iff in H as [H1 H2].
  apply negb_true_iff in H1.
  change (String c a ++ b) with (String c (a ++ b)).
  rewrite re_search_ch_cons, (match_ch_at_head _ _ H1). auto.
Qed.

Lemma match_ch_at_second (c1 c2 : ascii) (s : string) :
  Ascii.eqb c2 "c" = false -> match_ch_at (String c1 (String c2 s)) = None.
Proof.
  intros H. unfold match_ch_at.
  destruct s as [|c3 [|c4 t]]; try reflexivity.
  now rewrite H, andb_false_r.
Qed.

(** A stretch without [c], followed by something that does not begin
    with [c], holds no start of a match either. *)
Lemma re_search_ch_skip_c (a b : string) :
  no_char "c" a = true -> startswith "c" b = false ->
  re_search_ch (a ++ b) = re_search_ch b.
Proof.
  intros Ha Hb. induction a as [|c a IH]; [reflexivity|].
  simpl in Ha. apply andb_true_iff in Ha as [H1 H2].
  change (String c a ++ b) with (String c (a ++ b)).
  rewrite re_search_ch_cons.
  replace (match_ch_at (String c (a ++ b))) with (@None string); [auto|].
  symmetry. destruct a as [|c2 a].
  - simpl. destruct b as [|c2 b]; [reflexivity|].
    apply match_ch_at_second. simpl in Hb.
    destruct (Ascii.eqb_spec "c" c2) as [<-|Hn]; [discriminate|].
    destruct (Ascii.eqb_spec c2 "c"); [congruence | reflexivity].
  - simpl in H2. apply andb_true_iff in H2 as [H2 _].
    apply negb_true_iff in H2.
    change (String c (String c2 a ++ b)) with (String c (String c2 (a ++ b))).
    now apply match_ch_at_second.
Qed.

(** The host of a base URL: after [//] comes a name without [/], then [:]. *)
Lemma match_ch_at_host (h z : string) :
  no_char "/" h = true -> match_ch_at (String "/" (h ++ String ":" z)) = None.
Proof.
  intros H.
  destruct (match_ch_at (String "/" (h ++ String ":" z))) as [d|] eqn:E;
    [|reflexivity].
  apply match_ch_at_sound in E as (post & E & _ & _). exfalso.
  simpl in E. injection E as E.
  destruct h as [|c2 [|c3 [|c4 h]]]; simpl in E, H; try discriminate E.
  injection E as -> -> -> _. discriminate H.
Qed.

End StringFacts.


(* ===================================================================== *)
(** * The channel crawler *)
(* ===================================================================== *)

Section ChannelFacts.

Lemma rewrite_local_match (base_url mac cmd_url id : string) :
  str_in "localhost" cmd_url = true ->
  re_search_ch cmd_url = Some id ->
  MacList.rewrite_local base_url mac cmd_url
  = base_url ++ "/play/live.php?mac=" ++ mac ++ "&stream=" ++ id ++ "&extension=ts".
Proof. intros H1 H2. unfold MacList.rewrite_local. now rewrite H1, H2. Qed.

Lemma rewrite_local_no_match (base_url mac cmd_url : string) :
  re_search_ch cmd_url = None ->
  MacList.rewrite_local base_url mac cmd_url = cmd_url.
Proof.
  intros H. unfold MacList.rewrite_local. rewrite H.
  now destruct (str_in "localhost" cmd_url).
Qed.

(** The URL that the rewrite builds holds no [/ch/<digits>_] when the
    host has no [/], the MAC address is in upper case and the stream id
    is a run of digits. *)
Lemma rewritten_has_no_match (host mac_typed id : string) (port : Z) :
  no_char "/" host = true -> all_digits id = true ->
  re_search_ch (("http://" ++ host ++ ":" ++ str_of_Z port)
                ++ "/play/live.php?mac=" ++ upper mac_typed ++ "&stream=" ++ id
                ++ "&extension=ts") = None.
Proof.
  intros Hh Hid. rewrite append_assoc.
  change ("http://" ++ ?x) with ("http:" ++ String "/" (String "/" x)).
  rewrite re_search_ch_skip by reflexivity.
  rewrite re_search_ch_cons, match_ch_at_second by reflexivity.
  rewrite !append_assoc.
  change (":" ++ ?x) with (String ":" x).
  rewrite re_search_ch_cons, match_ch_at_host by assumption.
  rewrite re_search_ch_skip by assumption.
  change (String ":" ?x) with (":" ++ x).
  rewrite re_search_ch_skip by reflexivity.
  rewrite re_search_ch_skip by apply str_of_Z_no_slash.
  change ("/play/live.php?mac=" ++ ?x)
    with (String "/" (String "p" ("lay" ++ String "/" (String "l" ("ive.php?mac=" ++ x))))).
  rewrite re_search_ch_cons, match_ch_at_second by reflexivity.
  change (String "p" ("lay" ++ ?x)) with ("play" ++ x).
  rewrite re_search_ch_skip by reflexivity.
  rewrite re_search_ch_cons, match_ch_at_second by reflexivity.
  change (String "l" ("ive.php?mac=" ++ ?x)) with ("live.php?mac=" ++ x).
  rewrite re_search_ch_skip by reflexivity.
  rewrite re_search_ch_skip_c by (apply upper_no_c || reflexivity).
  rewrite re_search_ch_skip by reflexivity.
  rewrite re_search_ch_skip by now apply all_digits_no_slash.
  reflexivity.
Qed.

Lemma get_base_url_shape (W : world) (st st' : log) (base_url : string) :
  MacList.get_base_url W st = (Ret base_url, st') ->
  exists typed_link host port,
    w_urlparse W typed_link = Ret (host, port)
    /\ base_url = "http://" ++ match host with Some h => h | None => "None" end
                            ++ ":" ++ str_of_Z match port with Some p => p | None => 80%Z end.
Proof.
  unfold MacList.get_base_url, mbind, input_colored, lift, mret.
  destruct (w_input W (count is_input st)) as [s| |]; try discriminate.
  destruct (w_urlparse W s) as [[host port]| |] eqn:E; try discriminate.
  intros [= <- _]. now exists s, host, port.
Qed.

Lemma get_mac_address_shape (W : world) (st st' : log) (mac : string) :
  MacList.get_mac_address W st = (Ret mac, st') ->
  exists typed_mac, mac = upper typed_mac.
Proof.
  unfold MacList.get_mac_address, mbind, input_colored, mret.
  destruct (w_input W (count is_input st)) as [s| |]; try discriminate.
  intros [= <- _]. now exists s.
Qed.

End ChannelFacts.

(** C5.  A channel whose command URL, once the prefix [ffmpeg ] is
    stripped, contains [localhost] and a segment [/ch/<digits>_] is
    written with the URL
    [{base_url}/play/live.php?mac={mac}&stream={id}&extension=ts], where
    [id] is the run of digits that [re.search] extracts from such a segment.
    The command URL is taken to be written in ASCII characters, among
    which the digits of [re] are [0] to [9], as [is_digit] has them.
    In particular the channel of scenario A, with the command URL
    [ffmpeg http://localhost/ch/42_x] and a genre titled [News], is written
    with stream 42 and the group title [News]. *)
Theorem C5_localhost_rewrite
  (base_url mac : string) (group_info : Py.pydict)
  (channel group_id name : pyval) (raw pre ds post : string) :
  Py.getitem channel "tv_genre_id" = Ret group_id ->
  Py.hashable group_id = true ->
  Py.getitem channel "name" = Ret name ->
  (cmds <- Py.getitem channel "cmds" ;;
   cmd0 <- Py.getindex cmds 0 ;;
   Py.getitem cmd0 "url")%res = Ret (PStr raw) ->
  ascii_only raw = true ->
  str_in "localhost" (str_replace "ffmpeg " "" raw) = true ->
  str_replace "ffmpeg " "" raw = pre ++ "/ch/" ++ ds ++ "_" ++ post ->
  all_digits ds = true -> ds <> "" ->
  (exists logo group_name id pre' post',
      str_replace "ffmpeg " "" raw = pre' ++ "/ch/" ++ id ++ "_" ++ post'
      /\ all_digits id = true /\ id <> ""
      /\ re_search_ch (str_replace "ffmpeg " "" raw) = Some id
      /\ Py.dict_get group_info group_id (PStr "General") = Ret group_name
      /\ MacList.channel_record base_url mac group_info channel
         = Ret (Entry logo group_name name
                      (base_url ++ "/play/live.php?mac=" ++ mac ++ "&stream="
                                ++ id ++ "&extension=ts")))
  /\ (forall base MAC : string,
         MacList.channel_record ("http://" ++ base) MAC Demo.genres_A Demo.channel_A
         = Ret (Entry (PStr "") (PStr "News") (PStr "Ch1")
                      ("http://" ++ base ++ "/play/live.php?mac=" ++ MAC
                                 ++ "&stream=42&extension=ts"))).
Proof.
  intros Hg Hh Hn Hu _ Hl Hs Hd Hne. split.
  - rewrite Hs in Hl.
    destruct (re_search_ch_complete pre ds post Hd Hne) as [id Hid].
    destruct (re_search_ch_sound _ _ Hid) as (pre' & post' & E & Hd' & Hne').
    rewrite <- Hs in Hid, E, Hl.
    destruct channel as [| | | | |d]; try discriminate Hg.
    assert (Hget : Py.dict_get group_info group_id (PStr "General")
                   = Ret match Py.dict_lookup group_info group_id with
                         | Some v => v
                         | None => PStr "General"
                         end)
      by (unfold Py.dict_get; now rewrite Hh).
    unfold MacList.channel_record.
    rewrite Hg. cbn [rbind]. rewrite Hget, Hn. cbn [rbind Py.get_default].
    destruct (Py.getitem (PDict d) "cmds") as [cmds| |]; try discriminate Hu.
    cbn [rbind] in Hu |- *.
    destruct (Py.getindex cmds 0) as [cmd0| |]; try discriminate Hu.
    cbn [rbind] in Hu |- *. rewrite Hu. cbn [rbind Py.replace].
    rewrite (rewrite_local_match base_url mac _ id Hl Hid).
    eexists _, _, id, pre', post'. repeat split; assumption || reflexivity.
  - intros base MAC. reflexivity.
Qed.

Lemma C5_witness :
  exists logo group_name id pre' post',
    "http://localhost/ch/42_x" = pre' ++ "/ch/" ++ id ++ "_" ++ post'
    /\ all_digits id = true /\ id <> ""
    /\ re_search_ch "http://localhost/ch/42_x" = Some id
    /\ Py.dict_get Demo.genres_A (PStr "1") (PStr "General") = Ret group_name
    /\ MacList.channel_record "http://example.com:8080" "00:1A:79:AA:BB:CC"
                              Demo.genres_A Demo.channel_A
       = Ret (Entry logo group_name (PStr "Ch1")
                    ("http://example.com:8080" ++ "/play/live.php?mac="
                       ++ "00:1A:79:AA:BB:CC" ++ "&stream=" ++ id ++ "&extension=ts")).
Proof.
  apply (C5_localhost_rewrite "http://example.com:8080" "00:1A:79:AA:BB:CC"
           Demo.genres_A Demo.channel_A (PStr "1") (PStr "Ch1")
           "ffmpeg http://localhost/ch/42_x" "http://localhost" "42" "x");
    try reflexivity; discriminate.
Defined.

(** C6.  The rewrite of lines 191-195 is idempotent on every URL, for the
    base URL and the MAC address that the script works with: the base URL
    that [get_base_url] derives (the host that [urlparse] returns holds no
    [/]) and the MAC address that [get_mac_address] returns. *)
Theorem C6_rewrite_idempotent
  (W : world) (st st1 st2 : log) (base_url mac url : string) :
  (forall s h p, w_urlparse W s = Ret (Some h, p) -> no_char "/" h = true) ->
  MacList.get_base_url W st = (Ret base_url, st1) ->
  MacList.get_mac_address W st1 = (Ret mac, st2) ->
  MacList.rewrite_local base_url mac (MacList.rewrite_local base_url mac url)
  = MacList.rewrite_local base_url mac url.
Proof.
  intros Hlib Hb Hm.
  apply get_base_url_shape in Hb as (s & host & port & Hp & ->).
  apply get_mac_address_shape in Hm as (m & ->).
  destruct (re_search_ch url) as [id|] eqn:Hid.
  - destruct (str_in "localhost" url) eqn:Hl.
    + rewrite (rewrite_local_match _ _ _ _ Hl Hid).
      apply re_search_ch_sound in Hid as (_ & _ & _ & Hd & _).
      apply rewrite_local_no_match, rewritten_has_no_match; [|assumption].
      destruct host as [h|]; [exact (Hlib _ _ _ Hp) | reflexivity].
    + assert (E : forall b m, MacList.rewrite_local b m url = url)
        by (intros; unfold MacList.rewrite_local; now rewrite Hl).
      now rewrite !E.
  - rewrite (rewrite_local_no_match _ _ _ Hid).
    now apply rewrite_local_no_match.
Qed.

Lemma C6_witness :
  MacList.rewrite_local "http://localhost:8080" "00:1A:79:AA:BB:CC"
    (MacList.rewrite_local "http://localhost:8080" "00:1A:79:AA:BB:CC"
       "http://localhost/ch/42_x")
  = MacList.rewrite_local "http://localhost:8080" "00:1A:79:AA:BB:CC"
      "http://localhost/ch/42_x".
Proof.
  apply (C6_rewrite_idempotent
           (Demo.world_of ["http://localhost:8080/c/"; "00:1a:79:aa:bb:cc"] [])
           [] [EInput "Enter IPTV link: "]
           [EInput "Enter IPTV link: "; EInput "Input Mac address: "]).
  - intros s h p. cbn. unfold Demo.urlparse.
    repeat match goal with |- context [String.eqb ?a ?b] => destruct (String.eqb a b) end;
      intros [= <- _]; reflexivity.
  - reflexivity.
  - reflexivity.
Defined.


(* ===================================================================== *)
(** * What a computation appends to the log *)
(* ===================================================================== *)

Section Adds.

Context {A B : Type} (P : event -> Prop).

Lemma adds_mret (a : A) : adds P (mret a).
Proof. intros st. exists []. now rewrite app_nil_r. Qed.

Lemma adds_lift (r : result A) : adds P (lift r).
Proof. intros st. exists []. now rewrite app_nil_r. Qed.

Lemma adds_raise (e : exn) : adds P (@raise A e).
Proof. intros st. exists []. now rewrite app_nil_r. Qed.

Lemma adds_mbind (m : M A) (f : A -> M B) :
  adds P m -> (forall a, adds P (f a)) -> adds P (mbind m f).
Proof.
  intros Hm Hf st. unfold mbind.
  destruct (Hm st) as (evs & E & HP).
  destruct (m st) as [[a|e|] st1]; simpl in E; subst st1;
    try (now exists evs).
  destruct (Hf a (st ++ evs)%list) as (evs' & E' & HP').
  exists (evs ++ evs')%list. rewrite E', app_assoc. split; [reflexivity|].
  now apply Forall_app.
Qed.

Lemma adds_try_except (m : M A) (classes : exn -> bool) (h : exn -> M A) :
  adds P m -> (forall e, adds P (h e)) -> adds P (try_except m classes h).
Proof.
  intros Hm Hh st. unfold try_except.
  destruct (Hm st) as (evs & E & HP).
  destruct (m st) as [[a|e|] st1]; simpl in E; subst st1;
    try (now exists evs).
  destruct (classes e); [|now exists evs].
  destruct (Hh e (st ++ evs)%list) as (evs' & E' & HP').
  exists (evs ++ evs')%list. rewrite E', app_assoc. split; [reflexivity|].
  now apply Forall_app.
Qed.

Lemma adds_submit (m : M A) : adds P m -> adds P (submit m).
Proof.
  intros Hm st. unfold submit.
  destruct (Hm st) as (evs & E & HP).
  destruct (m st) as [[a|e|] st1]; simpl in E; subst st1; now exists evs.
Qed.

Lemma adds_weaken (Q : event -> Prop) (m : M A) :
  (forall e, Q e -> P e) -> adds Q m -> adds P m.
Proof.
  intros HQ Hm st. destruct (Hm st) as (evs & E & H).
  exists evs. split; [assumption|]. eapply Forall_impl; eassumption.
Qed.

End Adds.

Lemma adds_for_fold {A S : Type} (P : event -> Prop) (xs : list A)
      (body : S -> A -> M S) :
  (forall acc x, adds P (body acc x)) -> forall acc, adds P (for_fold xs acc body).
Proof.
  intros Hb. induction xs as [|x xs IH]; intros acc; simpl.
  - apply adds_mret.
  - apply adds_mbind; [apply Hb | intros; apply IH].
Qed.

Section AddsPrimitives.

Variables (W : world) (P : event -> Prop).

Lemma adds_input_colored (prompt : string) :
  P (EInput prompt) -> adds P (input_colored W prompt).
Proof.
  intros H st. exists [EInput prompt]. unfold input_colored.
  split; [now destruct (w_input W _) | now constructor].
Qed.

Lemma adds_http_get (site : callsite) (url : string)
      (headers : list (string * string)) :
  (forall rp, P (EGet {| rq_site := site; rq_url := url; rq_headers := headers |} rp)) ->
  adds P (http_get W site url headers).
Proof.
  intros H st.
  exists [EGet {| rq_site := site; rq_url := url; rq_headers := headers |}
               (w_reply W (count is_get st))].
  unfold http_get.
  split; [now destruct (w_reply W _) | now constructor].
Qed.

Lemma adds_now : adds P (now W).
Proof. intros st. exists []. now rewrite app_nil_r. Qed.

Lemma adds_open_write (path : string) :
  P (EOpen path) -> adds P (open_write W path).
Proof.
  intros H st. exists [EOpen path]. unfold open_write.
  split; [now destruct (w_open W _) | now constructor].
Qed.

Lemma adds_aio_get (site : callsite) (url : string)
      (headers : list (string * string)) :
  (forall rp, P (EGet {| rq_site := site; rq_url := url; rq_headers := headers |} rp)) ->
  adds P (aio_get W site url headers).
Proof.
  intros H st.
  exists [EGet {| rq_site := site; rq_url := url; rq_headers := headers |}
               (w_reply W (count is_get st))].
  unfold aio_get.
  split; [now destruct (w_reply W _) | now constructor].
Qed.

Lemma adds_file_write (c : chunk) : P (EWrite c) -> adds P (file_write W c).
Proof.
  intros H st. unfold file_write.
  destruct (w_write W (List.length st));
    [ exists [EWrite c]; split; [reflexivity | now constructor]
    | exists []; split; [now rewrite app_nil_r | constructor] .. ].
Qed.

End AddsPrimitives.

(** The structure of a script, step by step. *)
Ltac adds_step :=
  lazymatch goal with
  | |- adds _ (mbind _ _) => apply adds_mbind; [|intros]
  | |- adds _ (mret _) => apply adds_mret
  | |- adds _ (lift _) => apply adds_lift
  | |- adds _ (raise _) => apply adds_raise
  | |- adds _ (try_except _ _ _) => apply adds_try_except; [|intros]
  | |- adds _ (submit _) => apply adds_submit
  | |- adds _ (for_fold _ _ _) => apply adds_for_fold; intros
  | |- adds _ (now _) => apply adds_now
  | |- adds _ (input_colored _ _) => apply adds_input_colored
  | |- adds _ (open_write _ _) => apply adds_open_write
  | |- adds _ (file_write _ _) => apply adds_file_write
  | |- adds _ (http_get _ _ _ _) => apply adds_http_get; intros
  | |- adds _ (aio_get _ _ _ _) => apply adds_aio_get; intros
  | |- adds _ (if ?c then _ else _) => destruct c
  | |- adds _ (match ?x with _ => _ end) => destruct x
  | |- adds _ (let _ := _ in _) => cbv zeta
  end.

Ltac marker_in_url :=
  unfold marker;
  repeat first [ reflexivity
               | apply str_in_app_l; reflexivity
               | apply str_in_app_r ].

(** A request with the marker, sent to the base URL with the given
    headers. *)
Ltac well_sent_get :=
  split; [ apply startswith_app
         | cbn; first [ reflexivity
                      | split; [marker_in_url | first [reflexivity | eauto]] ] ].

Create HintDb adds.

Ltac adds_auto :=
  repeat first [ solve [auto 1 with adds nocore] | adds_step ];
  try exact I;
  try (split; exact I);
  try well_sent_get.

(* ===================================================================== *)
(** * The requests of the three scripts *)
(* ===================================================================== *)

Section ListRequests.

Variables (W : world) (base_url : string).

Let P := well_sent W base_url.

Lemma list_get_mac_address_adds : adds P (MacList.get_mac_address W).
Proof. unfold MacList.get_mac_address. adds_auto. Qed.

Lemma list_get_token_adds : adds P (MacList.get_token W base_url).
Proof. unfold MacList.get_token. adds_auto. Qed.

Lemma list_get_subscription_adds (token : pyval) :
  adds P (MacList.get_subscription W base_url token).
Proof. unfold MacList.get_subscription. adds_auto. Qed.

Lemma list_get_channel_list_adds (token : pyval) :
  adds P (MacList.get_channel_list W base_url (bearer W token)).
Proof. unfold MacList.get_channel_list. adds_auto. Qed.

Lemma list_save_channel_list_adds (current : string) (channels_data : pyval)
      (group_info : Py.pydict) (mac : string) :
  adds P (MacList.save_channel_list W base_url current channels_data group_info mac).
Proof. unfold MacList.save_channel_list. adds_auto. Qed.

End ListRequests.

#[global] Hint Resolve list_get_mac_address_adds list_get_token_adds
  list_get_subscription_adds list_get_channel_list_adds
  list_save_channel_list_adds : adds.


Section VodRequests.

Variables (W : world) (base_url : string).

Let P := well_sent W base_url.

Lemma vod_get_mac_address_adds : adds P (MacVod.get_mac_address W).
Proof. unfold MacVod.get_mac_address. adds_auto. Qed.

Lemma vod_get_token_adds : adds P (MacVod.get_token W base_url).
Proof. unfold MacVod.get_token. adds_auto. Qed.

Lemma vod_get_subscription_adds (token : pyval) :
  adds P (MacVod.get_subscription W base_url token).
Proof. unfold MacVod.get_subscription. adds_auto. Qed.

Lemma vod_get_vod_categories_adds (token : pyval) :
  adds P (MacVod.get_vod_categories W base_url (bearer W token)).
Proof. unfold MacVod.get_vod_categories. adds_auto. Qed.

Lemma vod_get_vod_list_adds (token category_id : pyval) (page : Z) :
  adds P (MacVod.get_vod_list W base_url (bearer W token) category_id page).
Proof. unfold MacVod.get_vod_list. adds_auto. Qed.

Lemma vod_fetch_play_link_adds (cmd : pyval) :
  adds P (MacVod.fetch_play_link W base_url cmd).
Proof. unfold MacVod.fetch_play_link. adds_auto. Qed.

Hint Resolve vod_fetch_play_link_adds vod_get_vod_list_adds : adds.

Lemma vod_save_vod_list_adds (vod_data category_title : pyval) :
  adds P (MacVod.save_vod_list W vod_data base_url category_title).
Proof. unfold MacVod.save_vod_list. adds_auto. Qed.

Hint Resolve vod_save_vod_list_adds : adds.

Lemma vod_pages_adds (fuel : nat) (token category_id category_title : pyval)
      (page total_count : Z) :
  adds P (MacVod.vod_pages W fuel base_url (bearer W token) category_id
                           category_title page total_count).
Proof.
  revert page total_count. induction fuel as [|fuel IH]; intros; simpl.
  - apply adds_lift.
  - adds_auto.
Qed.

Hint Resolve vod_pages_adds : adds.

Lemma vod_fetch_and_save_vods_adds (fuel : nat) (token category : pyval) :
  adds P (MacVod.fetch_and_save_vods W fuel base_url (bearer W token) category).
Proof. unfold MacVod.fetch_and_save_vods. adds_auto. Qed.

Hint Resolve vod_fetch_and_save_vods_adds : adds.

Lemma vod_submit_all_adds (fuel : nat) (token : pyval) (categories : list pyval) :
  adds P (MacVod.submit_all W fuel base_url (bearer W token) categories).
Proof.
  induction categories as [|category rest IH]; simpl; adds_auto.
Qed.

Lemma vod_report_adds (futures : list (result Z * pyval)) :
  adds P (MacVod.report futures).
Proof. unfold MacVod.report. adds_auto. Qed.

End VodRequests.

#[global] Hint Resolve vod_get_mac_address_adds vod_get_token_adds
  vod_get_subscription_adds vod_get_vod_categories_adds vod_get_vod_list_adds
  vod_fetch_play_link_adds vod_save_vod_list_adds vod_pages_adds
  vod_fetch_and_save_vods_adds vod_submit_all_adds vod_report_adds : adds.

Section ShowRequests.

Variables (W : world) (base_url : string).

Let P := well_sent W base_url.

Lemma show_get_mac_address_adds : adds P (MacShow.get_mac_address W).
Proof. unfold MacShow.get_mac_address. adds_auto. Qed.

Lemma show_get_token_adds : adds P (MacShow.get_token W base_url).
Proof. unfold MacShow.get_token. adds_auto. Qed.

Lemma show_get_subscription_adds (token : pyval) :
  adds P (MacShow.get_subscription W base_url token).
Proof. unfold MacShow.get_subscription. adds_auto. Qed.

Lemma show_get_series_categories_adds (token : pyval) :
  adds P (MacShow.get_series_categories W base_url (bearer W token)).
Proof. unfold MacShow.get_series_categories. adds_auto. Qed.

Lemma show_get_series_list_adds (token category_id : pyval) (page : Z) :
  adds P (MacShow.get_series_list W base_url (bearer W token) category_id page).
Proof. unfold MacShow.get_series_list. adds_auto. Qed.

Lemma show_get_seasons_episodes_adds (token : pyval) (series_id : string)
      (category_id : pyval) :
  adds P (MacShow.get_seasons_episodes W base_url (bearer W token) series_id
                                       category_id).
Proof. unfold MacShow.get_seasons_episodes. adds_auto. Qed.

Lemma show_fetch_play_link_adds (cmd : string) (episode_num : pyval) :
  adds P (MacShow.fetch_play_link W base_url cmd episode_num).
Proof. unfold MacShow.fetch_play_link. adds_auto. Qed.

Hint Resolve show_fetch_play_link_adds show_get_seasons_episodes_adds
  show_get_series_list_adds : adds.

Lemma show_save_episodes_adds (series series_title : pyval)
      (series_id season_num : string) (total_episodes : Z)
      (category_title : pyval) (episodes : list pyval) (total_count : Z) :
  adds P (MacShow.save_episodes W base_url series series_title series_id
                                season_num total_episodes category_title
                                episodes total_count).
Proof. unfold MacShow.save_episodes. adds_auto. Qed.

Hint Resolve show_save_episodes_adds : adds.

Lemma show_save_seasons_adds (series series_title : pyval) (series_id : string)
      (category_title : pyval) (seasons : list pyval) (total_count : Z) :
  adds P (MacShow.save_seasons W base_url series series_title series_id
                               category_title seasons total_count).
Proof. unfold MacShow.save_seasons. adds_auto. Qed.

Hint Resolve show_save_seasons_adds : adds.

Lemma show_save_series_data_adds (token series_data category_title : pyval) :
  adds P (MacShow.save_series_data W series_data base_url (bearer W token)
                                   category_title).
Proof. unfold MacShow.save_series_data. adds_auto. Qed.

Hint Resolve show_save_series_data_adds : adds.

Lemma show_series_pages_adds (fuel : nat) (token category_id category_title : pyval)
      (page total_count : Z) :
  adds P (MacShow.series_pages W fuel base_url (bearer W token) category_id
                               category_title page total_count).
Proof.
  revert page total_count. induction fuel as [|fuel IH]; intros; simpl.
  - apply adds_lift.
  - adds_auto.
Qed.

Hint Resolve show_series_pages_adds : adds.

Lemma show_fetch_and_save_series_adds (fuel : nat) (token category : pyval) :
  adds P (MacShow.fetch_and_save_series W fuel base_url (bearer W token) category).
Proof. unfold MacShow.fetch_and_save_series. adds_auto. Qed.

Hint Resolve show_fetch_and_save_series_adds : adds.

Lemma show_crawl_categories_adds (fuel : nat) (token : pyval)
      (categories : list pyval) :
  adds P (MacShow.crawl_categories W fuel base_url (bearer W token) categories).
Proof. unfold MacShow.crawl_categories. adds_auto. Qed.

End ShowRequests.

#[global] Hint Resolve show_get_mac_address_adds show_get_token_adds
  show_get_subscription_adds show_get_series_categories_adds
  show_get_series_list_adds show_get_seasons_episodes_adds
  show_fetch_play_link_adds show_save_episodes_adds show_save_seasons_adds
  show_save_series_data_adds show_series_pages_adds
  show_fetch_and_save_series_adds show_crawl_categories_adds : adds.


Lemma well_sent_shape (W : world) (base_url : string) (e : event) :
  well_sent W base_url e -> sent_in_shape W e.
Proof. now intros [_ H]. Qed.

(** The continuation of [get_base_url] in a [try] block, at the log [st1]:
    all its requests go to the base URL. *)
Ltac session_sent_to W b st1 :=
  lazymatch goal with
  | |- exists evs, snd (?m st1) = _ /\ _ =>
      let H := fresh "H" in
      assert (H : adds (well_sent W b) m) by adds_auto;
      let evs := fresh "evs" in
      let E := fresh "E" in
      let HF := fresh "HF" in
      destruct (H st1) as (evs & E & HF); exists evs;
      split; [exact E|];
      let rq := fresh "rq" in
      let rp := fresh "rp" in
      let Hin := fresh "Hin" in
      intros rq rp Hin; rewrite Forall_forall in HF;
      exact (proj1 (HF _ Hin))
  end.

Section MainRequests.

Variable W : world.

Lemma list_main_body_adds : adds (sent_in_shape W) (MacList.main_body W).
Proof.
  unfold MacList.main_body. apply adds_mbind.
  - unfold MacList.get_base_url. adds_auto.
  - intros base_url. apply adds_weaken with (Q := well_sent W base_url);
      [apply well_sent_shape | adds_auto].
Qed.

Lemma list_main_adds : adds (sent_in_shape W) (MacList.main W).
Proof.
  unfold MacList.main. apply adds_try_except;
    [apply list_main_body_adds | intros; apply adds_raise].
Qed.

Lemma vod_main_body_adds (fuel : nat) :
  adds (sent_in_shape W) (MacVod.main_body W fuel).
Proof.
  unfold MacVod.main_body. apply adds_mbind.
  - unfold MacVod.get_base_url. adds_auto.
  - intros base_url. apply adds_weaken with (Q := well_sent W base_url);
      [apply well_sent_shape | adds_auto].
Qed.

Lemma vod_main_adds (depth fuel : nat) :
  adds (sent_in_shape W) (MacVod.main W depth fuel).
Proof.
  induction depth as [|depth IH]; intros st; simpl;
    destruct (vod_main_body_adds fuel st) as (evs & E & HF);
    destruct (MacVod.main_body W fuel st) as [[a|e|] st1]; simpl in E; subst st1;
    try (now exists evs);
    destruct (is_KeyboardInterrupt e); try (now exists evs);
    destruct (is_Exception e); try (now exists evs).
  destruct (IH (st ++ evs)%list) as (evs' & E' & HF').
  exists (evs ++ evs')%list. rewrite E', app_assoc.
  split; [reflexivity | now apply Forall_app].
Qed.

Lemma show_main_body_adds (fuel : nat) :
  adds (sent_in_shape W) (MacShow.main_body W fuel).
Proof.
  unfold MacShow.main_body. apply adds_mbind.
  - unfold MacShow.get_base_url. adds_auto.
  - intros base_url. apply adds_weaken with (Q := well_sent W base_url);
      [apply well_sent_shape | adds_auto].
Qed.

Lemma show_main_adds (depth fuel : nat) :
  adds (sent_in_shape W) (MacShow.main W depth fuel).
Proof.
  induction depth as [|depth IH]; intros st; simpl;
    destruct (show_main_body_adds fuel st) as (evs & E & HF);
    destruct (MacShow.main_body W fuel st) as [[a|e|] st1]; simpl in E; subst st1;
    try (now exists evs);
    destruct (is_KeyboardInterrupt e); try (now exists evs);
    destruct (is_Exception e); try (now exists evs).
  destruct (IH (st ++ evs)%list) as (evs' & E' & HF').
  exists (evs ++ evs')%list. rewrite E', app_assoc.
  split; [reflexivity | now apply Forall_app].
Qed.

End MainRequests.

(** C10, as the scripts have it.  When [urlparse] finds a host and a
    port in the typed link, or finds that the link has none, each script
    derives a base URL [http://{host}:{port}] from them and from nothing
    else of the link (its scheme, path or query), and every request of the
    rest of the [try] block goes to this base URL.  The port is 80 when
    the link has none; [macvod.py] and [macshow.py] also take 80 for the
    port 0.  For a link without a host [maclist.py] writes [None] for the
    host, [macvod.py] and [macshow.py] write nothing. *)
Theorem C10_base_url (W : world) (fuel : nat) (st : log) (link : string)
        (host : option string) (port : option Z) :
  w_input W (count is_input st) = Line link ->
  w_urlparse W link = Ret (host, port) ->
  (MacList.get_base_url W st
   = (Ret (list_base_url host port), (st ++ [EInput "Enter IPTV link: "])%list)
   /\ exists evs,
        snd (MacList.main_body W st)
        = ((st ++ [EInput "Enter IPTV link: "]) ++ evs)%list
        /\ forall rq rp, In (EGet rq rp) evs ->
                         startswith (list_base_url host port) (rq_url rq) = true)
  /\ (MacVod.get_base_url W st
      = (Ret (pool_base_url host port), (st ++ [EInput "Enter IPTV link: "])%list)
      /\ exists evs,
           snd (MacVod.main_body W fuel st)
           = ((st ++ [EInput "Enter IPTV link: "]) ++ evs)%list
           /\ forall rq rp, In (EGet rq rp) evs ->
                            startswith (pool_base_url host port) (rq_url rq) = true)
  /\ (MacShow.get_base_url W st
      = (Ret (pool_base_url host port), (st ++ [EInput "Enter IPTV link: "])%list)
      /\ exists evs,
           snd (MacShow.main_body W fuel st)
           = ((st ++ [EInput "Enter IPTV link: "]) ++ evs)%list
           /\ forall rq rp, In (EGet rq rp) evs ->
                            startswith (pool_base_url host port) (rq_url rq) = true).
Proof.
  intros Hi Hp.
  assert (Hl : MacList.get_base_url W st
               = (Ret (list_base_url host port),
                  (st ++ [EInput "Enter IPTV link: "])%list)).
  { unfold MacList.get_base_url, mbind, input_colored, lift, mret.
    now rewrite Hi, Hp. }
  assert (Hv : MacVod.get_base_url W st
               = (Ret (pool_base_url host port),
                  (st ++ [EInput "Enter IPTV link: "])%list)).
  { unfold MacVod.get_base_url, mbind, input_colored, lift, mret.
    now rewrite Hi, Hp. }
  assert (Hs : MacShow.get_base_url W st
               = (Ret (pool_base_url host port),
                  (st ++ [EInput "Enter IPTV link: "])%list)).
  { unfold MacShow.get_base_url, mbind, input_colored, lift, mret.
    now rewrite Hi, Hp. }
  split; [|split]; (split; [assumption|]).
  - unfold MacList.main_body. unfold mbind at 1. rewrite Hl.
    session_sent_to W (list_base_url host port)
                    (st ++ [EInput "Enter IPTV link: "])%list.
  - unfold MacVod.main_body. unfold mbind at 1. rewrite Hv.
    session_sent_to W (pool_base_url host port)
                    (st ++ [EInput "Enter IPTV link: "])%list.
  - unfold MacShow.main_body. unfold mbind at 1. rewrite Hs.
    session_sent_to W (pool_base_url host port)
                    (st ++ [EInput "Enter IPTV link: "])%list.
Qed.

Lemma C10_witness :
  let W := Demo.world_of ["https://tv.example.org/stalker_portal/c/?x=1"] [] in
  let st1 := [EInput "Enter IPTV link: "] in
  (MacList.get_base_url W [] = (Ret "http://tv.example.org:80", st1)
   /\ exists evs,
        snd (MacList.main_body W []) = (st1 ++ evs)%list
        /\ forall rq rp, In (EGet rq rp) evs ->
                         startswith "http://tv.example.org:80" (rq_url rq) = true)
  /\ (MacVod.get_base_url W [] = (Ret "http://tv.example.org:80", st1)
      /\ exists evs,
           snd (MacVod.main_body W 5 []) = (st1 ++ evs)%list
           /\ forall rq rp, In (EGet rq rp) evs ->
                            startswith "http://tv.example.org:80" (rq_url rq) = true)
  /\ (MacShow.get_base_url W [] = (Ret "http://tv.example.org:80", st1)
      /\ exists evs,
           snd (MacShow.main_body W 5 []) = (st1 ++ evs)%list
           /\ forall rq rp, In (EGet rq rp) evs ->
                            startswith "http://tv.example.org:80" (rq_url rq) = true).
Proof.
  apply (C10_base_url
           (Demo.world_of ["https://tv.example.org/stalker_portal/c/?x=1"] [])
           5 [] "https://tv.example.org/stalker_portal/c/?x=1"
           (Some "tv.example.org") None).
  - reflexivity.
  - reflexivity.
Defined.

(** C10 as stated fails, in three ways.  For a link with a port that is
    out of range, the [port] of [urlparse] raises [ValueError]: no base
    URL is derived, and [maclist.py] ends with the [ValueError].  For a
    link without a scheme [urlparse] finds no host: [maclist.py] derives
    [http://None:80], [macvod.py] and [macshow.py] derive [http://:80].
    For a link with the port 0 [maclist.py] keeps the port, [macvod.py]
    and [macshow.py] replace it by 80. *)
Lemma C10_base_url_counterexample :
  let out_of_range := Demo.world_of ["http://example.com:99999/c/"] [] in
  let no_scheme := Demo.world_of ["example.com"] [] in
  let port_0 := Demo.world_of ["http://example.com:0/c/"] [] in
  (fst (MacList.get_base_url out_of_range []) = Raise ValueError
   /\ fst (MacVod.get_base_url out_of_range []) = Raise ValueError
   /\ fst (MacShow.get_base_url out_of_range []) = Raise ValueError
   /\ MacList.main out_of_range []
      = (Raise ValueError, [EInput "Enter IPTV link: "]))
  /\ (fst (MacList.get_base_url no_scheme []) = Ret "http://None:80"
      /\ fst (MacVod.get_base_url no_scheme []) = Ret "http://:80"
      /\ fst (MacShow.get_base_url no_scheme []) = Ret "http://:80")
  /\ (fst (MacList.get_base_url port_0 []) = Ret "http://example.com:0"
      /\ fst (MacVod.get_base_url port_0 []) = Ret "http://example.com:80"
      /\ fst (MacShow.get_base_url port_0 []) = Ret "http://example.com:80").
Proof. vm_compute. repeat split. Qed.



(* ===================================================================== *)
(** * Entries written and links resolved *)
(* ===================================================================== *)

Section Appends.

Variable R : list event -> Prop.
Hypothesis R_nil : R [].
Hypothesis R_app : forall a b, R a -> R b -> R (a ++ b)%list.

Context {A B : Type}.

Lemma appends_mret (a : A) : appends R (mret a).
Proof. intros st. exists []. now rewrite app_nil_r. Qed.

Lemma appends_lift (r : result A) : appends R (lift r).
Proof. intros st. exists []. now rewrite app_nil_r. Qed.

Lemma appends_mbind (m : M A) (f : A -> M B) :
  appends R m ->
  (forall st a, fst (m st) = Ret a -> appends R (f a)) ->
  appends R (mbind m f).
Proof.
  intros Hm Hf st. unfold mbind.
  destruct (Hm st) as (evs & E & HR).
  destruct (m st) as [[a|e|] st1] eqn:Em; simpl in E; subst st1;
    try (now exists evs).
  assert (Ha : fst (m st) = Ret a) by now rewrite Em.
  destruct (Hf st a Ha (st ++ evs)%list) as (evs' & E' & HR').
  exists (evs ++ evs')%list. rewrite E', app_assoc. split; [reflexivity | auto].
Qed.

(** A pure step adds nothing; what follows may use its value. *)
Lemma appends_bind_lift (r : result A) (f : A -> M B) :
  (forall a, r = Ret a -> appends R (f a)) -> appends R (mbind (lift r) f).
Proof.
  intros Hf. apply appends_mbind; [apply appends_lift|].
  intros st a E. apply Hf. exact E.
Qed.

Lemma appends_try_except (m : M A) (classes : exn -> bool) (h : exn -> M A) :
  appends R m -> (forall e, appends R (h e)) -> appends R (try_except m classes h).
Proof.
  intros Hm Hh st. unfold try_except.
  destruct (Hm st) as (evs & E & HR).
  destruct (m st) as [[a|e|] st1]; simpl in E; subst st1;
    try (now exists evs).
  destruct (classes e); [|now exists evs].
  destruct (Hh e (st ++ evs)%list) as (evs' & E' & HR').
  exists (evs ++ evs')%list. rewrite E', app_assoc. split; [reflexivity | auto].
Qed.

Lemma appends_http_get (W : world) (site : callsite) (url : string)
      (headers : list (string * string)) :
  (forall rp, R [EGet {| rq_site := site; rq_url := url; rq_headers := headers |} rp]) ->
  appends R (http_get W site url headers).
Proof.
  intros H st.
  exists [EGet {| rq_site := site; rq_url := url; rq_headers := headers |}
               (w_reply W (count is_get st))].
  unfold http_get. split; [now destruct (w_reply W _) | apply H].
Qed.

Lemma appends_aio_get (W : world) (site : callsite) (url : string)
      (headers : list (string * string)) :
  (forall rp, R [EGet {| rq_site := site; rq_url := url; rq_headers := headers |} rp]) ->
  appends R (aio_get W site url headers).
Proof.
  intros H st.
  exists [EGet {| rq_site := site; rq_url := url; rq_headers := headers |}
               (w_reply W (count is_get st))].
  unfold aio_get. split; [now destruct (w_reply W _) | apply H].
Qed.

End Appends.

Lemma appends_for_fold {A S : Type} (R : list event -> Prop) (xs : list A)
      (body : S -> A -> M S) :
  R [] -> (forall a b, R a -> R b -> R (a ++ b)%list) ->
  (forall acc x, In x xs -> appends R (body acc x)) ->
  forall acc, appends R (for_fold xs acc body).
Proof.
  intros Hnil Happ. induction xs as [|x xs IH]; intros Hb acc; simpl.
  - now apply appends_mret.
  - apply appends_mbind; auto.
    + apply Hb. now left.
    + intros st acc' _. apply IH. intros acc0 y Hy. apply Hb. now right.
Qed.

Section WrittenAsResolved.

Lemma resolved_links_app (a b : log) :
  resolved_links (a ++ b)%list = (resolved_links a ++ resolved_links b)%list.
Proof.
  induction a as [|e a IH]; simpl; [reflexivity|].
  destruct (resolved_link e); simpl; now rewrite IH.
Qed.

Lemma written_urls_app (a b : log) :
  written_urls (a ++ b)%list = (written_urls a ++ written_urls b)%list.
Proof.
  induction a as [|e a IH]; simpl; [reflexivity|].
  destruct e as [| | |c]; try assumption.
  destruct (chunk_url c); simpl; now rewrite IH.
Qed.

Lemma written_app (a b : log) : written (a ++ b)%list = (written a ++ written b)%list.
Proof.
  induction a as [|e a IH]; simpl; [reflexivity|].
  destruct e; simpl; now rewrite ?IH.
Qed.

Variable title : pyval.

Lemma written_as_resolved_nil : written_as_resolved title [].
Proof. split; [reflexivity | constructor]. Qed.

Lemma written_as_resolved_app (a b : log) :
  written_as_resolved title a -> written_as_resolved title b ->
  written_as_resolved title (a ++ b)%list.
Proof.
  intros [Ha Ga] [Hb Gb]. split.
  - now rewrite written_urls_app, resolved_links_app, Ha, Hb.
  - rewrite written_app. now apply Forall_app.
Qed.

(** A request that is not a [create_link] resolves nothing. *)
Lemma written_as_resolved_get (site : callsite) (url : string)
      (headers : list (string * string)) (rp : reply) :
  site <> CreateLink ->
  written_as_resolved title
    [EGet {| rq_site := site; rq_url := url; rq_headers := headers |} rp].
Proof.
  intros Hs. split; [|constructor].
  simpl. destruct rp as [|r]; [reflexivity|].
  cbn. destruct site; try reflexivity. contradiction.
Qed.

End WrittenAsResolved.

(** The side conditions of the lemmas on [appends]. *)
Ltac war_side :=
  try solve [ apply written_as_resolved_nil
            | intros; apply written_as_resolved_app; assumption ].

(** The structure of a script, for [written_as_resolved]. *)
Ltac war_step :=
  lazymatch goal with
  | |- appends _ (mbind (lift _) _) => apply appends_bind_lift; war_side; intros
  | |- appends _ (mret _) => apply appends_mret; war_side
  | |- appends _ (lift _) => apply appends_lift; war_side
  | |- appends _ (try_except _ _ _) =>
      apply appends_try_except; war_side; [|intros]
  | |- appends _ (http_get _ _ _ _) =>
      apply appends_http_get; intros; apply written_as_resolved_get; discriminate
  | |- appends _ (aio_get _ _ _ _) =>
      apply appends_aio_get; intros; apply written_as_resolved_get; discriminate
  | |- appends _ (if ?c then _ else _) => destruct c eqn:?
  end.

Ltac war_bind := apply appends_mbind; war_side.

Section KeepsUp.

Variables (title : pyval) (cause : exn -> Prop).

Lemma one_behind_app (e : exn) (a b : log) :
  written_as_resolved title a -> one_behind title cause e b ->
  one_behind title cause e (a ++ b)%list.
Proof.
  intros [Ha Ga] ([link Hb] & Hc & Gb). split; [|split; [exact Hc|]].
  - exists link.
    now rewrite written_urls_app, resolved_links_app, Ha, Hb, app_assoc.
  - rewrite written_app. now apply Forall_app.
Qed.

Context {A B : Type}.

Lemma keeps_up_appends (m : M A) :
  appends (written_as_resolved title) m -> keeps_up title cause m.
Proof.
  intros H st. destruct (H st) as (evs & E & F). exists evs.
  split; [exact E|]. destruct (fst (m st)); auto.
Qed.

Lemma keeps_up_mbind (m : M A) (f : A -> M B) :
  keeps_up title cause m ->
  (forall st a, fst (m st) = Ret a -> keeps_up title cause (f a)) ->
  keeps_up title cause (mbind m f).
Proof.
  intros Hm Hf st. unfold mbind.
  destruct (Hm st) as (evs & E & H).
  destruct (m st) as [[a|e|] st1] eqn:Em; cbn [fst snd] in E, H; subst st1;
    try (now exists evs).
  assert (Ha : fst (m st) = Ret a) by now rewrite Em.
  destruct (Hf st a Ha (st ++ evs)%list) as (evs' & E' & H').
  exists (evs ++ evs')%list. rewrite E', app_assoc. split; [reflexivity|].
  destruct (fst (f a (st ++ evs)%list)) as [b|e|].
  - now apply written_as_resolved_app.
  - destruct H' as [H'|H'];
      [left; now apply written_as_resolved_app | right; now apply one_behind_app].
  - now apply written_as_resolved_app.
Qed.

(** A pure step adds nothing; what follows may use its value. *)
Lemma keeps_up_bind_lift (r : result A) (f : A -> M B) :
  (forall a, r = Ret a -> keeps_up title cause (f a)) ->
  keeps_up title cause (mbind (lift r) f).
Proof.
  intros Hf. apply keeps_up_mbind.
  - apply keeps_up_appends, appends_lift. apply written_as_resolved_nil.
  - intros st a E. apply Hf. exact E.
Qed.

End KeepsUp.

Lemma keeps_up_for_fold {A S : Type} (title : pyval) (cause : exn -> Prop)
      (xs : list A) (body : S -> A -> M S) :
  (forall acc x, In x xs -> keeps_up title cause (body acc x)) ->
  forall acc, keeps_up title cause (for_fold xs acc body).
Proof.
  induction xs as [|x xs IH]; intros Hb acc; simpl.
  - apply keeps_up_appends, appends_mret. apply written_as_resolved_nil.
  - apply keeps_up_mbind.
    + apply Hb. now left.
    + intros st acc' _. apply IH. intros acc0 y Hy. apply Hb. now right.
Qed.

(** The structure of a script, for [keeps_up]. *)
Ltac ku_step :=
  lazymatch goal with
  | |- keeps_up _ _ (mbind (lift _) _) => apply keeps_up_bind_lift; intros
  | |- keeps_up _ _ (mret _) =>
      apply keeps_up_appends, appends_mret; apply written_as_resolved_nil
  | |- keeps_up _ _ (lift _) =>
      apply keeps_up_appends, appends_lift; apply written_as_resolved_nil
  | |- keeps_up _ _ (if ?c then _ else _) => destruct c eqn:?
  end.

(** The entries of [evs], the list of the events of one item. *)
Ltac item_events evs :=
  exists evs; rewrite <- ?app_assoc, ?app_nil_r; split; [reflexivity|].

Section VodWritten.

Variables (W : world) (base_url : string) (category_title : pyval).

(** One movie: the [create_link] request and, when a link came back, the
    entry, unless the write raises. *)
Lemma vod_item_written (n : Z) (name logo cmd : pyval) :
  keeps_up category_title write_error
    (play_link <- MacVod.fetch_play_link W base_url cmd ;;
     match play_link with
     | Some link =>
         if link_truthy play_link then
           file_write W (Entry logo category_title name link) ;;
           mret (n + 1)%Z
         else mret n
     | None => mret n
     end)%py.
Proof.
  intros st.
  unfold MacVod.fetch_play_link, mbind, lift, try_except, http_get, file_write, mret.
  destruct (Py.quote cmd) as [quoted|e|];
    try (item_events (@nil event); cbn; try left; apply written_as_resolved_nil).
  destruct (w_reply W (count is_get st)) as [|r] eqn:Erp; cbn.
  { eexists [_]. split; [reflexivity|]. split; [reflexivity | constructor]. }
  destruct (play_link_of r) as [[link|]|e|] eqn:El; cbn.
  - destruct (String.eqb link "") eqn:Ee; cbn.
    + eexists [_]. split; [reflexivity|]. split; [|constructor].
      cbn. now rewrite El; cbn; rewrite Ee.
    + destruct (w_write W _); cbn.
      * eexists [_; _]. rewrite <- app_assoc. split; [reflexivity|].
        split; [|repeat constructor].
        cbn. now rewrite El; cbn; rewrite Ee.
      * eexists [_]. split; [reflexivity|]. right.
        split; [|split; [now left | constructor]].
        exists link. cbn. now rewrite El; cbn; rewrite Ee.
      * eexists [_]. split; [reflexivity|]. right.
        split; [|split; [now right | constructor]].
        exists link. cbn. now rewrite El; cbn; rewrite Ee.
  - eexists [_]. split; [reflexivity|]. split; [|constructor].
    cbn. now rewrite El.
  - destruct (is_TransportError e); cbn;
      (eexists [_]; split; [reflexivity|]; try left; split; [|constructor]);
      cbn; now rewrite El.
  - eexists [_]. split; [reflexivity|]. split; [|constructor].
    cbn. now rewrite El.
Qed.

Lemma vod_save_vod_list_written (vod_data : pyval) :
  keeps_up category_title write_error
    (MacVod.save_vod_list W vod_data base_url category_title).
Proof.
  unfold MacVod.save_vod_list. ku_step.
  apply keeps_up_for_fold. intros n vod _.
  repeat ku_step. apply vod_item_written.
Qed.

Lemma vod_get_vod_list_written (headers : list (string * string))
      (category_id : pyval) (page : Z) :
  appends (written_as_resolved category_title)
    (MacVod.get_vod_list W base_url headers category_id page).
Proof.
  unfold MacVod.get_vod_list. war_step.
  - war_bind; [war_step | intros st res _].
    repeat war_step.
  - war_step.
Qed.

Lemma vod_pages_written (fuel : nat) (headers : list (string * string))
      (category_id : pyval) (page total_count : Z) :
  keeps_up category_title write_error
    (MacVod.vod_pages W fuel base_url headers category_id
                              category_title page total_count).
Proof.
  revert page total_count. induction fuel as [|fuel IH]; intros; simpl.
  - ku_step.
  - apply keeps_up_mbind;
      [apply keeps_up_appends, vod_get_vod_list_written|].
    intros st vod_data _. ku_step; [ku_step|].
    apply keeps_up_mbind; [apply vod_save_vod_list_written|].
    intros st' n _. apply IH.
Qed.

End VodWritten.

Section ShowWritten.

Variables (W : world) (base_url : string) (category_title : pyval).

Let cause (e : exn) : Prop := write_error e \/ format_error e.

Lemma format_episode_number_raises (season_num : Z) (episode_num : pyval)
      (total_episodes : Z) (e : exn) :
  MacShow.format_episode_number season_num episode_num total_episodes = Raise e ->
  format_error e.
Proof.
  unfold MacShow.format_episode_number, Py.format_d.
  destruct episode_num; cbn; intros [= <-]; (now left) || (now right).
Qed.

(** One episode: the [create_link] request and, when a link came back,
    the entry, unless the format of the episode number or the write
    raises. *)
Lemma show_episode_written (series : list (string * pyval)) (series_title : pyval)
      (series_id season_num : string) (total_episodes : Z)
      (total_count : Z) (episode_num : pyval) :
  keeps_up category_title cause
    (season <- lift (MacShow.py_int W season_num) ;;
     let cmd := w_cmd W series_id season in
     play_link <- MacShow.fetch_play_link W base_url cmd episode_num ;;
     match play_link with
     | Some link =>
         if link_truthy play_link then
           season' <- lift (MacShow.py_int W season_num) ;;
           formatted_episode_num <-
             lift (MacShow.format_episode_number season' episode_num total_episodes) ;;
           logo <- lift (Py.get_default (PDict series) "screenshot_uri" (PStr "")) ;;
           file_write W (Episode series_id season_num episode_num series_title
                                 logo category_title formatted_episode_num link) ;;
           mret (total_count + 1)%Z
         else mret total_count
     | None => mret total_count
     end)%py.
Proof.
  intros st.
  unfold MacShow.fetch_play_link, mbind, lift, try_except, aio_get, file_write, mret.
  destruct (MacShow.py_int W season_num) as [season|e|];
    try (item_events (@nil event); cbn; try left; apply written_as_resolved_nil).
  cbv zeta.
  destruct (w_reply W (count is_get st)) as [|r] eqn:Erp; cbn.
  { destruct (w_timeout W (count is_get st)); cbn;
      (eexists [_]; split; [reflexivity|]; try left;
       split; [reflexivity | constructor]). }
  destruct (play_link_of r) as [[link|]|e|] eqn:El; cbn.
  - destruct (String.eqb link "") eqn:Ee; cbn.
    + eexists [_]. split; [reflexivity|]. split; [|constructor].
      cbn. now rewrite El; cbn; rewrite Ee.
    + destruct (MacShow.format_episode_number season episode_num total_episodes)
        as [formatted|e|] eqn:Ef; cbn.
      * destruct (w_write W _); cbn.
        -- eexists [_; _]. rewrite <- app_assoc. split; [reflexivity|].
           split; [|repeat constructor].
           cbn. now rewrite El; cbn; rewrite Ee.
        -- eexists [_]. split; [reflexivity|]. right.
           split; [|split; [left; now left | constructor]].
           exists link. cbn. now rewrite El; cbn; rewrite Ee.
        -- eexists [_]. split; [reflexivity|]. right.
           split; [|split; [left; now right | constructor]].
           exists link. cbn. now rewrite El; cbn; rewrite Ee.
      * eexists [_]. split; [reflexivity|]. right.
        split; [|split; [right; exact (format_episode_number_raises _ _ _ _ Ef)
                        | constructor]].
        exists link. cbn. now rewrite El; cbn; rewrite Ee.
      * exfalso. revert Ef. unfold MacShow.format_episode_number, Py.format_d.
        destruct episode_num; discriminate.
  - eexists [_]. split; [reflexivity|]. split; [|constructor].
    cbn. now rewrite El.
  - destruct (is_TransportError e); cbn;
      (eexists [_]; split; [reflexivity|]; try left; split; [|constructor]);
      cbn; now rewrite El.
  - eexists [_]. split; [reflexivity|]. split; [|constructor].
    cbn. now rewrite El.
Qed.

Lemma show_save_episodes_written (series : list (string * pyval))
      (series_title : pyval) (series_id season_num : string)
      (total_episodes : Z) (episodes : list pyval) (total_count : Z) :
  keeps_up category_title cause
    (MacShow.save_episodes W base_url (PDict series) series_title series_id
                           season_num total_episodes category_title episodes
                           total_count).
Proof.
  unfold MacShow.save_episodes.
  apply keeps_up_for_fold. intros n episode_num Hin.
  apply show_episode_written.
Qed.

Lemma show_save_seasons_written (series : list (string * pyval))
      (series_title : pyval) (series_id : string) (seasons : list pyval)
      (total_count : Z) :
  keeps_up category_title cause
    (MacShow.save_seasons W base_url (PDict series) series_title series_id
                          category_title seasons total_count).
Proof.
  unfold MacShow.save_seasons.
  apply keeps_up_for_fold. intros n season Hin.
  repeat ku_step. apply show_save_episodes_written.
Qed.

Lemma show_get_seasons_episodes_written (headers : list (string * string))
      (series_id : string) (category_id : pyval) :
  appends (written_as_resolved category_title)
    (MacShow.get_seasons_episodes W base_url headers series_id category_id).
Proof.
  unfold MacShow.get_seasons_episodes. war_step.
  - war_bind; [war_step | intros st res _].
    repeat war_step.
  - war_step.
Qed.

Lemma show_save_series_data_written (series_data : pyval)
      (headers : list (string * string)) :
  keeps_up category_title cause
    (MacShow.save_series_data W series_data base_url headers category_title).
Proof.
  unfold MacShow.save_series_data. ku_step.
  apply keeps_up_for_fold. intros n series _.
  apply keeps_up_bind_lift. intros series_title Es.
  destruct series as [| | | | |d]; try discriminate Es.
  ku_step. ku_step. ku_step. ku_step.
  apply keeps_up_mbind;
    [apply keeps_up_appends, show_get_seasons_episodes_written|].
  intros st seasons_data Hs.
  ku_step; [|ku_step].
  ku_step. apply show_save_seasons_written.
Qed.

Lemma show_get_series_list_written (headers : list (string * string))
      (category_id : pyval) (page : Z) :
  appends (written_as_resolved category_title)
    (MacShow.get_series_list W base_url headers category_id page).
Proof.
  unfold MacShow.get_series_list. war_step.
  - war_bind; [war_step | intros st res _].
    repeat war_step.
  - war_step.
Qed.

Lemma show_series_pages_written (fuel : nat) (headers : list (string * string))
      (category_id : pyval) (page total_count : Z) :
  keeps_up category_title cause
    (MacShow.series_pages W fuel base_url headers category_id category_title
                          page total_count).
Proof.
  revert page total_count. induction fuel as [|fuel IH]; intros; simpl.
  - ku_step.
  - apply keeps_up_mbind;
      [apply keeps_up_appends, show_get_series_list_written|].
    intros st series_data _. ku_step; [ku_step|].
    apply keeps_up_mbind; [apply show_save_series_data_written|].
    intros st' n _. apply IH.
Qed.

End ShowWritten.

(** What a crawl that keeps up leaves, in the words of the claim. *)
Lemma keeps_up_run {A : Type} (title : pyval) (cause : exn -> Prop) (m : M A)
      (st : log) :
  keeps_up title cause m ->
  exists evs,
    snd (m st) = (st ++ evs)%list
    /\ (written_urls evs = resolved_links evs
        \/ exists link e,
             resolved_links evs = (written_urls evs ++ [link])%list
             /\ fst (m st) = Raise e /\ cause e)
    /\ (forall a, fst (m st) = Ret a ->
                  List.length (written_urls evs) = List.length (resolved_links evs))
    /\ (List.length (resolved_links evs) <= S (List.length (written_urls evs)))%nat
    /\ Forall (fun c => chunk_group c = Some title) (written evs).
Proof.
  intros H. destruct (H st) as (evs & E & H'). exists evs.
  split; [exact E|].
  destruct (fst (m st)) as [a|e|];
    try (destruct H' as [Hu Hg];
         split; [now left|]; split; [intros; now rewrite Hu|];
         split; [rewrite Hu; lia | exact Hg]).
  destruct H' as [[Hu Hg]|([link Hl] & Hc & Hg)].
  - split; [now left|]. split; [intros; now rewrite Hu|].
    split; [rewrite Hu; lia | exact Hg].
  - split; [right; now exists link, e|]. split; [discriminate|].
    split; [|exact Hg]. rewrite Hl, length_app. cbn. lia.
Qed.

(** A crawl that ends before its first request. *)
Lemma nothing_crawled (cause : exn -> Prop) (category : pyval) (st : log)
      (r : result Z) :
  exists evs,
    st = (st ++ evs)%list
    /\ (written_urls evs = resolved_links evs
        \/ exists link e,
             resolved_links evs = (written_urls evs ++ [link])%list
             /\ r = Raise e /\ cause e)
    /\ (forall n, r = Ret n ->
                  List.length (written_urls evs) = List.length (resolved_links evs))
    /\ (List.length (resolved_links evs) <= S (List.length (written_urls evs)))%nat
    /\ forall c, In c (written evs) ->
                 Py.getitem category "title" = Ret (match chunk_group c with
                                                    | Some t => t
                                                    | None => PNone
                                                    end).
Proof.
  exists []. rewrite app_nil_r. split; [reflexivity|]. split; [now left|].
  split; [reflexivity|]. split; [cbn; lia | intros c []].
Qed.

(** C7, as the scripts have it.  For every category, whatever the portal
    answers and wherever the crawl of the category stops, the entries
    that the crawl has handed to [file.write], and that [file.write]
    took, are those of the items for which the resolver returned a
    non-empty link, one for one and in the same order, each with the
    title of the category as its group title, with one exception: the
    entry of the last link resolved is missing when the crawl ended in
    the exception of its [file.write] ([OSError], [UnicodeEncodeError])
    or, in [macshow.py], in the [ValueError] or [TypeError] that the
    format of an episode number raises when the number is not an integer.
    So the number of entries is the number of links resolved when the
    crawl returns, and at most one less when it does not.  An item with
    no link is never written.  The crawl is the job of one category,
    taken by itself. *)
Theorem C7_written_as_resolved
  (W : world) (fuel : nat) (base_url : string)
  (headers : list (string * string)) (category : pyval) (st : log) :
  (exists evs,
      snd (MacVod.fetch_and_save_vods W fuel base_url headers category st)
      = (st ++ evs)%list
      /\ (written_urls evs = resolved_links evs
          \/ exists link e,
               resolved_links evs = (written_urls evs ++ [link])%list
               /\ fst (MacVod.fetch_and_save_vods W fuel base_url headers category st)
                  = Raise e
               /\ write_error e)
      /\ (forall n,
             fst (MacVod.fetch_and_save_vods W fuel base_url headers category st)
             = Ret n ->
             List.length (written_urls evs) = List.length (resolved_links evs))
      /\ (List.length (resolved_links evs) <= S (List.length (written_urls evs)))%nat
      /\ forall c, In c (written evs) ->
                   Py.getitem category "title" = Ret (match chunk_group c with
                                                      | Some t => t
                                                      | None => PNone
                                                      end))
  /\ (exists evs,
         snd (MacShow.fetch_and_save_series W fuel base_url headers category st)
         = (st ++ evs)%list
         /\ (written_urls evs = resolved_links evs
             \/ exists link e,
                  resolved_links evs = (written_urls evs ++ [link])%list
                  /\ fst (MacShow.fetch_and_save_series W fuel base_url headers
                                                        category st)
                     = Raise e
                  /\ (write_error e \/ format_error e))
         /\ (forall n,
                fst (MacShow.fetch_and_save_series W fuel base_url headers
                                                   category st)
                = Ret n ->
                List.length (written_urls evs) = List.length (resolved_links evs))
         /\ (List.length (resolved_links evs) <= S (List.length (written_urls evs)))%nat
         /\ forall c, In c (written evs) ->
                      Py.getitem category "title" = Ret (match chunk_group c with
                                                         | Some t => t
                                                         | None => PNone
                                                         end)).
Proof.
  split.
  - unfold MacVod.fetch_and_save_vods, mbind, lift, mret.
    destruct (Py.getitem category "id") as [id|e|];
      try apply nothing_crawled.
    destruct (Py.getitem category "title") as [title|e|] eqn:Et;
      try (rewrite <- Et; apply nothing_crawled).
    destruct (Py.eq_str id "*"); [rewrite <- Et; apply nothing_crawled|].
    destruct (keeps_up_run title write_error _ st
                (vod_pages_written W base_url title fuel headers id 1%Z 0%Z))
      as (evs & E & Hu & Hr & Hl & Hg).
    exists evs. repeat split; try assumption.
    intros c Hc. rewrite Forall_forall in Hg. now rewrite (Hg c Hc).
  - unfold MacShow.fetch_and_save_series, mbind, lift, mret.
    destruct (Py.getitem category "id") as [id|e|];
      try apply nothing_crawled.
    destruct (Py.getitem category "title") as [title|e|] eqn:Et;
      try (rewrite <- Et; apply nothing_crawled).
    destruct (keeps_up_run title _ _ st
                (show_series_pages_written W base_url title fuel headers id
                                           1%Z 0%Z))
      as (evs & E & Hu & Hr & Hl & Hg).
    exists evs. repeat split; try assumption.
    intros c Hc. rewrite Forall_forall in Hg. now rewrite (Hg c Hc).
Qed.

(** C7 as stated fails.  In this crawl of [macshow.py] the season lists
    an episode by a name: its link is resolved, the format of the episode
    number raises [ValueError], and nothing is written.  In this crawl of
    [macvod.py] the link of the movie is resolved, [file.write] raises
    [OSError], and nothing is written.  In both, one link is resolved and
    no entry is written. *)
Lemma C7_lost_entry_counterexample :
  let show := MacShow.fetch_and_save_series DemoShow.named_episode 5
                "http://example.com:8080"
                (bearer DemoShow.named_episode (PStr "T0K3N"))
                DemoShow.category [] in
  let vod := MacVod.fetch_and_save_vods DemoVod.full_disk 5
               "http://example.com:8080"
               (bearer DemoVod.full_disk (PStr "T0K3N"))
               (PDict [("id", PStr "5"); ("title", PStr "Action")]) [] in
  resolved_links (snd show) = ["http://cdn.example.com/show/s1e1.mkv"]
  /\ written (snd show) = []
  /\ fst show = Raise ValueError
  /\ resolved_links (snd vod) = ["http://cdn.example.com/film.mp4?token=abc"]
  /\ written (snd vod) = []
  /\ fst vod = Raise OSError.
Proof. vm_compute. repeat split. Qed.

Example show_category_written :
  written (snd (MacShow.fetch_and_save_series DemoShow.category_portal 5
                  "http://example.com:8080"
                  (bearer DemoShow.category_portal (PStr "T0K3N"))
                  DemoShow.category []))
  = [Episode "7" "1" (PInt 1) (PStr "Show") (PStr "http://img.example.com/7.jpg")
             (PStr "Drama") "S1 E1" "http://cdn.example.com/show/s1e1.mkv"].
Proof. reflexivity. Qed.


(* ===================================================================== *)
(** * Pagination *)
(* ===================================================================== *)

Section Pages.

Lemma page_events_app (a b : log) :
  page_events (a ++ b)%list = (page_events a ++ page_events b)%list.
Proof.
  induction a as [|e a IH]; simpl; [reflexivity|].
  destruct e as [|rq rp| |]; try assumption.
  destruct (rq_site rq); simpl; now rewrite ?IH.
Qed.

Lemma page_events_not_page (evs : log) :
  Forall not_page evs -> page_events evs = [].
Proof.
  induction 1 as [|e evs He _ IH]; simpl; [reflexivity|].
  destruct e as [|rq rp| |]; try assumption.
  simpl in He. now destruct (rq_site rq).
Qed.

Lemma pages_chain_sequential (ps : list (Z * reply)) (n : nat) :
  pages_chain (Z.of_nat n) ps ->
  map fst ps = map Z.of_nat (seq n (List.length ps)).
Proof.
  revert n. induction ps as [|[q rp] ps IH]; intros n H; simpl; [reflexivity|].
  destruct H as (-> & _ & H). f_equal. apply IH.
  now rewrite Nat2Z.inj_succ, <- Z.add_1_r.
Qed.

Lemma pages_chain_stop (ps : list (Z * reply)) (p : Z) (i : nat) (q : Z) (rp : reply) :
  pages_chain p ps -> nth_error ps i = Some (q, rp) ->
  page_continues rp = false -> List.length ps = S i.
Proof.
  revert p i. induction ps as [|[q' rp'] ps IH]; intros p i H Hn Hs.
  - destruct i; discriminate Hn.
  - destruct H as (_ & Hlast & H). destruct i as [|i]; simpl in Hn.
    + injection Hn as -> ->. now rewrite (Hlast Hs).
    + simpl. f_equal. exact (IH _ _ H Hn Hs).
Qed.

(** After a page that does not continue, the next page is not asked for. *)
Lemma pages_chain_no_next (ps : list (Z * reply)) (N : Z) (rp : reply) :
  pages_chain 1 ps -> In (N, rp) ps -> page_continues rp = false ->
  ~ In (N + 1)%Z (map fst ps).
Proof.
  intros H Hin Hs Hnext.
  apply In_nth_error in Hin as [i Hi].
  pose proof (pages_chain_stop _ _ _ _ _ H Hi Hs) as Hlen.
  pose proof (pages_chain_sequential ps 1 H) as Hseq.
  assert (HN : N = Z.of_nat (S i)).
  { apply (f_equal (fun l => nth_error l i)) in Hseq.
    rewrite nth_error_map, Hi in Hseq. simpl in Hseq.
    rewrite nth_error_map, Hlen in Hseq.
    rewrite (nth_error_nth' _ 0%nat) in Hseq by (rewrite length_seq; lia).
    rewrite seq_nth in Hseq by lia. simpl in Hseq. now injection Hseq. }
  rewrite Hseq, Hlen in Hnext. apply in_map_iff in Hnext as (k & Hk & Hin).
  apply in_seq in Hin. lia.
Qed.

Lemma ends_with_stop_last (ps : list (Z * reply)) :
  ends_with_stop ps ->
  exists p rp, last ps (0%Z, NoResponse) = (p, rp) /\ page_continues rp = false.
Proof.
  induction ps as [|[q rp] ps IH]; simpl; [contradiction|].
  destruct ps as [|x ps]; [now exists q, rp | exact IH].
Qed.

Variables (W : world) (base_url : string) (headers : list (string * string)).

Lemma vod_save_vod_list_not_page (vod_data category_title : pyval) :
  adds not_page (MacVod.save_vod_list W vod_data base_url category_title).
Proof. unfold MacVod.save_vod_list, MacVod.fetch_play_link. adds_auto. Qed.

Lemma show_save_series_data_not_page (series_data category_title : pyval) :
  adds not_page
       (MacShow.save_series_data W series_data base_url headers category_title).
Proof.
  unfold MacShow.save_series_data, MacShow.save_seasons, MacShow.save_episodes,
    MacShow.get_seasons_episodes, MacShow.fetch_play_link.
  adds_auto.
Qed.

(** One page request: its event, and whether the loop goes on. *)
Lemma vod_get_vod_list_page (category_id : pyval) (page : Z) (st : log) :
  exists url,
    let rp := w_reply W (count is_get st) in
    snd (MacVod.get_vod_list W base_url headers category_id page st)
    = (st ++ [EGet {| rq_site := ItemPage page; rq_url := url;
                      rq_headers := headers |} rp])%list
    /\ match fst (MacVod.get_vod_list W base_url headers category_id page st) with
       | Ret vod_data => Py.truthy vod_data = page_continues rp
       | _ => page_continues rp = false
       end.
Proof.
  eexists. cbv zeta.
  unfold MacVod.get_vod_list, try_except, mbind, http_get, lift, mret, page_continues.
  destruct (w_reply W (count is_get st)) as [|r]; cbn; [now split|].
  destruct (status_code r =? 200)%Z; cbn; [|now split].
  destruct (json_loads r) as [data|e|]; cbn;
    try (try destruct (is_TransportError e); now split).
  destruct (Py.getitem data "js") as [js|e|]; cbn;
    try (try destruct (is_TransportError e); now split).
  destruct (Py.getitem js "data") as [d|e|]; cbn;
    try (try destruct (is_TransportError e); now split).
Qed.

Lemma show_get_series_list_page (category_id : pyval) (page : Z) (st : log) :
  exists url,
    let rp := w_reply W (count is_get st) in
    snd (MacShow.get_series_list W base_url headers category_id page st)
    = (st ++ [EGet {| rq_site := ItemPage page; rq_url := url;
                      rq_headers := headers |} rp])%list
    /\ match fst (MacShow.get_series_list W base_url headers category_id page st) with
       | Ret series_data => Py.truthy series_data = page_continues rp
       | _ => page_continues rp = false
       end.
Proof.
  eexists. cbv zeta.
  unfold MacShow.get_series_list, try_except, mbind, aio_get, lift, mret, page_continues.
  destruct (w_reply W (count is_get st)) as [|r]; cbn;
    [destruct (w_timeout W _); now split|].
  destruct (status_code r =? 200)%Z; cbn; [|now split].
  destruct (json_loads r) as [data|e|]; cbn;
    try (try destruct (is_TransportError e); now split).
  destruct (Py.getitem data "js") as [js|e|]; cbn;
    try (try destruct (is_TransportError e); now split).
  destruct (Py.getitem js "data") as [d|e|]; cbn;
    try (try destruct (is_TransportError e); now split).
Qed.

Lemma vod_pages_chain (fuel : nat) (category_id category_title : pyval)
      (page total_count : Z) (st : log) :
  exists evs,
    snd (MacVod.vod_pages W fuel base_url headers category_id category_title
                          page total_count st) = (st ++ evs)%list
    /\ pages_chain page (page_events evs)
    /\ forall total,
        fst (MacVod.vod_pages W fuel base_url headers category_id category_title
                              page total_count st) = Ret total ->
        ends_with_stop (page_events evs).
Proof.
  revert page total_count st. induction fuel as [|fuel IH]; intros; simpl.
  { exists []. rewrite app_nil_r. repeat split. discriminate. }
  unfold mbind.
  destruct (vod_get_vod_list_page category_id page st) as (url & E & Hc).
  cbv zeta in E, Hc.
  destruct (MacVod.get_vod_list W base_url headers category_id page st)
    as [[vod_data|e|] st1]; simpl in E, Hc; subst st1;
    try (eexists [_]; split; [reflexivity|]; cbn; repeat split; discriminate).
  destruct (Py.truthy vod_data) eqn:Ht; cbn [negb].
  2:{ eexists [_]. split; [reflexivity|]. cbn. repeat split.
      all: intros; congruence. }
  set (st1 := (st ++ _)%list).
  destruct (vod_save_vod_list_not_page vod_data category_title st1)
    as (evs1 & E1 & H1).
  apply page_events_not_page in H1.
  destruct (MacVod.save_vod_list W vod_data base_url category_title st1)
    as [[n|e|] st2]; simpl in E1; subst st2;
    try (eexists (_ :: evs1); subst st1; rewrite <- app_assoc;
         split; [reflexivity|]; cbn; rewrite H1; repeat split;
         congruence || discriminate).
  destruct (IH (page + 1)%Z (total_count + n)%Z (st1 ++ evs1)%list)
    as (evs2 & E2 & Hch & Hend).
  eexists (_ :: evs1 ++ evs2)%list. subst st1.
  split; [rewrite E2, <- !app_assoc; reflexivity|].
  cbn. rewrite page_events_app, H1. cbn. repeat split.
  - congruence.
  - exact Hch.
  - intros total Hr. specialize (Hend total Hr).
    destruct (page_events evs2); [contradiction | exact Hend].
Qed.

Lemma show_series_pages_chain (fuel : nat) (category_id category_title : pyval)
      (page total_count : Z) (st : log) :
  exists evs,
    snd (MacShow.series_pages W fuel base_url headers category_id category_title
                              page total_count st) = (st ++ evs)%list
    /\ pages_chain page (page_events evs)
    /\ forall total,
        fst (MacShow.series_pages W fuel base_url headers category_id
                                  category_title page total_count st) = Ret total ->
        ends_with_stop (page_events evs).
Proof.
  revert page total_count st. induction fuel as [|fuel IH]; intros; simpl.
  { exists []. rewrite app_nil_r. repeat split. discriminate. }
  unfold mbind.
  destruct (show_get_series_list_page category_id page st) as (url & E & Hc).
  cbv zeta in E, Hc.
  destruct (MacShow.get_series_list W base_url headers category_id page st)
    as [[series_data|e|] st1]; simpl in E, Hc; subst st1;
    try (eexists [_]; split; [reflexivity|]; cbn; repeat split; discriminate).
  destruct (Py.truthy series_data) eqn:Ht; cbn [negb].
  2:{ eexists [_]. split; [reflexivity|]. cbn. repeat split.
      all: intros; congruence. }
  set (st1 := (st ++ _)%list).
  destruct (show_save_series_data_not_page series_data category_title st1)
    as (evs1 & E1 & H1).
  apply page_events_not_page in H1.
  destruct (MacShow.save_series_data W series_data base_url headers category_title st1)
    as [[n|e|] st2]; simpl in E1; subst st2;
    try (eexists (_ :: evs1); subst st1; rewrite <- app_assoc;
         split; [reflexivity|]; cbn; rewrite H1; repeat split;
         congruence || discriminate).
  destruct (IH (page + 1)%Z (total_count + n)%Z (st1 ++ evs1)%list)
    as (evs2 & E2 & Hch & Hend).
  eexists (_ :: evs1 ++ evs2)%list. subst st1.
  split; [rewrite E2, <- !app_assoc; reflexivity|].
  cbn. rewrite page_events_app, H1. cbn. repeat split.
  - congruence.
  - exact Hch.
  - intros total Hr. specialize (Hend total Hr).
    destruct (page_events evs2); [contradiction | exact Hend].
Qed.

End Pages.


(** The log of [get_channel_list] after one request, and after two. *)
Ltac c9_one Hrun :=
  eexists [_]; repeat split; (reflexivity || exact Hrun).

Ltac c9_two st1 Hrun :=
  eexists [_; _]; subst st1; rewrite <- app_assoc;
  repeat split; (reflexivity || exact Hrun).

(** C9.  [get_channel_list] asks for the genres and, when that lookup
    succeeds, sends one [get_all_channels] request; it sends nothing else,
    whatever the portal answers and however many channels it lists: the
    channels are never paged, and no request of a run of [maclist.py] is a
    page request. *)
Theorem C9_channels_not_paged
  (W : world) (base_url : string) (headers : list (string * string)) (st : log) :
  let genres := {| rq_site := Genres;
                   rq_url := base_url ++ "/server/load.php?type=itv&action=get_genres&JsHttpRequest=1-xml";
                   rq_headers := headers |} in
  let all_channels := {| rq_site := AllChannels;
                         rq_url := base_url ++ "/portal.php?type=itv&action=get_all_channels&JsHttpRequest=1-xml";
                         rq_headers := headers |} in
  exists evs,
    snd (MacList.get_channel_list W base_url headers st) = (st ++ evs)%list
    /\ map fst (requests evs)
       = genres :: (if genres_ok (w_reply W (count is_get st))
                    then [all_channels] else [])
    /\ exists run, snd (MacList.main W st) = (st ++ run)%list
                   /\ page_events run = [].
Proof.
  intros genres all_channels.
  assert (Hrun : exists run, snd (MacList.main W st) = (st ++ run)%list
                             /\ page_events run = []).
  { assert (H : adds not_page (MacList.main W)).
    { unfold MacList.main, MacList.main_body, MacList.get_base_url,
        MacList.get_mac_address, MacList.get_token, MacList.get_subscription,
        MacList.get_channel_list, MacList.save_channel_list.
      adds_auto. }
    destruct (H st) as (run & E & Hn). exists run.
    split; [exact E | now apply page_events_not_page]. }
  revert Hrun. generalize (MacList.main W st). intros main_run Hrun.
  unfold MacList.get_channel_list, try_except, mbind, http_get, lift, mret, genres_ok.
  fold genres. fold all_channels.
  destruct (w_reply W (count is_get st)) as [|r]; [c9_one Hrun|].
  destruct (status_code r =? 200)%Z; [|c9_one Hrun].
  cbn [andb].
  destruct (json_loads r) as [data|e|]; cbn [rbind];
    try (try destruct (is_TransportError e); c9_one Hrun).
  destruct (Py.getitem data "js") as [id_genre|e|]; cbn [rbind];
    try (try destruct (is_TransportError e); c9_one Hrun).
  destruct (Py.iter id_genre) as [groups|e|]; cbn [rbind];
    try (try destruct (is_TransportError e); c9_one Hrun).
  destruct (MacList.genre_dict groups []) as [group_info|e|];
    try (try destruct (is_TransportError e); c9_one Hrun).
  set (st1 := (st ++ _)%list).
  destruct (w_reply W (count is_get st1)) as [|r3]; [c9_two st1 Hrun|].
  destruct (status_code r3 =? 200)%Z; [|c9_two st1 Hrun].
  destruct (json_loads r3) as [data3|e|];
    try (try destruct (is_TransportError e); c9_two st1 Hrun).
  destruct (Py.getitem data3 "js") as [js3|e|];
    try (try destruct (is_TransportError e); c9_two st1 Hrun).
  destruct (Py.getitem js3 "data") as [channels_data|e|];
    try destruct (is_TransportError e); c9_two st1 Hrun.
Qed.

Lemma stops_as_specified_stops (rp : reply) :
  stops_as_specified rp = true -> page_continues rp = false.
Proof.
  destruct rp as [|r]; [reflexivity|]. unfold stops_as_specified, page_continues.
  destruct (status_code r =? 200)%Z; [|reflexivity]. cbn.
  unfold json_loads. destruct (parsed r) as [data|]; [|reflexivity]. cbn.
  destruct (Py.getitem data "js") as [js|e|]; cbn; try reflexivity.
  destruct (Py.getitem js "data") as [[| | | |[|x l]|]|e|]; cbn;
    reflexivity || discriminate.
Qed.

(** C2, as the scripts have it.  The pages of a category are asked for
    one after the other from page 1.  A page that does not continue (no
    response, a status other than 200, a body that is not JSON or that
    lacks [js.data], or a [js.data] that is empty or otherwise false) is
    the last one asked for; the three conditions that the specification
    names are among these.  When the crawl of the category returns
    normally, the last page asked for is one that does not continue. *)
Theorem C2_pagination
  (W : world) (fuel : nat) (base_url : string)
  (headers : list (string * string)) (category : pyval) (st : log) :
  (exists evs,
      snd (MacVod.fetch_and_save_vods W fuel base_url headers category st)
      = (st ++ evs)%list
      /\ map fst (page_events evs)
         = map Z.of_nat (seq 1 (List.length (page_events evs)))
      /\ (forall N rp, In (N, rp) (page_events evs) ->
                       page_continues rp = false ->
                       ~ In (N + 1)%Z (map fst (page_events evs)))
      /\ (forall total,
             fst (MacVod.fetch_and_save_vods W fuel base_url headers category st)
             = Ret total ->
             page_events evs <> [] ->
             exists N rp, last (page_events evs) (0%Z, NoResponse) = (N, rp)
                          /\ page_continues rp = false))
  /\ (exists evs,
         snd (MacShow.fetch_and_save_series W fuel base_url headers category st)
         = (st ++ evs)%list
         /\ map fst (page_events evs)
            = map Z.of_nat (seq 1 (List.length (page_events evs)))
         /\ (forall N rp, In (N, rp) (page_events evs) ->
                          page_continues rp = false ->
                          ~ In (N + 1)%Z (map fst (page_events evs)))
         /\ (forall total,
                fst (MacShow.fetch_and_save_series W fuel base_url headers category st)
                = Ret total ->
                page_events evs <> [] ->
                exists N rp, last (page_events evs) (0%Z, NoResponse) = (N, rp)
                             /\ page_continues rp = false))
  /\ (forall rp, stops_as_specified rp = true -> page_continues rp = false).
Proof.
  assert (Hnone : forall (x : result Z * log), snd x = st ->
            exists evs, snd x = (st ++ evs)%list
              /\ map fst (page_events evs)
                 = map Z.of_nat (seq 1 (List.length (page_events evs)))
              /\ (forall N rp, In (N, rp) (page_events evs) ->
                               page_continues rp = false ->
                               ~ In (N + 1)%Z (map fst (page_events evs)))
              /\ (forall total, fst x = Ret total -> page_events evs <> [] ->
                    exists N rp, last (page_events evs) (0%Z, NoResponse) = (N, rp)
                                 /\ page_continues rp = false)).
  { intros x Hx. exists []. rewrite app_nil_r. repeat split; try assumption.
    - intros N rp [].
    - intros total _ Hne. now contradiction Hne. }
  split; [|split; [|exact stops_as_specified_stops]].
  - unfold MacVod.fetch_and_save_vods, mbind, lift, mret.
    destruct (Py.getitem category "id") as [id|e|]; try (now apply Hnone).
    destruct (Py.getitem category "title") as [title|e|]; try (now apply Hnone).
    destruct (Py.eq_str id "*"); [now apply Hnone|].
    destruct (vod_pages_chain W base_url headers fuel id title 1%Z 0%Z st)
      as (evs & E & Hch & Hend).
    exists evs. repeat split.
    + exact E.
    + exact (pages_chain_sequential _ 1 Hch).
    + intros N rp. now apply pages_chain_no_next.
    + intros total Hr _. exact (ends_with_stop_last _ (Hend total Hr)).
  - unfold MacShow.fetch_and_save_series, mbind, lift, mret.
    destruct (Py.getitem category "id") as [id|e|]; try (now apply Hnone).
    destruct (Py.getitem category "title") as [title|e|]; try (now apply Hnone).
    destruct (show_series_pages_chain W base_url headers fuel id title 1%Z 0%Z st)
      as (evs & E & Hch & Hend).
    exists evs. repeat split.
    + exact E.
    + exact (pages_chain_sequential _ 1 Hch).
    + intros N rp. now apply pages_chain_no_next.
    + intros total Hr _. exact (ends_with_stop_last _ (Hend total Hr)).
Qed.

(** C2 as stated fails: here the portal does not answer the request for
    page 1.  The crawl of the category returns at once, with fuel left and
    page 2 never asked for, although the fetch of page 1 gave neither an
    empty list nor a status other than 200 nor a body that is not JSON. *)
Lemma C2_no_response_counterexample :
  let W := Demo.world_of [] [NoResponse] in
  let run := MacVod.fetch_and_save_vods W 5 "http://example.com:8080"
               (bearer W (PStr "T0K3N"))
               (PDict [("id", PStr "5"); ("title", PStr "Action")]) [] in
  fst run = Ret 0%Z
  /\ page_events (snd run) = [(1%Z, NoResponse)]
  /\ stops_as_specified NoResponse = false.
Proof. vm_compute. repeat split. Qed.


(* ===================================================================== *)
(** * The stream resolver on failures *)
(* ===================================================================== *)

(** No response and a status other than 200 give "no link". *)
Lemma vod_fetch_play_link_no_link
  (W : world) (base_url cmd : string) (st : log) :
  match w_reply W (count is_get st) with
  | NoResponse => True
  | Responded r => (status_code r =? 200)%Z = false
  end ->
  fst (MacVod.fetch_play_link W base_url (PStr cmd) st) = Ret None.
Proof.
  unfold MacVod.fetch_play_link, try_except, mbind, http_get, lift, mret, play_link_of.
  cbn. destruct (w_reply W (count is_get st)) as [|r]; cbn; [reflexivity|].
  now intros ->.
Qed.

(** In [macshow.py] a request that times out is not a "no link": the
    [asyncio.TimeoutError] is not an [aiohttp.ClientError]. *)
Lemma show_fetch_play_link_no_link
  (W : world) (base_url cmd : string) (episode_num : pyval) (st : log) :
  match w_reply W (count is_get st) with
  | NoResponse => w_timeout W (count is_get st) = false
  | Responded r => (status_code r =? 200)%Z = false
  end ->
  fst (MacShow.fetch_play_link W base_url cmd episode_num st) = Ret None.
Proof.
  unfold MacShow.fetch_play_link, try_except, mbind, aio_get, lift, mret, play_link_of.
  cbn. destruct (w_reply W (count is_get st)) as [|r]; cbn; now intros ->.
Qed.

Lemma show_fetch_play_link_timeout
  (W : world) (base_url cmd : string) (episode_num : pyval) (st : log) :
  w_reply W (count is_get st) = NoResponse ->
  w_timeout W (count is_get st) = true ->
  fst (MacShow.fetch_play_link W base_url cmd episode_num st) = Raise TimeoutError.
Proof.
  unfold MacShow.fetch_play_link, try_except, mbind, aio_get, lift, mret, play_link_of.
  cbn. now intros -> ->.
Qed.

(** C3 fails on the code for a malformed response.  A 200 response whose
    [js.cmd] has a single token makes [fetch_play_link] raise
    [IndexError], and one whose body is not JSON makes it raise
    [JSONDecodeError], in both scripts: neither is caught by the handler
    of the function.  In [save_vod_list] the exception ends the batch: the
    second movie of the page, for which the portal has a link, is never
    submitted and nothing is written. *)
Theorem C3_malformed_link_escapes :
  let W := DemoMalformed.portal in
  let W' := DemoMalformed.portal_not_json in
  let base_url := "http://example.com:8080" in
  let batch := MacVod.save_vod_list W DemoMalformed.page base_url (PStr "Action") [] in
  fst (MacVod.fetch_play_link W base_url (PStr "ffmpeg http://vod.example.com/1.mp4") [])
  = Raise IndexError
  /\ fst (MacShow.fetch_play_link W base_url (w_cmd W "7" 1%Z) (PInt 1) [])
     = Raise IndexError
  /\ fst (MacVod.fetch_play_link W' base_url (PStr "ffmpeg http://vod.example.com/1.mp4") [])
     = Raise JSONDecodeError
  /\ fst (MacShow.fetch_play_link W' base_url (w_cmd W' "7" 1%Z) (PInt 1) [])
     = Raise JSONDecodeError
  /\ fst batch = Raise IndexError
  /\ List.length (requests (snd batch)) = 1%nat
  /\ written (snd batch) = [].
Proof. vm_compute. repeat split. Qed.

(* ===================================================================== *)
(** * The handler of [main] *)
(* ===================================================================== *)

Section Retry.

Lemma is_Exception_not_interrupt (e : exn) :
  is_Exception e = true -> is_KeyboardInterrupt e = false.
Proof. now destruct e. Qed.

Lemma count_app (p : event -> bool) (a b : log) :
  count p (a ++ b)%list = (count p a + count p b)%nat.
Proof. unfold count. now rewrite filter_app, length_app. Qed.

Variables (W : world) (fuel : nat).

(** A run of the [try] block begins with the prompt for the link. *)
Lemma try_block_prompts (s : retrying) (st : log) :
  exists evs,
    snd (try_block s W fuel st)
    = (st ++ EInput "Enter IPTV link: " :: evs)%list.
Proof.
  destruct s; cbn [try_block].
  - unfold MacVod.main_body. unfold mbind at 1.
    assert (Hb : exists r, MacVod.get_base_url W st
                           = (r, (st ++ [EInput "Enter IPTV link: "])%list)).
    { unfold MacVod.get_base_url, mbind, input_colored, lift, mret.
      destruct (w_input W (count is_input st)) as [l| |]; try (now eexists).
      destruct (w_urlparse W l) as [[h p]| |]; now eexists. }
    destruct Hb as [r Hb]. rewrite Hb.
    destruct r as [b|e|]; try (now exists []).
    lazymatch goal with
    | |- exists evs, snd (?m ?st1) = _ =>
        assert (H : adds (well_sent W b) m) by adds_auto;
        destruct (H st1) as (evs & E & _); exists evs;
        rewrite E, <- app_assoc; reflexivity
    end.
  - unfold MacShow.main_body. unfold mbind at 1.
    assert (Hb : exists r, MacShow.get_base_url W st
                           = (r, (st ++ [EInput "Enter IPTV link: "])%list)).
    { unfold MacShow.get_base_url, mbind, input_colored, lift, mret.
      destruct (w_input W (count is_input st)) as [l| |]; try (now eexists).
      destruct (w_urlparse W l) as [[h p]| |]; now eexists. }
    destruct Hb as [r Hb]. rewrite Hb.
    destruct r as [b|e|]; try (now exists []).
    lazymatch goal with
    | |- exists evs, snd (?m ?st1) = _ =>
        assert (H : adds (well_sent W b) m) by adds_auto;
        destruct (H st1) as (evs & E & _); exists evs;
        rewrite E, <- app_assoc; reflexivity
    end.
Qed.

Lemma main_of_unfold (s : retrying) (depth : nat) (st : log) :
  main_of s W depth fuel st
  = match try_block s W fuel st with
    | (Raise e, st') =>
        if is_KeyboardInterrupt e then (Raise SystemExit, st')
        else if is_Exception e then
          match depth with
          | O => (Raise RecursionError, st')
          | S depth' => main_of s W depth' fuel st'
          end
        else (Raise e, st')
    | other => other
    end.
Proof. destruct s, depth; reflexivity. Qed.

End Retry.

(** C1, as the scripts have it.  In [macvod.py] and [macshow.py], when
    the [try] block of [main] ends in an exception that [except Exception]
    catches, [main] is called again from the handler: after [k] such
    failures in a row the outcome of the run is the outcome of a further
    call of [main] on the log they left, the link has been asked for at
    least [k] more times, and when the next run of the [try] block
    returns, the run as a whole returns without any failure. *)
Theorem C1_main_runs_again
  (s : retrying) (W : world) (fuel k depth : nat) (st : log) :
  attempts_fail (try_block s W fuel) k st ->
  let st' := after_attempts (try_block s W fuel) k st in
  main_of s W (k + depth) fuel st = main_of s W depth fuel st'
  /\ (count is_link_prompt st + k <= count is_link_prompt st')%nat
  /\ (fst (try_block s W fuel st') = Ret tt ->
      main_of s W (k + depth) fuel st = try_block s W fuel st').
Proof.
  cbv zeta. revert st. induction k as [|k IH]; intros st Hfail.
  - cbn [after_attempts Nat.add]. repeat split; [lia|].
    intros Hr. rewrite main_of_unfold.
    destruct (try_block s W fuel st) as [[[]|e|] st1]; try reflexivity.
    discriminate Hr.
  - destruct Hfail as [(e & He & Hexc) Hfail].
    destruct (IH _ Hfail) as (IH1 & IH2 & IH3).
    cbn [after_attempts].
    assert (Hstep : main_of s W (S k + depth) fuel st
                    = main_of s W (k + depth) fuel (snd (try_block s W fuel st))).
    { rewrite main_of_unfold.
      destruct (try_block s W fuel st) as [r st1]. cbn in He |- *. subst r.
      now rewrite (is_Exception_not_interrupt _ Hexc), Hexc. }
    repeat split.
    + now rewrite Hstep.
    + destruct (try_block_prompts W fuel s st) as [evs E].
      set (stk := after_attempts _ _ _) in *. clearbody stk.
      rewrite E, count_app in IH2.
      change (count is_link_prompt (EInput "Enter IPTV link: " :: evs))
        with (S (count is_link_prompt evs)) in IH2.
      lia.
    + intros Hr. rewrite Hstep. now apply IH3.
Qed.

Lemma C1_witness :
  let st' := after_attempts (try_block Vod DemoRetry.portal 3) 1 [] in
  main_of Vod DemoRetry.portal (1 + 2) 3 [] = main_of Vod DemoRetry.portal 2 3 st'
  /\ (count is_link_prompt [] + 1 <= count is_link_prompt st')%nat
  /\ (fst (try_block Vod DemoRetry.portal 3 st') = Ret tt ->
      main_of Vod DemoRetry.portal (1 + 2) 3 []
      = try_block Vod DemoRetry.portal 3 st').
Proof.
  apply (C1_main_runs_again Vod DemoRetry.portal 3 1 2 []).
  split; [exists KeyError; split; reflexivity | exact I].
Defined.

(** C1 as stated fails: the first handshake of this run of [macvod.py]
    answers without a token, the [KeyError] leaves the [try] block, and
    [main] runs again: the user is asked for the link a second time, a
    second handshake is sent, and the run returns with no failure at all. *)
Lemma C1_rerun_counterexample :
  let run := MacVod.main DemoRetry.portal 3 3 [] in
  fst (MacVod.main_body DemoRetry.portal 3 []) = Raise KeyError
  /\ fst run = Ret tt
  /\ count is_link_prompt (snd run) = 2%nat
  /\ map (fun x => rq_site (fst x)) (requests (snd run)) = [Handshake; Handshake].
Proof. vm_compute. repeat split. Qed.


(* ===================================================================== *)
(** * The scenarios of the specification, run *)
(* ===================================================================== *)

(** Scenario A, from the prompt to the playlist. *)
Example scenario_A_playlist :
  let run := MacList.main Demo.world_A [] in
  fst run = Ret tt
  /\ written (snd run)
     = [Header;
        Entry (PStr "") (PStr "News") (PStr "Ch1")
              "http://example.com:8080/play/live.php?mac=00:1A:79:AA:BB:CC&stream=42&extension=ts"]
  /\ map (fun x => rq_site (fst x)) (requests (snd run))
     = [Handshake; AccountInfo; Genres; AllChannels].
Proof. vm_compute. repeat split. Qed.

Example scenario_A_text :
  String.concat "" (map (render Demo.world_A) (written (snd (MacList.main Demo.world_A []))))
  = "#EXTM3U" ++ nl
    ++ "#EXTINF:-1 tvg-logo=" ++ dq ++ dq ++ " group-title=" ++ dq ++ "News" ++ dq
    ++ ",Ch1" ++ nl
    ++ "http://example.com:8080/play/live.php?mac=00:1A:79:AA:BB:CC&stream=42&extension=ts"
    ++ nl.
Proof. vm_compute. reflexivity. Qed.

(** Scenario B: a page with one movie, then an empty page: two page
    requests, and the movie of page 1 written. *)
Example scenario_B_two_pages :
  let run := MacVod.main DemoVod.portal 3 5 [] in
  fst run = Ret tt
  /\ map fst (page_events (snd run)) = [1%Z; 2%Z]
  /\ written (snd run)
     = [Header;
        Entry (PStr "http://img.example.com/1.jpg") (PStr "Action") (PStr "Film")
              "http://cdn.example.com/film.mp4?token=abc"].
Proof. vm_compute. repeat split. Qed.

(** An [https] link with a path and a query, and no port. *)
Example https_link_downgraded :
  let W := Demo.world_of ["https://tv.example.org/stalker_portal/c/?x=1"] [] in
  fst (MacList.get_base_url W []) = Ret "http://tv.example.org:80"
  /\ fst (MacVod.get_base_url W []) = Ret "http://tv.example.org:80"
  /\ fst (MacShow.get_base_url W []) = Ret "http://tv.example.org:80".
Proof. vm_compute. repeat split. Qed.

(** Scenario C: the account request answers 403: no catalog request, no
    file. *)
Example scenario_C_no_subscription :
  let W := Demo.world_of ["http://example.com:8080/c/"; "00:1a:79:aa:bb:cc"]
                         [Demo.handshake_ok; Demo.status 403] in
  let run := MacVod.main W 3 5 [] in
  fst run = Ret tt
  /\ map (fun x => rq_site (fst x)) (requests (snd run)) = [Handshake; AccountInfo]
  /\ count is_open (snd run) = 0%nat.
Proof. vm_compute. repeat split. Qed.


(* ===================================================================== *)
(** * The events of the scripts, for any property of events *)
(* ===================================================================== *)

(** Every function of the three scripts, for a property [P] of events
    that holds of the prompts, of the requests without headers, of the
    requests with the bearer token [token] and of the writes of entries. *)
Create HintDb any_adds.

Section AnyProperty.

Variables (W : world) (token : pyval) (P : event -> Prop).

Hypothesis P_input : forall prompt, P (EInput prompt).
Hypothesis P_bare :
  forall site url rp,
    P (EGet {| rq_site := site; rq_url := url; rq_headers := [] |} rp).
Hypothesis P_auth :
  forall site url rp,
    P (EGet {| rq_site := site; rq_url := url; rq_headers := bearer W token |} rp).
Hypothesis P_entry : forall c, chunk_url c <> None -> P (EWrite c).

Ltac any_auto :=
  repeat first [ solve [auto 1 with any_adds nocore] | adds_step ];
  first [ apply P_input | apply P_bare | apply P_auth
        | apply P_entry; discriminate ].

Variable base_url : string.

Lemma any_get_base_url :
  adds P (MacList.get_base_url W) /\ adds P (MacVod.get_base_url W)
  /\ adds P (MacShow.get_base_url W).
Proof.
  unfold MacList.get_base_url, MacVod.get_base_url, MacShow.get_base_url.
  repeat split; any_auto.
Qed.

Lemma any_get_mac_address :
  adds P (MacList.get_mac_address W) /\ adds P (MacVod.get_mac_address W)
  /\ adds P (MacShow.get_mac_address W).
Proof.
  unfold MacList.get_mac_address, MacVod.get_mac_address, MacShow.get_mac_address.
  repeat split; any_auto.
Qed.

Lemma any_get_token :
  adds P (MacList.get_token W base_url) /\ adds P (MacVod.get_token W base_url)
  /\ adds P (MacShow.get_token W base_url).
Proof.
  unfold MacList.get_token, MacVod.get_token, MacShow.get_token.
  repeat split; any_auto.
Qed.

Lemma any_get_subscription :
  adds P (MacList.get_subscription W base_url token)
  /\ adds P (MacVod.get_subscription W base_url token)
  /\ adds P (MacShow.get_subscription W base_url token).
Proof.
  unfold MacList.get_subscription, MacVod.get_subscription, MacShow.get_subscription.
  repeat split; any_auto.
Qed.

Lemma any_get_channel_list :
  adds P (MacList.get_channel_list W base_url (bearer W token)).
Proof. unfold MacList.get_channel_list. any_auto. Qed.

Lemma any_get_categories :
  adds P (MacVod.get_vod_categories W base_url (bearer W token))
  /\ adds P (MacShow.get_series_categories W base_url (bearer W token)).
Proof.
  unfold MacVod.get_vod_categories, MacShow.get_series_categories.
  split; any_auto.
Qed.

Lemma any_get_vod_list (category_id : pyval) (page : Z) :
  adds P (MacVod.get_vod_list W base_url (bearer W token) category_id page).
Proof. unfold MacVod.get_vod_list. any_auto. Qed.

Lemma any_get_series_list (category_id : pyval) (page : Z) :
  adds P (MacShow.get_series_list W base_url (bearer W token) category_id page).
Proof. unfold MacShow.get_series_list. any_auto. Qed.

Lemma any_save_vod_list (vod_data category_title : pyval) :
  adds P (MacVod.save_vod_list W vod_data base_url category_title).
Proof. unfold MacVod.save_vod_list, MacVod.fetch_play_link. any_auto. Qed.

Lemma any_save_series_data (series_data category_title : pyval) :
  adds P (MacShow.save_series_data W series_data base_url (bearer W token)
                                   category_title).
Proof.
  unfold MacShow.save_series_data, MacShow.save_seasons, MacShow.save_episodes,
    MacShow.get_seasons_episodes, MacShow.fetch_play_link.
  any_auto.
Qed.

Hint Resolve any_get_vod_list any_get_series_list any_save_vod_list
  any_save_series_data : any_adds.

Lemma any_vod_pages (fuel : nat) (category_id category_title : pyval)
      (page total_count : Z) :
  adds P (MacVod.vod_pages W fuel base_url (bearer W token) category_id
                           category_title page total_count).
Proof.
  revert page total_count. induction fuel as [|fuel IH]; intros; simpl.
  - apply adds_lift.
  - repeat first [ solve [auto 1 with any_adds nocore] | adds_step ].
Qed.

Lemma any_series_pages (fuel : nat) (category_id category_title : pyval)
      (page total_count : Z) :
  adds P (MacShow.series_pages W fuel base_url (bearer W token) category_id
                               category_title page total_count).
Proof.
  revert page total_count. induction fuel as [|fuel IH]; intros; simpl.
  - apply adds_lift.
  - repeat first [ solve [auto 1 with any_adds nocore] | adds_step ].
Qed.

Hint Resolve any_vod_pages any_series_pages : any_adds.

Lemma any_fetch_and_save_vods (fuel : nat) (category : pyval) :
  adds P (MacVod.fetch_and_save_vods W fuel base_url (bearer W token) category).
Proof.
  unfold MacVod.fetch_and_save_vods.
  repeat first [ solve [auto 1 with any_adds nocore] | adds_step ].
Qed.

Lemma any_fetch_and_save_series (fuel : nat) (category : pyval) :
  adds P (MacShow.fetch_and_save_series W fuel base_url (bearer W token) category).
Proof.
  unfold MacShow.fetch_and_save_series.
  repeat first [ solve [auto 1 with any_adds nocore] | adds_step ].
Qed.

Hint Resolve any_fetch_and_save_vods any_fetch_and_save_series : any_adds.

Lemma any_submit_all (fuel : nat) (categories : list pyval) :
  adds P (MacVod.submit_all W fuel base_url (bearer W token) categories).
Proof.
  induction categories as [|category rest IH]; simpl;
    repeat first [ solve [auto 1 with any_adds nocore] | adds_step ].
Qed.

Lemma any_report (futures : list (result Z * pyval)) : adds P (MacVod.report futures).
Proof.
  unfold MacVod.report. repeat first [ solve [auto 1 with any_adds nocore] | adds_step ].
Qed.

Lemma any_crawl_categories (fuel : nat) (categories : list pyval) :
  adds P (MacShow.crawl_categories W fuel base_url (bearer W token) categories).
Proof.
  unfold MacShow.crawl_categories.
  repeat first [ solve [auto 1 with any_adds nocore] | adds_step ].
Qed.

End AnyProperty.


(* ===================================================================== *)
(** * The session of a run *)
(* ===================================================================== *)

Lemma mbind_run {A B : Type} (m : M A) (f : A -> M B) (st : log) :
  mbind m f st
  = match m st with
    | (Ret a, st') => f a st'
    | (Raise e, st') => (Raise e, st')
    | (OutOfFuel, st') => (OutOfFuel, st')
    end.
Proof. reflexivity. Qed.

Section Sessions.

Variable W : world.

(** A branch of [get_token] that gives no true token. *)
Ltac no_token :=
  cbn; split; [reflexivity | intros token [= <-]; cbn; discriminate].

(** The handshake: one request without header; a true token comes from
    the reply. *)
Lemma list_get_token_event (base_url : string) (st : log) :
  exists hs rp,
    rq_site hs = Handshake /\ rq_headers hs = []
    /\ snd (MacList.get_token W base_url st) = (st ++ [EGet hs rp])%list
    /\ forall token, fst (MacList.get_token W base_url st) = Ret token ->
                     Py.truthy token = true ->
                     exists r1, rp = Responded r1 /\ handshake_token r1 = Ret token.
Proof.
  exists {| rq_site := Handshake;
            rq_url := base_url ++ "/portal.php?action=handshake&type=stb&token=&JsHttpRequest=1-xml";
            rq_headers := [] |}, (w_reply W (count is_get st)).
  split; [reflexivity|]. split; [reflexivity|].
  unfold MacList.get_token, try_except, mbind, http_get, lift, mret, handshake_token.
  destruct (w_reply W (count is_get st)) as [|r]; [no_token|]. cbn.
  destruct (json_loads r) as [data|e|] eqn:E1;
    try (try destruct (is_Transport_or_JSON e); no_token). cbn.
  destruct (Py.getitem data "js") as [js|e|] eqn:E2;
    try (try destruct (is_Transport_or_JSON e); no_token). cbn.
  destruct (Py.getitem js "token") as [t|e|] eqn:E3;
    try (try destruct (is_Transport_or_JSON e); no_token). cbn.
  split; [reflexivity|]. intros token [= <-] _. exists r.
  split; [reflexivity|]. rewrite E1. cbn. rewrite E2. cbn. exact E3.
Qed.

Lemma vod_get_token_event (base_url : string) (st : log) :
  exists hs rp,
    rq_site hs = Handshake /\ rq_headers hs = []
    /\ snd (MacVod.get_token W base_url st) = (st ++ [EGet hs rp])%list
    /\ forall token, fst (MacVod.get_token W base_url st) = Ret token ->
                     Py.truthy token = true ->
                     exists r1, rp = Responded r1 /\ handshake_token r1 = Ret token.
Proof. exact (list_get_token_event base_url st). Qed.

Lemma show_get_token_event (base_url : string) (st : log) :
  exists hs rp,
    rq_site hs = Handshake /\ rq_headers hs = []
    /\ snd (MacShow.get_token W base_url st) = (st ++ [EGet hs rp])%list
    /\ forall token, fst (MacShow.get_token W base_url st) = Ret token ->
                     Py.truthy token = true ->
                     exists r1, rp = Responded r1 /\ handshake_token r1 = Ret token.
Proof.
  exists {| rq_site := Handshake;
            rq_url := base_url ++ "/portal.php?action=handshake&type=stb&token=&JsHttpRequest=1-xml";
            rq_headers := [] |}, (w_reply W (count is_get st)).
  split; [reflexivity|]. split; [reflexivity|].
  unfold MacShow.get_token, try_except, mbind, aio_get, lift, mret, handshake_token.
  destruct (w_reply W (count is_get st)) as [|r];
    [destruct (w_timeout W _); no_token|].
  destruct (startswith "text/javascript" (content_type r)); [|no_token].
  destruct (json_loads r) as [data|e|] eqn:E1;
    try (try destruct (is_Transport_or_JSON e); no_token). cbn.
  destruct (Py.getitem data "js") as [js|e|] eqn:E2;
    try (try destruct (is_Transport_or_JSON e); no_token). cbn.
  destruct (Py.getitem js "token") as [t|e|] eqn:E3;
    try (try destruct (is_Transport_or_JSON e); no_token). cbn.
  split; [reflexivity|]. intros token [= <-] _. exists r.
  split; [reflexivity|]. rewrite E1. cbn. rewrite E2. cbn. exact E3.
Qed.

(** A branch of [get_subscription] that does not give [True]. *)
Ltac not_subscribed := cbn; split; [reflexivity | discriminate].

(** The account request: one request with the token; [True] comes from a
    reply with status 200. *)
Lemma list_get_subscription_event (base_url : string) (token : pyval) (st : log) :
  exists acc rp,
    rq_site acc = AccountInfo /\ rq_headers acc = bearer W token
    /\ snd (MacList.get_subscription W base_url token st) = (st ++ [EGet acc rp])%list
    /\ (fst (MacList.get_subscription W base_url token st) = Ret true ->
        exists r2, rp = Responded r2 /\ status_code r2 = 200%Z).
Proof.
  exists {| rq_site := AccountInfo;
            rq_url := base_url ++ "/portal.php?type=account_info&action=get_main_info&JsHttpRequest=1-xml";
            rq_headers := bearer W token |}, (w_reply W (count is_get st)).
  split; [reflexivity|]. split; [reflexivity|].
  unfold MacList.get_subscription, try_except, mbind, http_get, lift, mret.
  destruct (w_reply W (count is_get st)) as [|r]; [not_subscribed|]. cbn.
  destruct (Z.eqb_spec (status_code r) 200) as [E200|]; [|not_subscribed].
  destruct (json_loads r) as [data|e|];
    try (try destruct (is_TransportError e); not_subscribed). cbn.
  destruct (Py.getitem data "js") as [js|e|];
    try (try destruct (is_TransportError e); not_subscribed). cbn.
  destruct (Py.getitem js "mac") as [m|e|];
    try (try destruct (is_TransportError e); not_subscribed). cbn.
  destruct (Py.getitem js "phone") as [p|e|];
    try (try destruct (is_TransportError e); not_subscribed). cbn.
  split; [reflexivity|]. intros _. now exists r.
Qed.

Lemma vod_get_subscription_event (base_url : string) (token : pyval) (st : log) :
  exists acc rp,
    rq_site acc = AccountInfo /\ rq_headers acc = bearer W token
    /\ snd (MacVod.get_subscription W base_url token st) = (st ++ [EGet acc rp])%list
    /\ (fst (MacVod.get_subscription W base_url token st) = Ret true ->
        exists r2, rp = Responded r2 /\ status_code r2 = 200%Z).
Proof. exact (list_get_subscription_event base_url token st). Qed.

Lemma show_get_subscription_event (base_url : string) (token : pyval) (st : log) :
  exists acc rp,
    rq_site acc = AccountInfo /\ rq_headers acc = bearer W token
    /\ snd (MacShow.get_subscription W base_url token st) = (st ++ [EGet acc rp])%list
    /\ (fst (MacShow.get_subscription W base_url token st) = Ret true ->
        exists r2, rp = Responded r2 /\ status_code r2 = 200%Z).
Proof.
  exists {| rq_site := AccountInfo;
            rq_url := base_url ++ "/portal.php?type=account_info&action=get_main_info&JsHttpRequest=1-xml";
            rq_headers := bearer W token |}, (w_reply W (count is_get st)).
  split; [reflexivity|]. split; [reflexivity|].
  unfold MacShow.get_subscription, try_except, mbind, aio_get, lift, mret.
  destruct (w_reply W (count is_get st)) as [|r];
    [destruct (w_timeout W _); not_subscribed|]. cbn.
  destruct (Z.eqb_spec (status_code r) 200) as [E200|]; [|not_subscribed].
  destruct (json_loads r) as [data|e|];
    try (try destruct (is_TransportError e); not_subscribed). cbn.
  destruct (Py.getitem data "js") as [js|e|];
    try (try destruct (is_TransportError e); not_subscribed). cbn.
  destruct (Py.getitem js "mac") as [m|e|];
    try (try destruct (is_TransportError e); not_subscribed). cbn.
  destruct (Py.getitem js "phone") as [p|e|];
    try (try destruct (is_TransportError e); not_subscribed). cbn.
  split; [reflexivity|]. intros _. now exists r.
Qed.

End Sessions.


Section SessionOfARun.

Variable W : world.

Lemma only_input_prompt (prompt : string) : only_input (EInput prompt).
Proof. reflexivity. Qed.

Lemma with_token_auth (token : pyval) (site : callsite) (url : string) (rp : reply) :
  with_token W token
    (EGet {| rq_site := site; rq_url := url; rq_headers := bearer W token |} rp).
Proof. reflexivity. Qed.

Lemma crawl_event_bare (token : pyval) (site : callsite) (url : string) (rp : reply) :
  crawl_event W token
    (EGet {| rq_site := site; rq_url := url; rq_headers := [] |} rp).
Proof. now left. Qed.

Lemma crawl_event_auth (token : pyval) (site : callsite) (url : string) (rp : reply) :
  crawl_event W token
    (EGet {| rq_site := site; rq_url := url; rq_headers := bearer W token |} rp).
Proof. now right. Qed.

Lemma crawl_event_entry (token : pyval) (c : chunk) :
  chunk_url c <> None -> crawl_event W token (EWrite c).
Proof. exact (fun H => H). Qed.

(** The end of a case of the session lemmas: the prompts [ins] and the
    session [tail]. *)
Ltac session_is ins tail :=
  exists ins, tail; split;
  [ cbn [snd]; rewrite ?app_nil_r; repeat rewrite <- app_assoc; cbn [app];
    reflexivity
  | split;
    [ rewrite ?Forall_app; repeat split; assumption
    | ] ].

Lemma vod_session (fuel : nat) (st : log) :
  exists ins tail,
    snd (MacVod.main_body W fuel st) = (st ++ ins ++ tail)%list
    /\ Forall only_input ins /\ session W tail.
Proof.
  unfold MacVod.main_body.
  rewrite mbind_run.
  destruct (proj1 (proj2 (any_get_base_url W only_input only_input_prompt)) st)
    as (evs1 & E1 & F1).
  destruct (MacVod.get_base_url W st) as [[base_url|e|] st1]; cbn [snd] in E1; subst st1.
  2,3: session_is evs1 (@nil event); constructor.
  rewrite mbind_run.
  destruct (proj1 (proj2 (any_get_mac_address W only_input only_input_prompt))
                  (st ++ evs1)%list) as (evs2 & E2 & F2).
  destruct (MacVod.get_mac_address W (st ++ evs1)%list) as [[mac|e|] st2];
    cbn [snd] in E2; subst st2.
  2,3: session_is (evs1 ++ evs2)%list (@nil event); constructor.
  rewrite mbind_run.
  destruct (vod_get_token_event W base_url ((st ++ evs1) ++ evs2)%list)
    as (hs & rp1 & Hs1 & Hh1 & E3 & Htok).
  destruct (MacVod.get_token W base_url ((st ++ evs1) ++ evs2)%list)
    as [[token|e|] st3]; cbn [fst snd] in E3, Htok; subst st3.
  2,3: session_is (evs1 ++ evs2)%list [EGet hs rp1]; now constructor.
  destruct (Py.truthy token) eqn:Ht;
    [|session_is (evs1 ++ evs2)%list [EGet hs rp1]; now constructor].
  destruct (Htok token eq_refl Ht) as (r1 & -> & Hr1).
  rewrite mbind_run.
  destruct (vod_get_subscription_event W base_url token
              (((st ++ evs1) ++ evs2) ++ [EGet hs (Responded r1)])%list)
    as (acc & rp2 & Hs2 & Hh2 & E4 & Hsub).
  destruct (MacVod.get_subscription W base_url token _) as [[ok|e|] st4];
    cbn [fst snd] in E4, Hsub; subst st4.
  2,3: session_is (evs1 ++ evs2)%list [EGet hs (Responded r1); EGet acc rp2];
         now apply session_account with (token := token).
  destruct ok;
    [|session_is (evs1 ++ evs2)%list [EGet hs (Responded r1); EGet acc rp2];
      now apply session_account with (token := token)].
  destruct (Hsub eq_refl) as (r2 & -> & H200).
  cbv zeta. rewrite mbind_run.
  set (st4 := ((((st ++ evs1) ++ evs2) ++ [EGet hs (Responded r1)])
                 ++ [EGet acc (Responded r2)])%list).
  destruct (proj1 (any_get_categories W token (with_token W token)
                     (with_token_auth token) base_url) st4) as (evs5 & E5 & F5).
  assert (Hfront : forall playlist, playlist_part W token playlist ->
            session W (EGet hs (Responded r1) :: EGet acc (Responded r2)
                            :: evs5 ++ playlist)%list)
    by (intros playlist Hp; now apply session_catalog with (token := token)).
  destruct (MacVod.get_vod_categories W base_url (bearer W token) st4)
    as [[vod_categories|e|] st5]; cbn [snd] in E5; subst st5 st4.
  2,3: session_is (evs1 ++ evs2)%list
         (EGet hs (Responded r1) :: EGet acc (Responded r2) :: evs5 ++ [])%list;
       apply Hfront; constructor.
  clear Htok Hsub.
  set (st5 := (((((st ++ evs1) ++ evs2) ++ [EGet hs (Responded r1)])
                  ++ [EGet acc (Responded r2)]) ++ evs5)%list).
  assert (Hplay : forall playlist, playlist_part W token playlist ->
            exists ins tail, (st5 ++ playlist = st ++ ins ++ tail)%list
                             /\ Forall only_input ins /\ session W tail).
  { intros playlist Hp. exists (evs1 ++ evs2)%list.
    exists (EGet hs (Responded r1) :: EGet acc (Responded r2) :: evs5 ++ playlist)%list.
    split; [unfold st5; repeat rewrite <- app_assoc; reflexivity|].
    split; [rewrite Forall_app; now split | now apply Hfront]. }
  clearbody st5. clear Hfront.
  destruct (Py.truthy vod_categories).
  2: { destruct (Hplay [] (no_playlist W token)) as (ins & tail & E & H).
       exists ins, tail. rewrite app_nil_r in E. now split. }
  rewrite mbind_run. unfold now at 1. rewrite mbind_run. unfold open_write at 1.
  set (path := sanitize base_url ++ "_" ++ w_now W (count is_open st5) ++ ".m3u").
  destruct (w_open W (count is_open st5)).
  2: { exact (Hplay [EOpen path] (playlist_refused W token path)). }
  rewrite mbind_run. unfold file_write at 1.
  destruct (w_write W _).
  2,3: exact (Hplay [EOpen path] (playlist_refused W token path)).
  assert (Hcrawl : forall crawl, Forall (crawl_event W token) crawl ->
            exists ins tail,
              ((((st5 ++ [EOpen path]) ++ [EWrite Header]) ++ crawl
                = st ++ ins ++ tail)%list
               /\ Forall only_input ins /\ session W tail)).
  { intros crawl Hc.
    destruct (Hplay _ (@playlist_written W token path crawl Hc)) as (ins & tail & E & H).
    exists ins, tail. split; [|exact H].
    rewrite <- E. repeat rewrite <- app_assoc. reflexivity. }
  clear Hplay. set (st6 := ((st5 ++ [EOpen path]) ++ [EWrite Header])%list) in *.
  clearbody st6.
  rewrite mbind_run. unfold lift at 1.
  destruct (Py.iter vod_categories) as [categories|e|].
  2,3: destruct (Hcrawl [] (Forall_nil _)) as (ins & tail & E & H);
       exists ins, tail; rewrite app_nil_r in E; now split.
  rewrite mbind_run.
  destruct (any_submit_all W token (crawl_event W token) (crawl_event_bare token)
              (crawl_event_auth token) (crawl_event_entry token)
              base_url fuel categories st6) as (evs6 & E6 & F6).
  destruct (MacVod.submit_all W fuel base_url (bearer W token) categories st6)
    as [[futures|e|] st7]; cbn [snd] in E6; subst st7.
  2,3: exact (Hcrawl evs6 F6).
  destruct (any_report (crawl_event W token) futures (st6 ++ evs6)%list)
    as (evs7 & E7 & F7).
  rewrite E7.
  destruct (Hcrawl (evs6 ++ evs7)%list) as (ins & tail & E & H).
  { rewrite Forall_app. now split. }
  exists ins, tail. split; [|exact H]. rewrite <- E, app_assoc. reflexivity.
Qed.

Lemma show_session (fuel : nat) (st : log) :
  exists ins tail,
    snd (MacShow.main_body W fuel st) = (st ++ ins ++ tail)%list
    /\ Forall only_input ins /\ session W tail.
Proof.
  unfold MacShow.main_body.
  rewrite mbind_run.
  destruct (proj2 (proj2 (any_get_base_url W only_input only_input_prompt)) st)
    as (evs1 & E1 & F1).
  destruct (MacShow.get_base_url W st) as [[base_url|e|] st1]; cbn [snd] in E1; subst st1.
  2,3: session_is evs1 (@nil event); constructor.
  rewrite mbind_run.
  destruct (proj2 (proj2 (any_get_mac_address W only_input only_input_prompt))
                  (st ++ evs1)%list) as (evs2 & E2 & F2).
  destruct (MacShow.get_mac_address W (st ++ evs1)%list) as [[mac|e|] st2];
    cbn [snd] in E2; subst st2.
  2,3: session_is (evs1 ++ evs2)%list (@nil event); constructor.
  rewrite mbind_run.
  destruct (show_get_token_event W base_url ((st ++ evs1) ++ evs2)%list)
    as (hs & rp1 & Hs1 & Hh1 & E3 & Htok).
  destruct (MacShow.get_token W base_url ((st ++ evs1) ++ evs2)%list)
    as [[token|e|] st3]; cbn [fst snd] in E3, Htok; subst st3.
  2,3: session_is (evs1 ++ evs2)%list [EGet hs rp1]; now constructor.
  destruct (Py.truthy token) eqn:Ht;
    [|session_is (evs1 ++ evs2)%list [EGet hs rp1]; now constructor].
  destruct (Htok token eq_refl Ht) as (r1 & -> & Hr1).
  rewrite mbind_run.
  destruct (show_get_subscription_event W base_url token
              (((st ++ evs1) ++ evs2) ++ [EGet hs (Responded r1)])%list)
    as (acc & rp2 & Hs2 & Hh2 & E4 & Hsub).
  destruct (MacShow.get_subscription W base_url token _) as [[ok|e|] st4];
    cbn [fst snd] in E4, Hsub; subst st4.
  2,3: session_is (evs1 ++ evs2)%list [EGet hs (Responded r1); EGet acc rp2];
         now apply session_account with (token := token).
  destruct ok;
    [|session_is (evs1 ++ evs2)%list [EGet hs (Responded r1); EGet acc rp2];
      now apply session_account with (token := token)].
  destruct (Hsub eq_refl) as (r2 & -> & H200).
  cbv zeta. rewrite mbind_run.
  set (st4 := ((((st ++ evs1) ++ evs2) ++ [EGet hs (Responded r1)])
                 ++ [EGet acc (Responded r2)])%list).
  destruct (proj2 (any_get_categories W token (with_token W token)
                     (with_token_auth token) base_url) st4) as (evs5 & E5 & F5).
  assert (Hfront : forall playlist, playlist_part W token playlist ->
            session W (EGet hs (Responded r1) :: EGet acc (Responded r2)
                            :: evs5 ++ playlist)%list)
    by (intros playlist Hp; now apply session_catalog with (token := token)).
  destruct (MacShow.get_series_categories W base_url (bearer W token) st4)
    as [[series_categories|e|] st5]; cbn [snd] in E5; subst st5 st4.
  2,3: session_is (evs1 ++ evs2)%list
         (EGet hs (Responded r1) :: EGet acc (Responded r2) :: evs5 ++ [])%list;
       apply Hfront; constructor.
  clear Htok Hsub.
  set (st5 := (((((st ++ evs1) ++ evs2) ++ [EGet hs (Responded r1)])
                  ++ [EGet acc (Responded r2)]) ++ evs5)%list).
  assert (Hplay : forall playlist, playlist_part W token playlist ->
            exists ins tail, (st5 ++ playlist = st ++ ins ++ tail)%list
                             /\ Forall only_input ins /\ session W tail).
  { intros playlist Hp. exists (evs1 ++ evs2)%list.
    exists (EGet hs (Responded r1) :: EGet acc (Responded r2) :: evs5 ++ playlist)%list.
    split; [unfold st5; repeat rewrite <- app_assoc; reflexivity|].
    split; [rewrite Forall_app; now split | now apply Hfront]. }
  clearbody st5. clear Hfront.
  destruct (Py.truthy series_categories).
  2: { destruct (Hplay [] (no_playlist W token)) as (ins & tail & E & H).
       exists ins, tail. rewrite app_nil_r in E. now split. }
  rewrite mbind_run. unfold now at 1. rewrite mbind_run. unfold open_write at 1.
  set (path := sanitize base_url ++ "_" ++ w_now W (count is_open st5) ++ ".m3u").
  destruct (w_open W (count is_open st5)).
  2: { exact (Hplay [EOpen path] (playlist_refused W token path)). }
  rewrite mbind_run. unfold file_write at 1.
  destruct (w_write W _).
  2,3: exact (Hplay [EOpen path] (playlist_refused W token path)).
  assert (Hcrawl : forall crawl, Forall (crawl_event W token) crawl ->
            exists ins tail,
              ((((st5 ++ [EOpen path]) ++ [EWrite Header]) ++ crawl
                = st ++ ins ++ tail)%list
               /\ Forall only_input ins /\ session W tail)).
  { intros crawl Hc.
    destruct (Hplay _ (@playlist_written W token path crawl Hc)) as (ins & tail & E & H).
    exists ins, tail. split; [|exact H].
    rewrite <- E. repeat rewrite <- app_assoc. reflexivity. }
  clear Hplay. set (st6 := ((st5 ++ [EOpen path]) ++ [EWrite Header])%list) in *.
  clearbody st6.
  rewrite mbind_run. unfold lift at 1.
  destruct (Py.iter series_categories) as [categories|e|].
  2,3: destruct (Hcrawl [] (Forall_nil _)) as (ins & tail & E & H);
       exists ins, tail; rewrite app_nil_r in E; now split.
  destruct (any_crawl_categories W token (crawl_event W token)
              (crawl_event_bare token) (crawl_event_auth token)
              (crawl_event_entry token) base_url fuel categories st6)
    as (evs6 & E6 & F6).
  rewrite E6. exact (Hcrawl evs6 F6).
Qed.

Lemma channel_record_entry (base_url mac : string) (group_info : Py.pydict)
      (channel : pyval) (c : chunk) :
  MacList.channel_record base_url mac group_info channel = Ret c ->
  chunk_url c <> None.
Proof.
  unfold MacList.channel_record. intros H.
  repeat match type of H with
         | rbind ?r _ = _ => destruct r; cbn [rbind] in H; try discriminate H
         end.
  injection H as <-. discriminate.
Qed.

Lemma list_save_channel_list_playlist (token : pyval) (base_url current : string)
      (channels_data : pyval) (group_info : Py.pydict) (mac : string) (st : log) :
  exists playlist,
    snd (MacList.save_channel_list W base_url current channels_data group_info mac st)
    = (st ++ playlist)%list
    /\ playlist_part W token playlist.
Proof.
  unfold MacList.save_channel_list, try_except. cbv zeta.
  set (path := sanitize base_url ++ "_" ++ current ++ ".m3u").
  rewrite mbind_run. unfold open_write at 1.
  destruct (w_open W (count is_open st)).
  2: { exists [EOpen path]. split; [reflexivity | constructor]. }
  rewrite mbind_run. unfold file_write at 1.
  destruct (w_write W _).
  2,3: exists [EOpen path]; split; [reflexivity | constructor].
  rewrite mbind_run. unfold lift at 1.
  assert (Hcrawl : forall crawl, Forall (crawl_event W token) crawl ->
            exists playlist,
              (((st ++ [EOpen path]) ++ [EWrite Header]) ++ crawl = st ++ playlist)%list
              /\ playlist_part W token playlist).
  { intros crawl Hc. exists (EOpen path :: EWrite Header :: crawl).
    split; [repeat rewrite <- app_assoc; reflexivity | now constructor]. }
  set (st2 := ((st ++ [EOpen path]) ++ [EWrite Header])%list) in *. clearbody st2.
  destruct (Py.iter channels_data) as [channels|e|].
  2,3: destruct (Hcrawl [] (Forall_nil _)) as (playlist & E & H);
       rewrite app_nil_r in E; exists playlist; split; [|exact H];
       try destruct (is_IOError e); exact E.
  rewrite mbind_run.
  match goal with
  | |- context [for_fold channels 0%Z ?body] =>
      destruct (adds_for_fold (crawl_event W token) channels body) with
        (acc := 0%Z) (st := st2) as (evs & E & F)
  end.
  { intros n channel st'. unfold mbind, lift, file_write, mret.
    destruct (MacList.channel_record base_url mac group_info channel)
      as [c|e|] eqn:Ec.
    - destruct (w_write W _);
        [|exists []; split; [now rewrite app_nil_r | constructor]..].
      exists [EWrite c]. split; [reflexivity|].
      constructor; [|constructor]. exact (channel_record_entry _ _ _ _ _ Ec).
    - exists []. split; [now rewrite app_nil_r | constructor].
    - exists []. split; [now rewrite app_nil_r | constructor]. }
  destruct (Hcrawl evs F) as (playlist & E' & H). exists playlist.
  split; [|exact H]. rewrite <- E', <- E.
  destruct (for_fold channels 0%Z _ st2) as [[n|e|] st3]; try reflexivity.
  cbn [snd]. now destruct (is_IOError e).
Qed.

Lemma list_session (st : log) :
  exists ins tail,
    snd (MacList.main_body W st) = (st ++ ins ++ tail)%list
    /\ Forall only_input ins /\ session W tail.
Proof.
  unfold MacList.main_body.
  rewrite mbind_run.
  destruct (proj1 (any_get_base_url W only_input only_input_prompt) st)
    as (evs1 & E1 & F1).
  destruct (MacList.get_base_url W st) as [[base_url|e|] st1]; cbn [snd] in E1; subst st1.
  2,3: session_is evs1 (@nil event); constructor.
  rewrite mbind_run.
  destruct (proj1 (any_get_mac_address W only_input only_input_prompt)
                  (st ++ evs1)%list) as (evs2 & E2 & F2).
  destruct (MacList.get_mac_address W (st ++ evs1)%list) as [[mac|e|] st2];
    cbn [snd] in E2; subst st2.
  2,3: session_is (evs1 ++ evs2)%list (@nil event); constructor.
  rewrite mbind_run.
  destruct (list_get_token_event W base_url ((st ++ evs1) ++ evs2)%list)
    as (hs & rp1 & Hs1 & Hh1 & E3 & Htok).
  destruct (MacList.get_token W base_url ((st ++ evs1) ++ evs2)%list)
    as [[token|e|] st3]; cbn [fst snd] in E3, Htok; subst st3.
  2,3: session_is (evs1 ++ evs2)%list [EGet hs rp1]; now constructor.
  destruct (Py.truthy token) eqn:Ht;
    [|session_is (evs1 ++ evs2)%list [EGet hs rp1]; now constructor].
  destruct (Htok token eq_refl Ht) as (r1 & -> & Hr1).
  rewrite mbind_run.
  destruct (list_get_subscription_event W base_url token
              (((st ++ evs1) ++ evs2) ++ [EGet hs (Responded r1)])%list)
    as (acc & rp2 & Hs2 & Hh2 & E4 & Hsub).
  destruct (MacList.get_subscription W base_url token _) as [[ok|e|] st4];
    cbn [fst snd] in E4, Hsub; subst st4.
  2,3: session_is (evs1 ++ evs2)%list [EGet hs (Responded r1); EGet acc rp2];
         now apply session_account with (token := token).
  destruct ok;
    [|session_is (evs1 ++ evs2)%list [EGet hs (Responded r1); EGet acc rp2];
      now apply session_account with (token := token)].
  destruct (Hsub eq_refl) as (r2 & -> & H200).
  cbv zeta. rewrite mbind_run.
  set (st4 := ((((st ++ evs1) ++ evs2) ++ [EGet hs (Responded r1)])
                 ++ [EGet acc (Responded r2)])%list).
  destruct (any_get_channel_list W token (with_token W token)
              (with_token_auth token) base_url st4) as (evs5 & E5 & F5).
  assert (Hfront : forall playlist, playlist_part W token playlist ->
            session W (EGet hs (Responded r1) :: EGet acc (Responded r2)
                            :: evs5 ++ playlist)%list)
    by (intros playlist Hp; now apply session_catalog with (token := token)).
  destruct (MacList.get_channel_list W base_url (bearer W token) st4)
    as [[[channels_data group_info]|e|] st5]; cbn [snd] in E5; subst st5 st4.
  2,3: session_is (evs1 ++ evs2)%list
         (EGet hs (Responded r1) :: EGet acc (Responded r2) :: evs5 ++ [])%list;
       apply Hfront; constructor.
  clear Htok Hsub.
  set (st5 := (((((st ++ evs1) ++ evs2) ++ [EGet hs (Responded r1)])
                  ++ [EGet acc (Responded r2)]) ++ evs5)%list).
  assert (Hplay : forall playlist, playlist_part W token playlist ->
            exists ins tail, (st5 ++ playlist = st ++ ins ++ tail)%list
                             /\ Forall only_input ins /\ session W tail).
  { intros playlist Hp. exists (evs1 ++ evs2)%list.
    exists (EGet hs (Responded r1) :: EGet acc (Responded r2) :: evs5 ++ playlist)%list.
    split; [unfold st5; repeat rewrite <- app_assoc; reflexivity|].
    split; [rewrite Forall_app; now split | now apply Hfront]. }
  clearbody st5. clear Hfront.
  assert (Hnone : exists ins tail, (snd (mret tt st5) = st ++ ins ++ tail)%list
                                   /\ Forall only_input ins /\ session W tail).
  { destruct (Hplay [] (no_playlist W token)) as (ins & tail & E & H).
    exists ins, tail. rewrite app_nil_r in E. now split. }
  destruct group_info as [group_info|]; [|exact Hnone].
  destruct (Py.truthy channels_data && Py.dict_truthy group_info); [|exact Hnone].
  rewrite mbind_run. unfold now at 1.
  destruct (list_save_channel_list_playlist token base_url
              (w_now W (count is_open st5)) channels_data group_info mac st5)
    as (playlist & E & Hp).
  rewrite E. exact (Hplay playlist Hp).
Qed.


End SessionOfARun.


(* ===================================================================== *)
(** * What a run does, in the terms of the log *)
(* ===================================================================== *)

Lemma one_run_session (W : world) (fuel : nat) (st evs : log) :
  one_run W fuel st evs ->
  exists ins tail,
    evs = (ins ++ tail)%list /\ Forall only_input ins /\ session W tail.
Proof.
  intros [H|[H|H]];
    [ destruct (list_session W st) as (ins & tail & E & F & S)
    | destruct (vod_session W fuel st) as (ins & tail & E & F & S)
    | destruct (show_session W fuel st) as (ins & tail & E & F & S) ];
    rewrite H in E; apply app_inv_head in E; now exists ins, tail.
Qed.

Lemma requests_app (a b : log) :
  requests (a ++ b)%list = (requests a ++ requests b)%list.
Proof.
  induction a as [|[| | |] a IH]; cbn; [reflexivity| |f_equal|..]; exact IH.
Qed.

Lemma requests_inputs (ins : log) : Forall only_input ins -> requests ins = [].
Proof.
  induction 1 as [|[| | |] ins H _ IH]; cbn; try discriminate H; auto.
Qed.

Lemma written_inputs (ins : log) : Forall only_input ins -> written ins = [].
Proof.
  induction 1 as [|[| | |] ins H _ IH]; cbn; try discriminate H; auto.
Qed.

Lemma written_with_token (W : world) (token : pyval) (evs : log) :
  Forall (with_token W token) evs -> written evs = [].
Proof.
  induction 1 as [|[| | |] evs H _ IH]; cbn; try (exfalso; exact H); auto.
Qed.

Lemma opens_inputs (ins : log) : Forall only_input ins -> count is_open ins = 0%nat.
Proof.
  unfold count.
  induction 1 as [|[| | |] ins H _ IH]; cbn in *;
    try discriminate H; try (exfalso; exact H); auto.
Qed.

Lemma opens_with_token (W : world) (token : pyval) (evs : log) :
  Forall (with_token W token) evs -> count is_open evs = 0%nat.
Proof.
  unfold count.
  induction 1 as [|[| | |] evs H _ IH]; cbn in *;
    try discriminate H; try (exfalso; exact H); auto.
Qed.

Lemma opens_crawl (W : world) (token : pyval) (evs : log) :
  Forall (crawl_event W token) evs -> count is_open evs = 0%nat.
Proof.
  unfold count.
  induction 1 as [|[| | |] evs H _ IH]; cbn in *;
    try discriminate H; try (exfalso; exact H); auto.
Qed.

Lemma written_crawl (W : world) (token : pyval) (evs : log) :
  Forall (crawl_event W token) evs -> ~ In Header (written evs).
Proof.
  induction 1 as [|e evs H _ IH]; [intros []|].
  destruct e as [p|rq rp|path|c]; cbn in *; try (exfalso; exact H); try exact IH.
  intros [->|Hin]; [now apply H | now apply IH].
Qed.

(* ===================================================================== *)
(** * The token of the requests *)
(* ===================================================================== *)

Lemma app_eq_middle {A : Type} (a b pre post : list A) (e : A) :
  (a ++ b = pre ++ e :: post)%list ->
  (exists post', a = (pre ++ e :: post')%list /\ post = (post' ++ b)%list)
  \/ (exists pre', pre = (a ++ pre')%list /\ b = (pre' ++ e :: post)%list).
Proof.
  intros E. apply app_eq_app in E. destruct E as [l [[-> E]|[-> E]]].
  - destruct l as [|x l]; cbn in E.
    + right. exists []. now rewrite !app_nil_r.
    + injection E as <- ->. left. now exists l.
  - right. now exists l.
Qed.

Lemma bearer_of_handshake_nil (W : world) : bearer_of_handshake W [].
Proof. intros pre rq rp post E. now destruct pre. Qed.

Lemma bearer_of_handshake_app (W : world) (a b : log) :
  bearer_of_handshake W a -> bearer_of_handshake W b ->
  bearer_of_handshake W (a ++ b)%list.
Proof.
  intros Ha Hb pre rq rp post E Hne.
  destruct (app_eq_middle _ _ _ _ _ E) as [(post' & -> & _)|(pre' & -> & ->)].
  - exact (Ha pre rq rp post' eq_refl Hne).
  - destruct (Hb pre' rq rp post eq_refl Hne)
      as (before & prompt & hs & r1 & between & token & -> & H).
    exists (a ++ before)%list, prompt, hs, r1, between, token.
    split; [now rewrite <- app_assoc | exact H].
Qed.

Section TokenOfTheRun.

Variable W : world.

Lemma with_token_not_prompt (token : pyval) (evs : log) :
  Forall (with_token W token) evs -> Forall not_prompt evs.
Proof.
  apply Forall_impl. intros [| | |]; cbn; try contradiction; reflexivity.
Qed.

Lemma crawl_event_not_prompt (token : pyval) (evs : log) :
  Forall (crawl_event W token) evs -> Forall not_prompt evs.
Proof.
  apply Forall_impl. intros [| | |]; cbn; try contradiction; reflexivity.
Qed.

Lemma playlist_part_not_prompt (token : pyval) (playlist : log) :
  playlist_part W token playlist -> Forall not_prompt playlist.
Proof.
  intros [|path|path crawl Hc]; repeat constructor.
  exact (crawl_event_not_prompt token crawl Hc).
Qed.

Lemma playlist_part_token (token : pyval) (playlist : log) (rq : request)
      (rp : reply) :
  playlist_part W token playlist -> In (EGet rq rp) playlist ->
  rq_headers rq <> [] -> rq_headers rq = bearer W token.
Proof.
  intros [|path|path crawl Hc] Hin Hne.
  - contradiction Hin.
  - destruct Hin as [[=]|[]].
  - destruct Hin as [[=]|[[=]|Hin]].
    rewrite Forall_forall in Hc. destruct (Hc _ Hin) as [H|H];
      [now destruct Hne | exact H].
Qed.

(** A session is empty, or begins with the handshake; what follows a
    handshake that gave a token has no prompt, and its requests with a
    header have this token. *)
Lemma session_begins (tail : log) :
  session W tail ->
  tail = []
  \/ exists hs rp1 rest,
       tail = EGet hs rp1 :: rest
       /\ rq_site hs = Handshake /\ rq_headers hs = []
       /\ Forall not_prompt rest
       /\ forall rq rp, In (EGet rq rp) rest -> rq_headers rq <> [] ->
            exists r1 token,
              rp1 = Responded r1 /\ handshake_token r1 = Ret token
              /\ rq_headers rq = bearer W token.
Proof.
  intros [|hs rp Hs Hh|hs acc r1 rp2 token Hs Hh Hr Ht Hs2 Hh2
          |hs acc r1 r2 token catalog playlist Hs Hh Hr Ht Hs2 Hh2 H200 Fc Hp].
  - now left.
  - right. exists hs, rp, []. repeat split; try assumption; [constructor|].
    intros rq rp' [].
  - right. exists hs, (Responded r1), [EGet acc rp2].
    repeat split; try assumption; [repeat constructor|].
    intros rq rp [[= <- <-]|[]] _. now exists r1, token.
  - right. exists hs, (Responded r1),
      (EGet acc (Responded r2) :: catalog ++ playlist)%list.
    repeat split; try assumption.
    + constructor; [reflexivity|]. apply Forall_app. split.
      * exact (with_token_not_prompt token catalog Fc).
      * exact (playlist_part_not_prompt token playlist Hp).
    + intros rq rp Hin Hne. exists r1, token.
      split; [reflexivity|]. split; [exact Hr|].
      destruct Hin as [[= <- <-]|Hin]; [exact Hh2|].
      apply in_app_or in Hin. destruct Hin as [Hin|Hin].
      * rewrite Forall_forall in Fc. exact (Fc _ Hin).
      * exact (playlist_part_token token playlist rq rp Hp Hin Hne).
Qed.

Lemma not_prompt_prefix (pre post : log) (e : event) :
  Forall not_prompt (pre ++ e :: post)%list -> Forall not_prompt pre.
Proof. intros H. apply Forall_app in H. now destruct H. Qed.

(** The prompts of a run of the [try] block and the session that follows
    them. *)
Lemma block_bearer (prompt : string) (evs ins tail : log) :
  (EInput prompt :: evs = ins ++ tail)%list ->
  Forall only_input ins -> session W tail ->
  bearer_of_handshake W (ins ++ tail)%list.
Proof.
  intros E Fi S pre rq rp post Epre Hne.
  destruct (app_eq_middle _ _ _ _ _ Epre) as [(post' & -> & _)|(pre' & -> & Et)].
  { apply Forall_app in Fi. destruct Fi as [_ Fi]. inversion Fi as [|? ? H _].
    discriminate H. }
  destruct (session_begins tail S) as [Etl|(hs & rp1 & rest & Etl & Hs & Hh & Fr & Ht)];
    rewrite Etl in Et.
  { now destruct pre'. }
  destruct pre' as [|e pre']; cbn [app] in Et.
  { injection Et as <- _ _. now destruct Hne. }
  assert (Ee : e = EGet hs rp1) by congruence.
  assert (Er : rest = (pre' ++ EGet rq rp :: post)%list) by congruence.
  subst e rest. clear Et.
  destruct (Ht rq rp (in_elt _ _ _) Hne) as (r1 & token & Erp & Hr & Hb); subst rp1.
  destruct ins as [|i ins]; [rewrite Etl in E; discriminate E|].
  destruct (exists_last (l := i :: ins)) as (ins' & last & El); [discriminate|].
  rewrite El in Fi |- *. apply Forall_app in Fi. destruct Fi as [_ Fi].
  inversion Fi as [|? ? Hl _]. destruct last as [p| | |]; try discriminate Hl.
  exists ins', p, hs, r1, pre', token.
  split; [now rewrite <- app_assoc|].
  split; [exact (not_prompt_prefix _ _ _ Fr)|].
  repeat split; assumption.
Qed.

Lemma list_main_body_prompts (st : log) :
  exists evs,
    snd (MacList.main_body W st) = (st ++ EInput "Enter IPTV link: " :: evs)%list.
Proof.
  unfold MacList.main_body. unfold mbind at 1.
  assert (Hb : exists r, MacList.get_base_url W st
                         = (r, (st ++ [EInput "Enter IPTV link: "])%list)).
  { unfold MacList.get_base_url, mbind, input_colored, lift, mret.
    destruct (w_input W (count is_input st)) as [l| |]; try (now eexists).
    destruct (w_urlparse W l) as [[h p]| |]; now eexists. }
  destruct Hb as [r Hb]. rewrite Hb.
  destruct r as [b|e|]; try (now exists []).
  lazymatch goal with
  | |- exists evs, snd (?m ?st1) = _ =>
      assert (H : adds (well_sent W b) m) by adds_auto;
      destruct (H st1) as (evs & E & _); exists evs;
      rewrite E, <- app_assoc; reflexivity
  end.
Qed.

(** One run of the [try] block, in each script. *)
Lemma block_in_shape {A : Type} (m : M A) :
  adds (sent_in_shape W) m ->
  (forall st, exists ins tail,
      snd (m st) = (st ++ ins ++ tail)%list
      /\ Forall only_input ins /\ session W tail) ->
  (forall st, exists evs,
      snd (m st) = (st ++ EInput "Enter IPTV link: " :: evs)%list) ->
  forall st, exists evs,
    snd (m st) = (st ++ evs)%list
    /\ Forall (sent_in_shape W) evs /\ bearer_of_handshake W evs.
Proof.
  intros Ha Hs Hp st.
  destruct (Ha st) as (evs & E & F).
  destruct (Hs st) as (ins & tail & E' & Fi & S).
  destruct (Hp st) as (evs0 & E0).
  exists evs. split; [exact E|]. split; [exact F|].
  rewrite E in E', E0. apply app_inv_head in E'. apply app_inv_head in E0.
  rewrite E'. rewrite E' in E0.
  exact (block_bearer _ evs0 ins tail (eq_sym E0) Fi S).
Qed.

Lemma in_shape_run {A : Type} (m : M A) :
  (forall st, exists evs,
      snd (m st) = (st ++ evs)%list
      /\ Forall (sent_in_shape W) evs /\ bearer_of_handshake W evs) ->
  run_in_shape W m.
Proof.
  intros H st. destruct (H st) as (evs & E & F & Hb). exists evs.
  split; [exact E|]. split; [|exact Hb].
  intros rq rp Hin. rewrite Forall_forall in F. exact (F _ Hin).
Qed.

(** The runs of the [try] block that a call of [main] makes, one after
    the other. *)
Lemma main_of_in_shape (s : retrying) (fuel depth : nat) (st : log) :
  exists evs,
    snd (main_of s W depth fuel st) = (st ++ evs)%list
    /\ Forall (sent_in_shape W) evs /\ bearer_of_handshake W evs.
Proof.
  assert (Hblock : forall st, exists evs,
             snd (try_block s W fuel st) = (st ++ evs)%list
             /\ Forall (sent_in_shape W) evs /\ bearer_of_handshake W evs).
  { destruct s; cbn [try_block].
    - apply block_in_shape;
        [apply vod_main_body_adds | apply vod_session
         | exact (try_block_prompts W fuel Vod)].
    - apply block_in_shape;
        [apply show_main_body_adds | apply show_session
         | exact (try_block_prompts W fuel Show)]. }
  revert st. induction depth as [|depth IH]; intros st;
    rewrite main_of_unfold;
    destruct (Hblock st) as (evs & E & F & Hb);
    destruct (try_block s W fuel st) as [[a|e|] st1]; cbn [snd] in E; subst st1;
    try (now exists evs);
    destruct (is_KeyboardInterrupt e); try (now exists evs);
    destruct (is_Exception e); try (now exists evs).
  destruct (IH (st ++ evs)%list) as (evs' & E' & F' & Hb').
  exists (evs ++ evs')%list. rewrite E', app_assoc.
  split; [reflexivity|]. split; [now apply Forall_app|].
  now apply bearer_of_handshake_app.
Qed.

End TokenOfTheRun.

(** C4, as the scripts have it.  In a run of any of the three scripts,
    every request other than [create_link] carries the marker
    [JsHttpRequest=1-xml]; the account, genre, channel, category, page and
    season requests carry [Authorization: Bearer {token}]; the handshake
    and the [create_link] requests are sent without headers.  The token
    is the one that the handshake issued: every request with a header
    carries [js.token] of the reply to the handshake of the same run of
    the [try] block, the first request sent after the prompts. *)
Theorem C4_requests_in_shape (W : world) (depth fuel : nat) :
  run_in_shape W (MacList.main W)
  /\ run_in_shape W (MacVod.main W depth fuel)
  /\ run_in_shape W (MacShow.main W depth fuel).
Proof.
  repeat split; apply in_shape_run.
  - intros st.
    destruct (block_in_shape W (MacList.main_body W) (list_main_body_adds W)
                (list_session W) (list_main_body_prompts W) st)
      as (evs & E & H).
    exists evs. split; [|exact H].
    unfold MacList.main, try_except, raise.
    destruct (MacList.main_body W st) as [[a|e|] st1]; cbn [snd] in E |- *;
      try exact E.
    now destruct (is_KeyboardInterrupt e).
  - exact (main_of_in_shape W Vod fuel depth).
  - exact (main_of_in_shape W Show fuel depth).
Qed.

(** C4 as stated fails: in this run of [macvod.py] the [create_link]
    request, sent after the handshake, has neither the marker nor an
    [Authorization] header. *)
Lemma C4_create_link_counterexample :
  let rq := {| rq_site := CreateLink;
               rq_url := "http://example.com:8080/portal.php?type=vod&action=create_link&cmd=ffmpeg%20http%3A//vod.example.com/1.mp4";
               rq_headers := [] |} in
  In (rq, DemoVod.link) (requests (snd (MacVod.main DemoVod.portal 3 3 [])))
  /\ str_in marker (rq_url rq) = false
  /\ assoc_header "Authorization" (rq_headers rq) = None.
Proof. vm_compute. repeat split. tauto. Qed.

(** The run of [macvod.py] on the demonstration portal: the category
    request carries the token of the handshake. *)
Example vod_run_bearer :
  exists before between rest,
    snd (MacVod.main DemoVod.portal 3 5 [])
    = (before
         ++ EInput "Input Mac address: "
         :: EGet {| rq_site := Handshake;
                    rq_url := "http://example.com:8080/portal.php?action=handshake&type=stb&token=&JsHttpRequest=1-xml";
                    rq_headers := [] |} Demo.handshake_ok
         :: between
         ++ EGet {| rq_site := Categories;
                    rq_url := "http://example.com:8080/portal.php?type=vod&action=get_categories&JsHttpRequest=1-xml";
                    rq_headers := [("Authorization", "Bearer T0K3N")] |}
                 (w_reply DemoVod.portal 2)
         :: rest)%list.
Proof. eexists [_], [_], _. vm_compute. reflexivity. Qed.

(** X1. In each of the three scripts, a run of the [try] block of [main]
    does nothing but prompt, shake hands and ask for the account unless
    it is logged in: if the run sends any other request, opens the file
    or writes, then its first two requests are the handshake, whose reply
    carries a token that is true, and the account request, sent with that
    token and answered with status 200. *)
Theorem X1_nothing_without_login (W : world) (fuel : nat) (st evs : log) (e : event) :
  one_run W fuel st evs ->
  In e evs -> after_login e ->
  exists hs r1 token acc r2 rest,
    requests evs = (hs, Responded r1) :: (acc, Responded r2) :: rest
    /\ rq_site hs = Handshake /\ handshake_token r1 = Ret token
    /\ Py.truthy token = true
    /\ rq_site acc = AccountInfo /\ rq_headers acc = bearer W token
    /\ status_code r2 = 200%Z.
Proof.
  intros Hrun Hin He.
  destruct (one_run_session W fuel st evs Hrun) as (ins & tail & -> & Fi & S).
  rewrite requests_app, (requests_inputs ins Fi). cbn [app].
  apply in_app_or in Hin. destruct Hin as [Hin|Hin].
  { rewrite Forall_forall in Fi. specialize (Fi e Hin).
    destruct e; try discriminate Fi. contradiction He. }
  destruct S as [|hs rp Hs Hh|hs acc r1 rp2 token Hs Hh Hr Ht Hs2 Hh2
                 |hs acc r1 r2 token catalog playlist Hs Hh Hr Ht Hs2 Hh2 H200 Fc Hp].
  - contradiction Hin.
  - destruct Hin as [<-|[]]. cbn in He. now destruct He.
  - destruct Hin as [<-|[<-|[]]]; cbn in He; now destruct He.
  - exists hs, r1, token, acc, r2, (requests (catalog ++ playlist)%list).
    repeat split; assumption.
Qed.

Lemma X1_witness :
  exists hs r1 token acc r2 rest,
    requests (snd (MacVod.main_body DemoVod.portal 5 []))
    = (hs, Responded r1) :: (acc, Responded r2) :: rest
    /\ rq_site hs = Handshake /\ handshake_token r1 = Ret token
    /\ Py.truthy token = true
    /\ rq_site acc = AccountInfo
    /\ rq_headers acc = bearer DemoVod.portal token
    /\ status_code r2 = 200%Z.
Proof.
  apply (X1_nothing_without_login DemoVod.portal 5 []
           (snd (MacVod.main_body DemoVod.portal 5 [])) (EWrite Header)).
  - right; left; reflexivity.
  - vm_compute. tauto.
  - exact I.
Defined.

(** X2. In each of the three scripts, a request of a run that carries a
    header carries exactly [Authorization: Bearer <token>], where the
    token is the one in [js.token] of the reply to the first request of
    the run, the handshake. *)
Theorem X2_bearer_is_handshake_token (W : world) (fuel : nat) (st evs : log)
        (rq : request) (rp : reply) :
  one_run W fuel st evs ->
  In (EGet rq rp) evs -> rq_headers rq <> [] ->
  exists hs r1 token rest,
    requests evs = (hs, Responded r1) :: rest
    /\ rq_site hs = Handshake /\ handshake_token r1 = Ret token
    /\ rq_headers rq = bearer W token.
Proof.
  intros Hrun Hin He.
  destruct (one_run_session W fuel st evs Hrun) as (ins & tail & -> & Fi & S).
  rewrite requests_app, (requests_inputs ins Fi). cbn [app].
  apply in_app_or in Hin. destruct Hin as [Hin|Hin].
  { rewrite Forall_forall in Fi. specialize (Fi _ Hin). discriminate Fi. }
  destruct S as [|hs rp1 Hs Hh|hs acc r1 rp2 token Hs Hh Hr Ht Hs2 Hh2
                 |hs acc r1 r2 token catalog playlist Hs Hh Hr Ht Hs2 Hh2 H200 Fc Hp].
  - contradiction Hin.
  - destruct Hin as [[= <- <-]|[]]. contradiction.
  - exists hs, r1, token, [(acc, rp2)].
    destruct Hin as [[= <- <-]|[[= <- <-]|[]]]; [contradiction|].
    repeat split; assumption.
  - exists hs, r1, token, ((acc, Responded r2) :: requests (catalog ++ playlist)%list).
    split; [reflexivity|]. split; [assumption|]. split; [assumption|].
    destruct Hin as [[= <- <-]|[[= <- <-]|Hin]]; [contradiction|assumption|].
    apply in_app_or in Hin. destruct Hin as [Hin|Hin].
    + rewrite Forall_forall in Fc. exact (Fc _ Hin).
    + destruct Hp as [|path|path crawl Hc].
      * contradiction Hin.
      * destruct Hin as [[=]|[]].
      * destruct Hin as [[=]|[[=]|Hin]].
        rewrite Forall_forall in Hc. destruct (Hc _ Hin) as [H|H];
          [contradiction | exact H].
Qed.

Lemma X2_witness :
  exists hs r1 token rest,
    requests (snd (MacVod.main_body DemoVod.portal 5 []))
    = (hs, Responded r1) :: rest
    /\ rq_site hs = Handshake /\ handshake_token r1 = Ret token
    /\ [("Authorization", "Bearer T0K3N")] = bearer DemoVod.portal token.
Proof.
  apply (X2_bearer_is_handshake_token DemoVod.portal 5 []
           (snd (MacVod.main_body DemoVod.portal 5 []))
           {| rq_site := Categories;
              rq_url := "http://example.com:8080/portal.php?type=vod&action=get_categories&JsHttpRequest=1-xml";
              rq_headers := [("Authorization", "Bearer T0K3N")] |}
           (DemoVod.portal.(w_reply) 2)).
  - right; left; reflexivity.
  - vm_compute. tauto.
  - discriminate.
Defined.

(** X3. In each of the three scripts, a run opens at most one file, and
    if it writes anything then the file was opened before any write, the
    first thing written, right after the opening, is the [#EXTM3U]
    header, and the header is not written again. *)
Theorem X3_one_file_header_first (W : world) (fuel : nat) (st evs : log) :
  one_run W fuel st evs ->
  (count is_open evs <= 1)%nat
  /\ (written evs = []
      \/ exists pre path post,
           evs = (pre ++ EOpen path :: EWrite Header :: post)%list
           /\ written pre = [] /\ ~ In Header (written post)).
Proof.
  intros Hrun.
  destruct (one_run_session W fuel st evs Hrun) as (ins & tail & -> & Fi & S).
  unfold count. rewrite filter_app, length_app. fold (count is_open ins).
  fold (count is_open tail). rewrite (opens_inputs ins Fi).
  rewrite written_app, (written_inputs ins Fi). cbn [app plus].
  destruct S as [|hs rp1 Hs Hh|hs acc r1 rp2 token Hs Hh Hr Ht Hs2 Hh2
                 |hs acc r1 r2 token catalog playlist Hs Hh Hr Ht Hs2 Hh2 H200 Fc Hp];
    try (split; [cbn; lia | left; reflexivity]).
  change (EGet hs (Responded r1) :: EGet acc (Responded r2) :: catalog ++ playlist)%list
    with ([EGet hs (Responded r1); EGet acc (Responded r2)] ++ catalog ++ playlist)%list.
  unfold count. rewrite !filter_app, !length_app, !written_app.
  fold (count is_open catalog). fold (count is_open playlist).
  rewrite (opens_with_token W token catalog Fc), (written_with_token W token catalog Fc).
  cbn [app filter is_open length plus written].
  destruct Hp as [|path|path crawl Hc].
  - split; [cbn; lia | left; reflexivity].
  - split; [cbn; lia | left; reflexivity].
  - split.
    + cbn [count filter is_open length]. fold (count is_open crawl).
      rewrite (opens_crawl W token crawl Hc). lia.
    + right.
      exists (ins ++ [EGet hs (Responded r1); EGet acc (Responded r2)] ++ catalog)%list,
             path, crawl.
      split; [repeat rewrite <- app_assoc; reflexivity|].
      split; [|exact (written_crawl W token crawl Hc)].
      rewrite !written_app, (written_inputs ins Fi),
        (written_with_token W token catalog Fc). reflexivity.
Qed.

Lemma X3_witness :
  (count is_open (snd (MacVod.main_body DemoVod.portal 5 [])) <= 1)%nat
  /\ (written (snd (MacVod.main_body DemoVod.portal 5 [])) = []
      \/ exists pre path post,
           snd (MacVod.main_body DemoVod.portal 5 [])
           = (pre ++ EOpen path :: EWrite Header :: post)%list
           /\ written pre = [] /\ ~ In Header (written post)).
Proof.
  apply (X3_one_file_header_first DemoVod.portal 5 []
           (snd (MacVod.main_body DemoVod.portal 5 []))).
  right; left; reflexivity.
Defined.


(* ===================================================================== *)
(** * The counts that the crawls return *)
(* ===================================================================== *)

Section Tallies.

Variable W : world.

Lemma written_quiet (evs : log) : Forall quiet evs -> written evs = [].
Proof.
  induction 1 as [|[| | |] evs H _ IH]; cbn; try discriminate H; auto.
Qed.

Lemma tallies_mret (acc : Z) : tallies acc (mret acc).
Proof.
  intros st. exists []. split; [now rewrite app_nil_r|].
  intros n [= <-]. cbn. lia.
Qed.

Lemma tallies_fail (acc : Z) (r : result Z) :
  (forall n, r <> Ret n) -> tallies acc (lift r).
Proof.
  intros H st. exists []. split; [now rewrite app_nil_r|].
  intros n E. now destruct (H n).
Qed.

Lemma tallies_bind_quiet {A : Type} (acc : Z) (m : M A) (f : A -> M Z) :
  adds quiet m -> (forall a, tallies acc (f a)) -> tallies acc (mbind m f).
Proof.
  intros Hm Hf st. rewrite mbind_run.
  destruct (Hm st) as (evs1 & E1 & F1).
  destruct (m st) as [[a|e|] st1]; cbn [snd] in E1; subst st1.
  - destruct (Hf a (st ++ evs1)%list) as (evs2 & E2 & H2).
    exists (evs1 ++ evs2)%list. split; [now rewrite E2, app_assoc|].
    intros n Hn. rewrite written_app, (written_quiet evs1 F1). exact (H2 n Hn).
  - exists evs1. split; [reflexivity | discriminate].
  - exists evs1. split; [reflexivity | discriminate].
Qed.

Lemma tallies_mbind (acc b : Z) (m : M Z) (f : Z -> M Z) :
  tallies b m -> (forall c, tallies (acc + c) (f (b + c)%Z)) ->
  tallies acc (mbind m f).
Proof.
  intros Hm Hf st. rewrite mbind_run.
  destruct (Hm st) as (evs1 & E1 & H1).
  destruct (m st) as [[a|e|] st1]; cbn [fst snd] in E1, H1; subst st1.
  - specialize (H1 a eq_refl). subst a.
    destruct (Hf (Z.of_nat (List.length (written evs1))) (st ++ evs1)%list)
      as (evs2 & E2 & H2).
    exists (evs1 ++ evs2)%list. split; [now rewrite E2, app_assoc|].
    intros n Hn. rewrite (H2 n Hn), written_app, length_app. lia.
  - exists evs1. split; [reflexivity | discriminate].
  - exists evs1. split; [reflexivity | discriminate].
Qed.

Lemma tallies_for_fold {A : Type} (xs : list A) (body : Z -> A -> M Z) :
  (forall acc x, tallies acc (body acc x)) ->
  forall acc, tallies acc (for_fold xs acc body).
Proof.
  intros Hb. induction xs as [|x xs IH]; intros acc; cbn [for_fold].
  - apply tallies_mret.
  - apply tallies_mbind with (b := acc); [apply Hb|]. intros c. apply IH.
Qed.

Lemma tallies_write (acc : Z) (c : chunk) :
  tallies acc (mbind (file_write W c) (fun _ => mret (acc + 1)%Z)).
Proof.
  intros st. unfold mbind, file_write, mret.
  destruct (w_write W _).
  - exists [EWrite c]. split; [reflexivity|].
    intros n [= <-]. cbn. lia.
  - exists []. split; [now rewrite app_nil_r | discriminate].
  - exists []. split; [now rewrite app_nil_r | discriminate].
Qed.

Ltac quiet_auto := repeat adds_step; reflexivity.

Lemma quiet_get_vod_list (base_url : string) (headers : list (string * string))
      (category_id : pyval) (page : Z) :
  adds quiet (MacVod.get_vod_list W base_url headers category_id page).
Proof. unfold MacVod.get_vod_list. quiet_auto. Qed.

Lemma quiet_vod_fetch_play_link (base_url : string) (cmd : pyval) :
  adds quiet (MacVod.fetch_play_link W base_url cmd).
Proof. unfold MacVod.fetch_play_link. quiet_auto. Qed.

Lemma quiet_get_series_list (base_url : string) (headers : list (string * string))
      (category_id : pyval) (page : Z) :
  adds quiet (MacShow.get_series_list W base_url headers category_id page).
Proof. unfold MacShow.get_series_list. quiet_auto. Qed.

Lemma quiet_get_seasons_episodes (base_url : string)
      (headers : list (string * string)) (series_id : string) (category_id : pyval) :
  adds quiet (MacShow.get_seasons_episodes W base_url headers series_id category_id).
Proof. unfold MacShow.get_seasons_episodes. quiet_auto. Qed.

Lemma quiet_show_fetch_play_link (base_url cmd : string) (episode_num : pyval) :
  adds quiet (MacShow.fetch_play_link W base_url cmd episode_num).
Proof. unfold MacShow.fetch_play_link. quiet_auto. Qed.

Ltac tally_step :=
  lazymatch goal with
  | |- tallies _ (mret _) => apply tallies_mret
  | |- tallies _ (mbind (file_write _ _) _) => apply tallies_write
  | |- tallies _ (mbind (lift _) _) =>
      apply tallies_bind_quiet; [apply adds_lift | intros]
  | |- tallies _ (mbind (MacVod.fetch_play_link _ _ _) _) =>
      apply tallies_bind_quiet; [apply quiet_vod_fetch_play_link | intros]
  | |- tallies _ (mbind (MacShow.fetch_play_link _ _ _ _) _) =>
      apply tallies_bind_quiet; [apply quiet_show_fetch_play_link | intros]
  | |- tallies _ (mbind (MacVod.get_vod_list _ _ _ _ _) _) =>
      apply tallies_bind_quiet; [apply quiet_get_vod_list | intros]
  | |- tallies _ (mbind (MacShow.get_series_list _ _ _ _ _) _) =>
      apply tallies_bind_quiet; [apply quiet_get_series_list | intros]
  | |- tallies _ (mbind (MacShow.get_seasons_episodes _ _ _ _ _) _) =>
      apply tallies_bind_quiet; [apply quiet_get_seasons_episodes | intros]
  | |- tallies _ (for_fold _ _ _) => apply tallies_for_fold; intros
  | |- tallies _ (if ?c then _ else _) => destruct c
  | |- tallies _ (match ?x with _ => _ end) => destruct x
  end.

Lemma tallies_save_vod_list (vod_data : pyval) (base_url : string)
      (category_title : pyval) :
  tallies 0 (MacVod.save_vod_list W vod_data base_url category_title).
Proof. unfold MacVod.save_vod_list. repeat tally_step. Qed.

Lemma tallies_vod_pages (fuel : nat) (base_url : string)
      (headers : list (string * string)) (category_id category_title : pyval)
      (page total_count : Z) :
  tallies total_count
    (MacVod.vod_pages W fuel base_url headers category_id category_title
                      page total_count).
Proof.
  revert page total_count.
  induction fuel as [|fuel IH]; intros page total_count; cbn [MacVod.vod_pages].
  - apply tallies_fail. discriminate.
  - repeat tally_step.
    apply tallies_mbind with (b := 0%Z); [apply tallies_save_vod_list|].
    intros c. apply IH.
Qed.

Lemma tallies_save_episodes (base_url : string) (series series_title : pyval)
      (series_id season_num : string) (total_episodes : Z)
      (category_title : pyval) (episodes : list pyval) (total_count : Z) :
  tallies total_count
    (MacShow.save_episodes W base_url series series_title series_id season_num
                           total_episodes category_title episodes total_count).
Proof. unfold MacShow.save_episodes. repeat tally_step. Qed.

Lemma tallies_save_series_data (series_data : pyval) (base_url : string)
      (headers : list (string * string)) (category_title : pyval) :
  tallies 0 (MacShow.save_series_data W series_data base_url headers category_title).
Proof.
  unfold MacShow.save_series_data, MacShow.save_seasons.
  repeat first [apply tallies_save_episodes | tally_step].
Qed.

Lemma tallies_series_pages (fuel : nat) (base_url : string)
      (headers : list (string * string)) (category_id category_title : pyval)
      (page total_count : Z) :
  tallies total_count
    (MacShow.series_pages W fuel base_url headers category_id category_title
                          page total_count).
Proof.
  revert page total_count.
  induction fuel as [|fuel IH]; intros page total_count; cbn [MacShow.series_pages].
  - apply tallies_fail. discriminate.
  - repeat tally_step.
    apply tallies_mbind with (b := 0%Z); [apply tallies_save_series_data|].
    intros c. apply IH.
Qed.

Lemma tallies_fetch_and_save_vods (fuel : nat) (base_url : string)
      (headers : list (string * string)) (category : pyval) :
  tallies 0 (MacVod.fetch_and_save_vods W fuel base_url headers category).
Proof.
  unfold MacVod.fetch_and_save_vods.
  repeat first [apply tallies_vod_pages | tally_step].
Qed.

Lemma tallies_fetch_and_save_series (fuel : nat) (base_url : string)
      (headers : list (string * string)) (category : pyval) :
  tallies 0 (MacShow.fetch_and_save_series W fuel base_url headers category).
Proof.
  unfold MacShow.fetch_and_save_series.
  repeat first [apply tallies_series_pages | tally_step].
Qed.

End Tallies.

(** X4. The number that the crawl of a category returns, which [main]
    reports as the number of items fetched for the category, is the
    number of entries that the crawl wrote to the playlist: in
    [macvod.py] for [fetch_and_save_vods], in [macshow.py] for
    [fetch_and_save_series]. *)
Theorem X4_count_is_entries_written
  (W : world) (fuel : nat) (base_url : string)
  (headers : list (string * string)) (category : pyval) (st : log) :
  (exists evs,
      snd (MacVod.fetch_and_save_vods W fuel base_url headers category st)
      = (st ++ evs)%list
      /\ forall total,
           fst (MacVod.fetch_and_save_vods W fuel base_url headers category st)
           = Ret total ->
           total = Z.of_nat (List.length (written evs)))
  /\ (exists evs,
         snd (MacShow.fetch_and_save_series W fuel base_url headers category st)
         = (st ++ evs)%list
         /\ forall total,
              fst (MacShow.fetch_and_save_series W fuel base_url headers category st)
              = Ret total ->
              total = Z.of_nat (List.length (written evs))).
Proof.
  split.
  - exact (tallies_fetch_and_save_vods W fuel base_url headers category st).
  - exact (tallies_fetch_and_save_series W fuel base_url headers category st).
Qed.


(* ===================================================================== *)
(** * What leaves [main] *)
(* ===================================================================== *)

Lemma main_of_raises (W : world) (fuel : nat) (s : retrying) (depth : nat)
      (st : log) (e : exn) :
  fst (main_of s W depth fuel st) = Raise e ->
  e = SystemExit \/ e = RecursionError.
Proof.
  revert st. induction depth as [|depth IH]; intros st;
    rewrite main_of_unfold;
    destruct (try_block s W fuel st) as [[[]|e'|] st']; cbn [fst];
      try discriminate;
      destruct e'; cbn; try (intros [= <-]; auto; fail); try apply IH.
Qed.

(** X5. What leaves [main] in [macvod.py].  [main] runs the [try] block
    again and again, each time on the log that the failed run before
    left.  When a run returns, [main] returns.  When a run ends in an
    exception that [except Exception] does not catch, as the
    [KeyboardInterrupt] of Ctrl-C, [main] exits with [SystemExit].  When
    run after run ends in an exception that [except Exception] catches,
    until the interpreter allows no further nested call of [main], the
    [RecursionError] leaves [main].  No other exception leaves [main]. *)
Theorem X5_no_exception_leaves_main (W : world) (depth fuel : nat) (st : log) :
  (exists k,
      (k <= S depth)%nat
      /\ attempts_fail (MacVod.main_body W fuel) k st
      /\ ((k = S depth
           /\ MacVod.main W depth fuel st
              = (Raise RecursionError,
                 after_attempts (MacVod.main_body W fuel) k st))
          \/ ((k <= depth)%nat
              /\ match MacVod.main_body W fuel
                         (after_attempts (MacVod.main_body W fuel) k st) with
                 | (Raise e, st') =>
                     is_Exception e = false
                     /\ MacVod.main W depth fuel st = (Raise SystemExit, st')
                 | other => MacVod.main W depth fuel st = other
                 end)))
  /\ forall e, fst (MacVod.main W depth fuel st) = Raise e ->
               e = SystemExit \/ e = RecursionError.
Proof.
  split; [|intros e; exact (main_of_raises W fuel Vod depth st e)].
  revert st. induction depth as [|depth IH]; intros st;
    lazymatch goal with
    | |- context [MacVod.main W ?d fuel st] =>
        change (MacVod.main W d fuel st) with (main_of Vod W d fuel st)
    end;
    rewrite main_of_unfold; cbn [try_block];
    destruct (MacVod.main_body W fuel st) as [[[]|e|] st1] eqn:Eb.
  - exists 0%nat. cbn [attempts_fail after_attempts]. rewrite Eb.
    split; [lia|]. split; [exact I|]. right. split; [lia | reflexivity].
  - destruct (is_Exception e) eqn:Ee.
    + rewrite (is_Exception_not_interrupt _ Ee).
      exists 1%nat. cbn [attempts_fail after_attempts]. rewrite Eb. cbn [fst snd].
      split; [lia|]. split; [split; [now exists e | exact I]|].
      left. split; reflexivity.
    + exists 0%nat. cbn [attempts_fail after_attempts]. rewrite Eb.
      split; [lia|]. split; [exact I|]. right. split; [lia|].
      split; [exact Ee|]. now destruct e.
  - exists 0%nat. cbn [attempts_fail after_attempts]. rewrite Eb.
    split; [lia|]. split; [exact I|]. right. split; [lia | reflexivity].
  - exists 0%nat. cbn [attempts_fail after_attempts]. rewrite Eb.
    split; [lia|]. split; [exact I|]. right. split; [lia | reflexivity].
  - destruct (is_Exception e) eqn:Ee.
    + rewrite (is_Exception_not_interrupt _ Ee).
      destruct (IH st1) as (k & Hk & Hf & Hend).
      exists (S k). cbn [attempts_fail after_attempts]. rewrite Eb. cbn [fst snd].
      split; [lia|]. split; [split; [now exists e | exact Hf]|].
      change (main_of Vod W depth fuel st1) with (MacVod.main W depth fuel st1).
      destruct Hend as [[-> Hend]|[Hle Hend]].
      * left. split; [reflexivity | exact Hend].
      * right. split; [lia | exact Hend].
    + exists 0%nat. cbn [attempts_fail after_attempts]. rewrite Eb.
      split; [lia|]. split; [exact I|]. right. split; [lia|].
      split; [exact Ee|]. now destruct e.
  - exists 0%nat. cbn [attempts_fail after_attempts]. rewrite Eb.
    split; [lia|]. split; [exact I|]. right. split; [lia | reflexivity].
Qed.


(* ===================================================================== *)
(** * The file name, the play link and the [create_link] request *)
(* ===================================================================== *)

Section OneCharacter.

Variable c : ascii.

Hypothesis c_not_underscore : Ascii.eqb "_" c = false.

(** Replacing [c] by an underscore leaves no [c]. *)
Lemma replace_char_removes (s : string) :
  no_char c (str_replace (String c "") "_" s) = true.
Proof.
  unfold str_replace. induction s as [|a s IH]; [reflexivity|].
  cbn [replace_from startswith]. destruct (Ascii.eqb c a) eqn:E;
    cbn [andb append no_char String.length Nat.sub].
  - rewrite c_not_underscore. exact IH.
  - rewrite Ascii.eqb_sym, E. exact IH.
Qed.

(** Replacing something by an underscore brings no [c]. *)
Lemma replace_keeps_no_char (old s : string) (skip : nat) :
  no_char c s = true -> no_char c (replace_from old "_" skip s) = true.
Proof.
  revert skip. induction s as [|a s IH]; intros skip H; [reflexivity|].
  cbn in H. apply andb_true_iff in H. destruct H as [Ha Hs].
  cbn [replace_from]. destruct skip as [|k]; [|now apply IH].
  destruct (startswith old (String a s)); cbn [append no_char].
  - rewrite c_not_underscore. now apply IH.
  - rewrite Ha. now apply IH.
Qed.

End OneCharacter.

(** X6. The file name of the playlist starts with the base URL in which
    every [/], [.] and [:] has been replaced: none of the three
    characters is left in it, so that the name has no directory part. *)
Theorem X6_sanitized_name (base_url : string) :
  no_char "/" (sanitize base_url) = true
  /\ no_char "." (sanitize base_url) = true
  /\ no_char ":" (sanitize base_url) = true.
Proof.
  unfold sanitize. repeat split.
  - apply replace_keeps_no_char; [reflexivity|].
    apply replace_keeps_no_char; [reflexivity|].
    apply replace_char_removes. reflexivity.
  - apply replace_keeps_no_char; [reflexivity|].
    apply replace_char_removes. reflexivity.
  - apply replace_char_removes. reflexivity.
Qed.

(** ** [split] *)

Lemma split_on_head (sep : ascii) (s cur x : string) :
  nth_error (split_on sep cur s) 0 = Some x ->
  exists b a, s = b ++ a /\ x = cur ++ b /\ no_char sep b = true
              /\ (a = "" \/ exists a', a = String sep a').
Proof.
  revert cur. induction s as [|c s IH]; intros cur; cbn [split_on].
  - intros [= <-]. exists "", "". rewrite !append_nil_r. auto.
  - destruct (Ascii.eqb c sep) eqn:E.
    + apply Ascii.eqb_eq in E. subst c. intros [= <-].
      exists "", (String sep s). rewrite !append_nil_r. eauto 6.
    + intros H. destruct (IH _ H) as (b & a & -> & -> & Hb & Ha).
      exists (String c b), a. rewrite append_assoc. cbn. rewrite E. auto.
Qed.

Lemma split_on_second (sep : ascii) (s cur x : string) :
  nth_error (split_on sep cur s) 1 = Some x ->
  exists b a, s = b ++ String sep (x ++ a) /\ no_char sep b = true
              /\ no_char sep x = true
              /\ (a = "" \/ exists a', a = String sep a').
Proof.
  revert cur. induction s as [|c s IH]; intros cur; cbn [split_on].
  - discriminate.
  - destruct (Ascii.eqb c sep) eqn:E.
    + apply Ascii.eqb_eq in E. subst c. cbn [nth_error]. intros H.
      destruct (split_on_head _ _ _ _ H) as (b & a & -> & -> & Hb & Ha).
      exists "", a. cbn. auto.
    + intros H. destruct (IH _ H) as (b & a & -> & Hb & Hx & Ha).
      exists (String c b), a. cbn. rewrite E. auto.
Qed.

Lemma play_link_fields (r : response) (link : string) :
  play_link_of r = Ret (Some link) ->
  status_code r = 200%Z
  /\ exists cmd before after,
       link_cmd r = Ret (PStr cmd)
       /\ cmd = before ++ " " ++ link ++ after
       /\ no_char " " before = true /\ no_char " " link = true
       /\ (after = "" \/ startswith " " after = true).
Proof.
  unfold play_link_of, link_cmd.
  destruct (Z.eqb_spec (status_code r) 200) as [E200|]; [|discriminate].
  destruct (json_loads r) as [data|e|]; cbn [rbind]; try discriminate.
  destruct (Py.getitem data "js") as [js|e|]; cbn [rbind]; try discriminate.
  destruct (Py.getitem js "cmd") as [cmd|e|]; cbn [rbind]; try discriminate.
  destruct cmd as [| | |cmd| |]; cbn [Py.split rbind]; try discriminate.
  unfold Py.nth_str, PyStr.split.
  destruct (nth_error (split_on " " "" cmd) 1) as [x|] eqn:E; cbn [rbind];
    [|discriminate].
  intros [= <-]. split; [exact E200|].
  destruct (split_on_second _ _ _ _ E) as (b & a & -> & Hb & Hx & Ha).
  exists (b ++ String " " (x ++ a)), b, a.
  repeat split; try assumption.
  destruct Ha as [->|(a' & ->)]; [now left | now right].
Qed.

Lemma fetch_play_link_reply (W : world) (base_url : string) (cmd_vod : pyval)
      (cmd_show : string) (episode_num : pyval) (st : log) (link : string) :
  fst (MacVod.fetch_play_link W base_url cmd_vod st) = Ret (Some link)
  \/ fst (MacShow.fetch_play_link W base_url cmd_show episode_num st)
     = Ret (Some link) ->
  exists r, w_reply W (count is_get st) = Responded r
            /\ play_link_of r = Ret (Some link).
Proof.
  unfold MacVod.fetch_play_link, MacShow.fetch_play_link, try_except, mbind,
    lift, http_get, aio_get, mret.
  intros [H|H].
  - destruct (Py.quote cmd_vod) as [q|e|]; cbn in H; try discriminate H.
    destruct (w_reply W (count is_get st)) as [|r]; [discriminate H|].
    exists r. split; [reflexivity|].
    destruct (play_link_of r) as [l|e|]; cbn in H;
      try destruct (is_TransportError e); try discriminate H; exact H.
  - destruct (w_reply W (count is_get st)) as [|r];
      [destruct (w_timeout W _); discriminate H|].
    exists r. split; [reflexivity|].
    destruct (play_link_of r) as [l|e|]; cbn in H;
      try destruct (is_TransportError e); try discriminate H; exact H.
Qed.

(** X7. What [fetch_play_link] takes for the play link.  When
    [fetch_play_link] returns a link, in [macvod.py] or in [macshow.py],
    the reply to its request had status 200 and a JSON body whose
    [js.cmd] is a string, and the link is the second of the fields of
    [js.cmd] that single spaces separate: [js.cmd] is a first field
    without a space, a space, the link, which has no space, and then
    nothing or a space and more. *)
Theorem X7_link_is_second_field
  (W : world) (base_url : string) (cmd_vod : pyval) (cmd_show : string)
  (episode_num : pyval) (st : log) (link : string) :
  fst (MacVod.fetch_play_link W base_url cmd_vod st) = Ret (Some link)
  \/ fst (MacShow.fetch_play_link W base_url cmd_show episode_num st)
     = Ret (Some link) ->
  exists r cmd before after,
    w_reply W (count is_get st) = Responded r
    /\ status_code r = 200%Z
    /\ link_cmd r = Ret (PStr cmd)
    /\ cmd = before ++ " " ++ link ++ after
    /\ no_char " " before = true /\ no_char " " link = true
    /\ (after = "" \/ startswith " " after = true).
Proof.
  intros H.
  destruct (fetch_play_link_reply W base_url cmd_vod cmd_show episode_num st link H)
    as (r & Er & Hr).
  destruct (play_link_fields r link Hr) as (E200 & cmd & b & a & H').
  exists r, cmd, b, a. auto.
Qed.

Lemma X7_witness :
  exists r cmd before after,
    w_reply (Demo.world_of [] [DemoVod.link]) (count is_get []) = Responded r
    /\ status_code r = 200%Z
    /\ link_cmd r = Ret (PStr cmd)
    /\ cmd = before ++ " " ++ "http://cdn.example.com/film.mp4?token=abc" ++ after
    /\ no_char " " before = true
    /\ no_char " " "http://cdn.example.com/film.mp4?token=abc" = true
    /\ (after = "" \/ startswith " " after = true).
Proof.
  apply (X7_link_is_second_field (Demo.world_of [] [DemoVod.link])
           "http://example.com:8080" (PStr "ffmpeg http://vod.example.com/1.mp4")
           "" PNone []).
  left. reflexivity.
Defined.

(** ** [quote] *)

Lemma hex_digit_high (c : ascii) :
  quote_safe (hex_digit (nat_of_ascii c / 16)) = true.
Proof. destruct c as [[] [] [] [] [] [] [] []]; reflexivity. Qed.

Lemma hex_digit_low (c : ascii) :
  quote_safe (hex_digit (nat_of_ascii c mod 16)) = true.
Proof. destruct c as [[] [] [] [] [] [] [] []]; reflexivity. Qed.

Lemma quote_quoted (s : string) : string_forall quoted_char (quote s) = true.
Proof.
  induction s as [|c s IH]; [reflexivity|]. cbn [quote].
  destruct (quote_safe c) eqn:E; cbv zeta; cbn [string_forall]; rewrite IH;
    unfold quoted_char.
  - now rewrite E.
  - now rewrite hex_digit_high, hex_digit_low.
Qed.

Lemma quote_safe_id (s : string) :
  string_forall quote_safe s = true -> quote s = s.
Proof.
  induction s as [|c s IH]; [reflexivity|]. cbn.
  intros H. apply andb_true_iff in H. destruct H as [Hc Hs].
  now rewrite Hc, IH.
Qed.

(** X8. The [create_link] request of [macvod.py].  For a command that is
    a string, [fetch_play_link] sends one request, without header, to
    [create_link] of the base URL, and the command is in it
    percent-encoded: after [cmd=] come only letters, digits, [_ . - ~ /]
    and [%], and a command of such characters alone is sent as it is.
    For a command that is not a string, the call ends in [TypeError]
    before anything is sent. *)
Theorem X8_create_link_request
  (W : world) (base_url : string) (cmd : pyval) (st : log) :
  match cmd with
  | PStr s =>
      exists q,
        snd (MacVod.fetch_play_link W base_url cmd st)
        = (st ++ [EGet {| rq_site := CreateLink;
                          rq_url := base_url
                                    ++ "/portal.php?type=vod&action=create_link&cmd="
                                    ++ q;
                          rq_headers := [] |}
                       (w_reply W (count is_get st))])%list
        /\ string_forall quoted_char q = true
        /\ (string_forall quote_safe s = true -> q = s)
  | _ => MacVod.fetch_play_link W base_url cmd st = (Raise TypeError, st)
  end.
Proof.
  destruct cmd as [| | |s| |]; try reflexivity.
  exists (quote s). split; [|split; [apply quote_quoted | apply quote_safe_id]].
  unfold MacVod.fetch_play_link, Py.quote, try_except, mbind, lift, http_get, mret.
  destruct (w_reply W (count is_get st)) as [|r]; [reflexivity|].
  now destruct (play_link_of r) as [l|[]|].
Qed.


(* ===================================================================== *)
(** * maclist.py: the genres and the playlist of channels *)
(* ===================================================================== *)

Lemma key_eqb_sym (a b : pyval) : Py.key_eqb a b = Py.key_eqb b a.
Proof.
  destruct a as [|[]|x|s|l|d], b as [|[]|y|t|l'|d']; cbn; try reflexivity;
    try apply Z.eqb_sym; apply String.eqb_sym.
Qed.

Lemma key_eqb_trans (a b c : pyval) :
  Py.key_eqb a b = true -> Py.key_eqb b c = true -> Py.key_eqb a c = true.
Proof.
  destruct a as [|[]|x|s|l|d], b as [|[]|y|t|l'|d'], c as [|[]|z|u|l''|d''];
    cbn; try discriminate; try reflexivity;
    rewrite ?Z.eqb_eq, ?String.eqb_eq; intros; subst; try lia; try congruence.
Qed.

Lemma dict_lookup_store (d : Py.pydict) (k v k' : pyval) :
  Py.dict_lookup (Py.dict_store d k v) k'
  = if Py.key_eqb k' k then Some v else Py.dict_lookup d k'.
Proof.
  induction d as [|[k0 v0] d IH]; cbn [Py.dict_store Py.dict_lookup].
  - reflexivity.
  - destruct (Py.key_eqb k k0) eqn:E; cbn [Py.dict_lookup].
    + destruct (Py.key_eqb k' k0) eqn:E0.
      * rewrite (key_eqb_sym k k0) in E.
        now rewrite (key_eqb_trans k' k0 k E0 E).
      * destruct (Py.key_eqb k' k) eqn:E1; [|reflexivity].
        now rewrite (key_eqb_trans k' k k0 E1 E) in E0.
    + destruct (Py.key_eqb k' k0) eqn:E0; [|exact IH].
      destruct (Py.key_eqb k' k) eqn:E1; [|reflexivity].
      rewrite (key_eqb_sym k' k) in E1.
      now rewrite (key_eqb_trans k k' k0 E1 E0) in E.
Qed.

Lemma genre_dict_lookup (groups : list pyval) (acc d : Py.pydict) (k : pyval) :
  MacList.genre_dict groups acc = Ret d ->
  (Py.dict_lookup d k = Py.dict_lookup acc k /\ Forall (other_genre k) groups)
  \/ exists pre g post id title,
       groups = (pre ++ g :: post)%list
       /\ Py.getitem g "id" = Ret id /\ Py.key_eqb k id = true
       /\ Py.getitem g "title" = Ret title
       /\ Py.dict_lookup d k = Some title
       /\ Forall (other_genre k) post.
Proof.
  revert acc. induction groups as [|g rest IH]; intros acc; cbn [MacList.genre_dict].
  - intros [= <-]. left. split; [reflexivity | constructor].
  - destruct (Py.getitem g "id") as [id|e|] eqn:Eid; cbn [rbind]; try discriminate.
    destruct (Py.getitem g "title") as [title|e|] eqn:Et; cbn [rbind];
      try discriminate.
    unfold Py.dict_set. destruct (Py.hashable id); cbn [rbind]; [|discriminate].
    intros H. destruct (IH _ H) as [[El Fr]|(pre & g' & post & id' & t' & -> & H')].
    + rewrite dict_lookup_store in El.
      destruct (Py.key_eqb k id) eqn:Ek.
      * right. exists [], g, rest, id, title. auto 7.
      * left. split; [exact El|]. constructor; [|exact Fr].
        intros id0 E0. rewrite Eid in E0. now injection E0 as <-.
    + right. exists (g :: pre), g', post, id', t'. auto.
Qed.

(** X9. The group of a channel in the playlist of [maclist.py].  The
    group title of the entry of a channel is the title of the last genre
    of the portal's list whose id equals the channel's [tv_genre_id], and
    ["General"] when no genre has that id. *)
Theorem X9_group_of_channel
  (base_url mac : string) (groups : list pyval) (group_info : Py.pydict)
  (channel k : pyval) (c : chunk) :
  MacList.genre_dict groups [] = Ret group_info ->
  Py.getitem channel "tv_genre_id" = Ret k ->
  MacList.channel_record base_url mac group_info channel = Ret c ->
  (chunk_group c = Some (PStr "General") /\ Forall (other_genre k) groups)
  \/ exists pre g post id title,
       groups = (pre ++ g :: post)%list
       /\ Py.getitem g "id" = Ret id /\ Py.key_eqb k id = true
       /\ Py.getitem g "title" = Ret title
       /\ chunk_group c = Some title
       /\ Forall (other_genre k) post.
Proof.
  intros Hd Hk. unfold MacList.channel_record. rewrite Hk. cbn [rbind].
  unfold Py.dict_get. destruct (Py.hashable k); cbn [rbind]; [|discriminate].
  intros H.
  assert (Hc : chunk_group c
               = Some (match Py.dict_lookup group_info k with
                       | Some v => v
                       | None => PStr "General"
                       end)).
  { repeat match type of H with
           | rbind ?r _ = _ => destruct r; cbn [rbind] in H; try discriminate H
           end.
    now injection H as <-. }
  destruct (genre_dict_lookup groups [] group_info k Hd)
    as [[El Fr]|(pre & g & post & id & title & -> & Hid & Hkid & Ht & El & Fp)].
  - left. rewrite Hc, El. auto.
  - right. exists pre, g, post, id, title. rewrite Hc, El. auto 7.
Qed.

Lemma X9_witness :
  (chunk_group (Entry (PStr "") (PStr "News") (PStr "Ch1")
                      (MacList.rewrite_local "b" "m" "http://localhost/ch/42_x"))
   = Some (PStr "General")
   /\ Forall (other_genre (PStr "1"))
             [PDict [("id", PStr "1"); ("title", PStr "News")]])
  \/ exists pre g post id title,
       [PDict [("id", PStr "1"); ("title", PStr "News")]] = (pre ++ g :: post)%list
       /\ Py.getitem g "id" = Ret id /\ Py.key_eqb (PStr "1") id = true
       /\ Py.getitem g "title" = Ret title
       /\ chunk_group (Entry (PStr "") (PStr "News") (PStr "Ch1")
                             (MacList.rewrite_local "b" "m" "http://localhost/ch/42_x"))
          = Some title
       /\ Forall (other_genre (PStr "1")) post.
Proof.
  apply (X9_group_of_channel "b" "m"
           [PDict [("id", PStr "1"); ("title", PStr "News")]]
           Demo.genres_A Demo.channel_A (PStr "1")).
  - reflexivity.
  - reflexivity.
  - reflexivity.
Defined.

(** ** The loop of [save_channel_list] *)

Lemma writes_succeed_next (W : world) (n k : nat) :
  writes_succeed W n (S k) ->
  w_write W n = Written /\ writes_succeed W (S n) k.
Proof.
  intros H. split.
  - rewrite <- (Nat.add_0_r n). apply H. lia.
  - intros i Hi. replace (S n + i)%nat with (n + S i)%nat by lia.
    apply H. lia.
Qed.

Lemma writes_succeed_world (W : world) (n k : nat) :
  (forall i, w_write W i = Written) -> writes_succeed W n k.
Proof. intros H i _. apply H. Qed.

Section ChannelLoop.

Variables (W : world) (base_url mac : string) (group_info : Py.pydict).

Let body : Z -> pyval -> M Z :=
  fun count channel =>
    mbind (lift (MacList.channel_record base_url mac group_info channel))
          (fun channel_str =>
             mbind (file_write W channel_str) (fun _ => mret (count + 1)%Z)).

Let recorded (channel : pyval) (c : chunk) : Prop :=
  MacList.channel_record base_url mac group_info channel = Ret c.

Lemma channel_loop_prefix (pre : list pyval) (cs : list chunk) :
  Forall2 recorded pre cs ->
  forall (rest : list pyval) (n : Z) (st : log),
    writes_succeed W (List.length st) (List.length cs) ->
    for_fold (pre ++ rest)%list n body st
    = for_fold rest (n + Z.of_nat (List.length cs))%Z body
               (st ++ map EWrite cs)%list.
Proof.
  induction 1 as [|ch c pre cs Hc _ IH]; intros rest n st Hw.
  - cbn. now rewrite Z.add_0_r, app_nil_r.
  - cbn [app for_fold]. rewrite mbind_run. unfold body at 1.
    unfold mbind at 1, lift at 1. rewrite Hc.
    cbn [List.length] in Hw. apply writes_succeed_next in Hw.
    destruct Hw as [Hw0 Hw].
    unfold mbind at 1, file_write, mret. rewrite Hw0. rewrite IH.
    + cbn [map List.length]. rewrite <- app_assoc. cbn [app].
      f_equal. lia.
    + rewrite length_app. cbn [List.length].
      now replace (List.length st + 1)%nat with (S (List.length st)) by lia.
Qed.



End ChannelLoop.


(** X10. The playlist of [maclist.py].  When every channel of the list
    has the fields that [save_channel_list] reads and every write to the
    file succeeds, the call opens the file named after the base URL and
    the time, writes the header and then one entry per channel, in the
    order of the list, and returns; when the file cannot be opened, the
    call returns as well, and nothing is written. *)
Theorem X10_one_entry_per_channel
  (W : world) (base_url current : string) (channels_data : pyval)
  (group_info : Py.pydict) (mac : string) (st : log)
  (channels : list pyval) (cs : list chunk) :
  Py.iter channels_data = Ret channels ->
  Forall2 (fun channel c =>
             MacList.channel_record base_url mac group_info channel = Ret c)
          channels cs ->
  writes_succeed W (S (List.length st)) (S (List.length cs)) ->
  MacList.save_channel_list W base_url current channels_data group_info mac st
  = if w_open W (count is_open st)
    then (Ret tt,
          (st ++ EOpen (sanitize base_url ++ "_" ++ current ++ ".m3u")
              :: EWrite Header :: map EWrite cs)%list)
    else (Ret tt,
          (st ++ [EOpen (sanitize base_url ++ "_" ++ current ++ ".m3u")])%list).
Proof.
  intros Hi Hc Hw.
  unfold MacList.save_channel_list, try_except. cbv zeta.
  rewrite mbind_run. unfold open_write at 1.
  destruct (w_open W (count is_open st)); [|reflexivity].
  apply writes_succeed_next in Hw. destruct Hw as [Hw0 Hw].
  rewrite mbind_run. unfold file_write at 1.
  rewrite length_app. cbn [List.length].
  replace (List.length st + 1)%nat with (S (List.length st)) by lia.
  rewrite Hw0.
  rewrite mbind_run. unfold lift at 1. rewrite Hi.
  rewrite mbind_run.
  rewrite <- (app_nil_r channels).
  rewrite (channel_loop_prefix W base_url mac group_info channels cs Hc [] 0%Z).
  - cbn [for_fold]. unfold mret. repeat rewrite <- app_assoc. reflexivity.
  - rewrite !length_app. cbn [List.length].
    now replace (List.length st + 1 + 1)%nat with (S (S (List.length st))) by lia.
Qed.

Lemma X10_witness :
  MacList.save_channel_list Demo.world_A "http://example.com:8080" "now"
    (PList [Demo.channel_A]) Demo.genres_A "00:1A" []
  = if w_open Demo.world_A (count is_open [])
    then (Ret tt,
          ([] ++ EOpen (sanitize "http://example.com:8080" ++ "_" ++ "now" ++ ".m3u")
              :: EWrite Header
              :: map EWrite
                   [Entry (PStr "") (PStr "News") (PStr "Ch1")
                          "http://example.com:8080/play/live.php?mac=00:1A&stream=42&extension=ts"])%list)
    else (Ret tt,
          ([] ++ [EOpen (sanitize "http://example.com:8080" ++ "_" ++ "now" ++ ".m3u")])%list).
Proof.
  apply (X10_one_entry_per_channel Demo.world_A "http://example.com:8080" "now"
           (PList [Demo.channel_A]) Demo.genres_A "00:1A" [] [Demo.channel_A]).
  - reflexivity.
  - constructor; [reflexivity | constructor].
  - intros i _. reflexivity.
Defined.






(* ===================================================================== *)
(** * The sentinel category *)
(* ===================================================================== *)

Lemma drop_sentinel_filter (cats kept : list pyval) :
  MacShow.drop_sentinel cats = Ret kept ->
  kept = filter (fun cat => negb (is_sentinel cat)) cats.
Proof.
  revert kept. induction cats as [|cat rest IH]; intros kept; cbn [MacShow.drop_sentinel].
  - now intros [= <-].
  - cbn [filter]. unfold is_sentinel.
    destruct (Py.getitem cat "id") as [id|e|]; cbn [rbind]; try discriminate.
    destruct (MacShow.drop_sentinel rest) as [kept'|e|]; cbn [rbind];
      try discriminate.
    intros [= <-]. rewrite (IH kept' eq_refl). reflexivity.
Qed.

(** X12. The categories of [macshow.py].  When [get_series_categories]
    returns a list, the reply had status 200 and the list is the list of
    [js] of the reply without the categories whose id is ["*"], in the
    same order; no category of the list has the id ["*"]. *)
Theorem X12_series_categories_without_sentinel
  (W : world) (base_url : string) (headers : list (string * string))
  (st : log) (kept : list pyval) :
  fst (MacShow.get_series_categories W base_url headers st) = Ret (PList kept) ->
  exists r cats,
    w_reply W (count is_get st) = Responded r
    /\ status_code r = 200%Z
    /\ js_items r = Ret cats
    /\ kept = filter (fun cat => negb (is_sentinel cat)) cats
    /\ Forall (fun cat => is_sentinel cat = false) kept.
Proof.
  unfold MacShow.get_series_categories, try_except, mbind, aio_get, lift, mret,
    js_items.
  destruct (w_reply W (count is_get st)) as [|r];
    [destruct (w_timeout W _); discriminate|]. cbn [fst].
  destruct (Z.eqb_spec (status_code r) 200) as [E200|]; [|discriminate].
  destruct (json_loads r) as [data|e|] eqn:E1; cbn [rbind];
    try (try destruct (is_TransportError e); discriminate).
  destruct (Py.getitem data "js") as [js|e|] eqn:E2; cbn [rbind];
    try (try destruct (is_TransportError e); discriminate).
  destruct (Py.iter js) as [cats|e|] eqn:E3; cbn [rbind];
    try (try destruct (is_TransportError e); discriminate).
  destruct (MacShow.drop_sentinel cats) as [kept'|e|] eqn:Ek;
    try (try destruct (is_TransportError e); discriminate).
  cbn [fst]. intros [= <-]. exists r, cats.
  pose proof (drop_sentinel_filter cats kept' Ek) as ->.
  split; [reflexivity|]. split; [exact E200|].
  split; [rewrite E1; cbn [rbind]; rewrite E2; cbn [rbind]; exact E3|].
  split; [reflexivity|].
  apply Forall_forall. intros cat Hin. apply filter_In in Hin.
  destruct Hin as [_ Hn]. now apply negb_true_iff in Hn.
Qed.

Lemma X12_witness :
  exists r cats,
    w_reply (Demo.world_of [] [Demo.ok DemoVod.categories]) (count is_get [])
    = Responded r
    /\ status_code r = 200%Z
    /\ js_items r = Ret cats
    /\ [PDict [("id", PStr "5"); ("title", PStr "Action")]]
       = filter (fun cat => negb (is_sentinel cat)) cats
    /\ Forall (fun cat => is_sentinel cat = false)
              [PDict [("id", PStr "5"); ("title", PStr "Action")]].
Proof.
  apply (X12_series_categories_without_sentinel
           (Demo.world_of [] [Demo.ok DemoVod.categories]) "http://example.com:8080"
           [] []).
  reflexivity.
Defined.

Lemma submit_all_cons (W : world) (fuel : nat) (base_url : string)
      (headers : list (string * string)) (cat : pyval) (rest : list pyval)
      (id : pyval) (st : log) :
  Py.getitem cat "id" = Ret id ->
  MacVod.submit_all W fuel base_url headers (cat :: rest) st
  = if Py.eq_str id "*"
    then MacVod.submit_all W fuel base_url headers rest st
    else
      match submit (MacVod.fetch_and_save_vods W fuel base_url headers cat) st with
      | (Ret future, st1) =>
          match MacVod.submit_all W fuel base_url headers rest st1 with
          | (Ret futures, st2) => (Ret ((future, cat) :: futures), st2)
          | (Raise e, st2) => (Raise e, st2)
          | (OutOfFuel, st2) => (OutOfFuel, st2)
          end
      | (Raise e, st1) => (Raise e, st1)
      | (OutOfFuel, st1) => (OutOfFuel, st1)
      end.
Proof.
  intros H. cbn [MacVod.submit_all]. unfold mbind, lift, mret. rewrite H.
  now destruct (Py.eq_str id "*").
Qed.

(** X13. The categories of [macvod.py].  A job is submitted for each
    category whose id is not ["*"], and for no other: when every category
    has an id, submitting the jobs of a list of categories is submitting
    the jobs of the list without the categories whose id is ["*"], and
    the futures are those of these categories, in the same order. *)
Theorem X13_no_job_for_sentinel
  (W : world) (fuel : nat) (base_url : string)
  (headers : list (string * string)) (categories : list pyval) (st : log) :
  Forall (fun cat => exists id, Py.getitem cat "id" = Ret id) categories ->
  MacVod.submit_all W fuel base_url headers categories st
  = MacVod.submit_all W fuel base_url headers
      (filter (fun cat => negb (is_sentinel cat)) categories) st
  /\ forall futures,
       fst (MacVod.submit_all W fuel base_url headers categories st) = Ret futures ->
       map snd futures = filter (fun cat => negb (is_sentinel cat)) categories.
Proof.
  intros H. revert st.
  induction H as [|cat rest [id Hid] _ IH]; intros st.
  - split; [reflexivity|]. cbn. now intros futures [= <-].
  - assert (Hs : is_sentinel cat = Py.eq_str id "*")
      by (unfold is_sentinel; now rewrite Hid).
    rewrite (submit_all_cons W fuel base_url headers cat rest id st Hid).
    cbn [filter]. rewrite Hs.
    destruct (Py.eq_str id "*") eqn:Es; cbn [negb]; [apply IH|].
    rewrite (submit_all_cons W fuel base_url headers cat _ id st Hid), Es.
    destruct (submit (MacVod.fetch_and_save_vods W fuel base_url headers cat) st)
      as [[future|e|] st1]; try (split; [reflexivity | discriminate]).
    destruct (IH st1) as [IH1 IH2]. rewrite <- IH1.
    split; [reflexivity|].
    destruct (MacVod.submit_all W fuel base_url headers rest st1)
      as [[futures'|e|] st2]; try discriminate.
    cbn [fst] in IH2 |- *.
    intros futures [= <-]. cbn [map snd]. now rewrite (IH2 futures' eq_refl).
Qed.

Lemma X13_witness :
  MacVod.submit_all DemoVod.portal 5 "http://example.com:8080" []
    [PDict [("id", PStr "*"); ("title", PStr "All")]] []
  = MacVod.submit_all DemoVod.portal 5 "http://example.com:8080" []
      (filter (fun cat => negb (is_sentinel cat))
              [PDict [("id", PStr "*"); ("title", PStr "All")]]) []
  /\ forall futures,
       fst (MacVod.submit_all DemoVod.portal 5 "http://example.com:8080" []
              [PDict [("id", PStr "*"); ("title", PStr "All")]] []) = Ret futures ->
       map snd futures
       = filter (fun cat => negb (is_sentinel cat))
                [PDict [("id", PStr "*"); ("title", PStr "All")]].
Proof.
  apply (X13_no_job_for_sentinel DemoVod.portal 5 "http://example.com:8080" []
           [PDict [("id", PStr "*"); ("title", PStr "All")]] []).
  constructor; [|constructor]. exists (PStr "*"). reflexivity.
Defined.

(* ===================================================================== *)
(** * The account request *)
(* ===================================================================== *)

(** X14. The subscription check, which is the same in the three
    scripts, passes exactly when the account request is answered with
    status 200 and a JSON body that has [js.mac] and [js.phone]. *)
Theorem X14_subscription_check
  (W : world) (base_url : string) (token : pyval) (st : log) :
  (fst (MacList.get_subscription W base_url token st) = Ret true
   <-> account_passes W st)
  /\ (fst (MacVod.get_subscription W base_url token st) = Ret true
      <-> account_passes W st)
  /\ (fst (MacShow.get_subscription W base_url token st) = Ret true
      <-> account_passes W st).
Proof.
  assert (H : fst (MacList.get_subscription W base_url token st) = Ret true
              <-> account_passes W st).
  { unfold account_passes. split.
    - unfold MacList.get_subscription, try_except, mbind, http_get, lift, mret.
      destruct (w_reply W (count is_get st)) as [|r]; [discriminate|]. cbn [fst].
      destruct (Z.eqb_spec (status_code r) 200) as [E200|N200]; [|discriminate].
      destruct (json_loads r) as [data|e|] eqn:E1; cbn [rbind fst];
        try (try destruct (is_TransportError e); discriminate).
      destruct (Py.getitem data "js") as [js|e|] eqn:E2; cbn [rbind fst];
        try (try destruct (is_TransportError e); discriminate).
      destruct (Py.getitem js "mac") as [m|e|] eqn:E3; cbn [rbind fst];
        try (try destruct (is_TransportError e); discriminate).
      destruct (Py.getitem js "phone") as [p|e|] eqn:E4; cbn [rbind fst];
        try (try destruct (is_TransportError e); discriminate).
      intros _. exists r, p. split; [reflexivity|]. split; [exact E200|].
      unfold account_fields. rewrite E1. cbn [rbind]. rewrite E2. cbn [rbind].
      rewrite E3. cbn [rbind]. exact E4.
    - intros (r & p & Er & E200 & Hf).
      unfold MacList.get_subscription, try_except, mbind, http_get, lift, mret.
      rewrite Er, E200. cbn [Z.eqb Pos.eqb fst]. unfold account_fields in Hf.
      destruct (json_loads r) as [data|e|]; cbn [rbind] in Hf; try discriminate Hf.
      destruct (Py.getitem data "js") as [js|e|]; cbn [rbind] in Hf;
        try discriminate Hf.
      destruct (Py.getitem js "mac") as [m|e|]; cbn [rbind] in Hf;
        try discriminate Hf.
      rewrite Hf. reflexivity. }
  assert (H' : fst (MacShow.get_subscription W base_url token st) = Ret true
              <-> account_passes W st).
  { unfold account_passes. split.
    - unfold MacShow.get_subscription, try_except, mbind, aio_get, lift, mret.
      destruct (w_reply W (count is_get st)) as [|r];
        [destruct (w_timeout W _); discriminate|]. cbn [fst].
      destruct (Z.eqb_spec (status_code r) 200) as [E200|N200]; [|discriminate].
      destruct (json_loads r) as [data|e|] eqn:E1; cbn [rbind fst];
        try (try destruct (is_TransportError e); discriminate).
      destruct (Py.getitem data "js") as [js|e|] eqn:E2; cbn [rbind fst];
        try (try destruct (is_TransportError e); discriminate).
      destruct (Py.getitem js "mac") as [m|e|] eqn:E3; cbn [rbind fst];
        try (try destruct (is_TransportError e); discriminate).
      destruct (Py.getitem js "phone") as [p|e|] eqn:E4; cbn [rbind fst];
        try (try destruct (is_TransportError e); discriminate).
      intros _. exists r, p. split; [reflexivity|]. split; [exact E200|].
      unfold account_fields. rewrite E1. cbn [rbind]. rewrite E2. cbn [rbind].
      rewrite E3. cbn [rbind]. exact E4.
    - intros (r & p & Er & E200 & Hf).
      unfold MacShow.get_subscription, try_except, mbind, aio_get, lift, mret.
      rewrite Er, E200. cbn [Z.eqb Pos.eqb fst]. unfold account_fields in Hf.
      destruct (json_loads r) as [data|e|]; cbn [rbind] in Hf; try discriminate Hf.
      destruct (Py.getitem data "js") as [js|e|]; cbn [rbind] in Hf;
        try discriminate Hf.
      destruct (Py.getitem js "mac") as [m|e|]; cbn [rbind] in Hf;
        try discriminate Hf.
      rewrite Hf. reflexivity. }
  repeat split; first [apply H | apply H'].
Qed.


(* ===================================================================== *)
(** * The handshake, as a function of the reply *)
(* ===================================================================== *)

(** X15. What [get_token] gives, by the reply to the handshake.  With a
    body that is not JSON it gives [None], in the three scripts; with a
    JSON body it gives [js.token], and the [KeyError] or [TypeError] of a
    body without [js.token] leaves the function.  Without a response,
    [maclist.py] and [macvod.py] give [None]; [macshow.py] gives [None]
    when the request failed with an [aiohttp.ClientError], and when the
    request timed out the [asyncio.TimeoutError] leaves the function.  In
    [macshow.py] a response whose content type does not start with
    [text/javascript] gives [None] whatever its body. *)
Theorem X15_token_of_the_reply (W : world) (base_url : string) (st : log) :
  fst (MacList.get_token W base_url st)
  = match w_reply W (count is_get st) with
    | NoResponse => Ret PNone
    | Responded r => token_of_body r
    end
  /\ fst (MacVod.get_token W base_url st)
     = match w_reply W (count is_get st) with
       | NoResponse => Ret PNone
       | Responded r => token_of_body r
       end
  /\ fst (MacShow.get_token W base_url st)
     = match w_reply W (count is_get st) with
       | NoResponse =>
           if w_timeout W (count is_get st) then Raise TimeoutError else Ret PNone
       | Responded r =>
           if startswith "text/javascript" (content_type r)
           then token_of_body r
           else Ret PNone
       end.
Proof.
  unfold token_of_body.
  assert (H : forall r,
             fst (try_except
                    (mbind (lift (json_loads r)) (fun data =>
                     mbind (lift (Py.getitem data "js")) (fun js =>
                     lift (Py.getitem js "token"))))
                    is_Transport_or_JSON (fun _ => mret PNone)
                    (st ++ [EGet {| rq_site := Handshake;
                                    rq_url := base_url ++ "/portal.php?action=handshake&type=stb&token=&JsHttpRequest=1-xml";
                                    rq_headers := [] |} (Responded r)])%list)
             = match parsed r with
               | None => Ret PNone
               | Some _ => handshake_token r
               end).
  { intros r. unfold try_except, mbind, lift, mret, handshake_token, json_loads.
    destruct (parsed r) as [data|]; [|reflexivity]. cbn [rbind].
    unfold Py.getitem.
    destruct data as [| | | | |d]; try reflexivity.
    destruct (Py.assoc "js" d) as [js|]; [|reflexivity]. cbn [rbind].
    destruct js as [| | | | |d']; try reflexivity.
    now destruct (Py.assoc "token" d'). }
  repeat split.
  - unfold MacList.get_token. cbv zeta. unfold try_except at 1, mbind at 1, http_get.
    destruct (w_reply W (count is_get st)) as [|r]; [reflexivity|].
    exact (H r).
  - unfold MacVod.get_token. cbv zeta. unfold try_except at 1, mbind at 1, http_get.
    destruct (w_reply W (count is_get st)) as [|r]; [reflexivity|].
    exact (H r).
  - unfold MacShow.get_token. cbv zeta. unfold try_except at 1, mbind at 1, aio_get.
    destruct (w_reply W (count is_get st)) as [|r];
      [now destruct (w_timeout W _)|].
    destruct (startswith "text/javascript" (content_type r)); [|reflexivity].
    exact (H r).
Qed.

(* ===================================================================== *)
(** * The end of a crawl *)
(* ===================================================================== *)

Section Halts.

Variable W : world.

Lemma halts_mret {A : Type} (a : A) : halts (mret a).
Proof. intros st. discriminate. Qed.

Lemma halts_lift {A : Type} (r : result A) : r <> OutOfFuel -> halts (lift r).
Proof. intros H st. exact H. Qed.

Lemma halts_mbind {A B : Type} (m : M A) (f : A -> M B) :
  halts m -> (forall a, halts (f a)) -> halts (mbind m f).
Proof.
  intros Hm Hf st. rewrite mbind_run. specialize (Hm st).
  destruct (m st) as [[a|e|] st1]; [apply Hf | discriminate | now destruct Hm].
Qed.

Lemma halts_try_except {A : Type} (m : M A) (classes : exn -> bool)
      (h : exn -> M A) :
  halts m -> (forall e, halts (h e)) -> halts (try_except m classes h).
Proof.
  intros Hm Hh st. unfold try_except. specialize (Hm st).
  destruct (m st) as [[a|e|] st1]; [discriminate | | exact Hm].
  destruct (classes e); [apply Hh | discriminate].
Qed.

Lemma halts_for_fold {A S : Type} (xs : list A) (body : S -> A -> M S) :
  (forall acc x, halts (body acc x)) -> forall acc, halts (for_fold xs acc body).
Proof.
  intros Hb. induction xs as [|x xs IH]; intros acc; cbn [for_fold].
  - apply halts_mret.
  - apply halts_mbind; [apply Hb | exact IH].
Qed.

Lemma halts_http_get (site : callsite) (url : string)
      (headers : list (string * string)) :
  halts (http_get W site url headers).
Proof.
  intros st. unfold http_get. now destruct (w_reply W (count is_get st)).
Qed.

Lemma halts_aio_get (site : callsite) (url : string)
      (headers : list (string * string)) :
  halts (aio_get W site url headers).
Proof.
  intros st. unfold aio_get. now destruct (w_reply W (count is_get st)).
Qed.

Lemma halts_file_write (c : chunk) : halts (file_write W c).
Proof. intros st. unfold file_write. now destruct (w_write W _). Qed.

Lemma rbind_halts {A B : Type} (r : result A) (f : A -> result B) :
  r <> OutOfFuel -> (forall a, f a <> OutOfFuel) -> rbind r f <> OutOfFuel.
Proof. intros Hr Hf. destruct r; [apply Hf | discriminate | now destruct Hr]. Qed.

(** A function on values ends. *)
Ltac pure_halts :=
  unfold play_link_of, MacShow.format_episode_number, MacShow.py_int;
  repeat first
    [ discriminate
    | apply rbind_halts; [|intros]
    | match goal with
      | |- (if ?c then _ else _) <> _ => destruct c
      | |- match ?x with _ => _ end <> _ => destruct x
      end
    | progress unfold Py.getitem, Py.get_default, Py.iter, Py.quote, Py.split,
        Py.nth_str, Py.len, Py.format_d, json_loads ].

Ltac halts_step :=
  lazymatch goal with
  | |- halts (mbind _ _) => apply halts_mbind; [|intros]
  | |- halts (mret _) => apply halts_mret
  | |- halts (lift _) => apply halts_lift; pure_halts
  | |- halts (try_except _ _ _) => apply halts_try_except; [|intros]
  | |- halts (for_fold _ _ _) => apply halts_for_fold; intros
  | |- halts (file_write _ _) => apply halts_file_write
  | |- halts (http_get _ _ _ _) => apply halts_http_get
  | |- halts (aio_get _ _ _ _) => apply halts_aio_get
  | |- halts (if ?c then _ else _) => destruct c
  | |- halts (match ?x with _ => _ end) => destruct x
  | |- halts (let _ := _ in _) => cbv zeta
  end.

Lemma halts_save_vod_list (vod_data : pyval) (base_url : string)
      (category_title : pyval) :
  halts (MacVod.save_vod_list W vod_data base_url category_title).
Proof.
  unfold MacVod.save_vod_list, MacVod.fetch_play_link. repeat halts_step.
Qed.

Lemma halts_save_series_data (series_data : pyval) (base_url : string)
      (headers : list (string * string)) (category_title : pyval) :
  halts (MacShow.save_series_data W series_data base_url headers category_title).
Proof.
  unfold MacShow.save_series_data, MacShow.save_seasons, MacShow.save_episodes,
    MacShow.get_seasons_episodes, MacShow.fetch_play_link.
  repeat halts_step.
Qed.

Lemma halts_get_vod_list (base_url : string) (headers : list (string * string))
      (category_id : pyval) (page : Z) :
  halts (MacVod.get_vod_list W base_url headers category_id page).
Proof. unfold MacVod.get_vod_list. repeat halts_step. Qed.

Lemma halts_get_series_list (base_url : string) (headers : list (string * string))
      (category_id : pyval) (page : Z) :
  halts (MacShow.get_series_list W base_url headers category_id page).
Proof. unfold MacShow.get_series_list. repeat halts_step. Qed.

Lemma vod_pages_endless (fuel : nat) (base_url : string)
      (headers : list (string * string)) (category_id category_title : pyval)
      (page total_count : Z) (st : log) :
  fst (MacVod.vod_pages W fuel base_url headers category_id category_title
                        page total_count st) = OutOfFuel ->
  exists evs,
    snd (MacVod.vod_pages W fuel base_url headers category_id category_title
                          page total_count st) = (st ++ evs)%list
    /\ List.length (page_events evs) = fuel
    /\ Forall (fun p => page_continues (snd p) = true) (page_events evs).
Proof.
  revert page total_count st.
  induction fuel as [|fuel IH]; intros page total_count st; cbn [MacVod.vod_pages].
  { intros _. exists []. rewrite app_nil_r. repeat split. constructor. }
  rewrite mbind_run.
  destruct (vod_get_vod_list_page W base_url headers category_id page st)
    as (url & E & Hc). cbv zeta in E, Hc.
  pose proof (halts_get_vod_list base_url headers category_id page st) as Hg.
  destruct (MacVod.get_vod_list W base_url headers category_id page st)
    as [[vod_data|e|] st1]; cbn [fst snd] in E, Hc, Hg; subst st1;
    [|discriminate|now destruct Hg].
  destruct (Py.truthy vod_data) eqn:Ht; cbn [negb]; [|discriminate].
  rewrite mbind_run.
  set (page_event := EGet {| rq_site := ItemPage page; rq_url := url;
                             rq_headers := headers |}
                          (w_reply W (count is_get st))).
  destruct (vod_save_vod_list_not_page W base_url vod_data category_title
              (st ++ [page_event])%list) as (evs1 & E1 & H1).
  apply page_events_not_page in H1.
  pose proof (halts_save_vod_list vod_data base_url category_title
                (st ++ [page_event])%list) as Hs.
  destruct (MacVod.save_vod_list W vod_data base_url category_title
              (st ++ [page_event])%list) as [[n|e|] st2];
    cbn [fst snd] in E1, Hs; subst st2; [|discriminate|now destruct Hs].
  intros Hout. destruct (IH _ _ _ Hout) as (evs & E' & Hlen & Hall).
  exists (page_event :: evs1 ++ evs)%list.
  split; [rewrite E'; repeat rewrite <- app_assoc; reflexivity|].
  change (page_event :: evs1 ++ evs)%list with ([page_event] ++ evs1 ++ evs)%list.
  rewrite !page_events_app, H1. cbn [page_events page_event rq_site app].
  split; [cbn [List.length]; now rewrite Hlen|].
  constructor; [cbn [snd]; congruence | exact Hall].
Qed.

Lemma series_pages_endless (fuel : nat) (base_url : string)
      (headers : list (string * string)) (category_id category_title : pyval)
      (page total_count : Z) (st : log) :
  fst (MacShow.series_pages W fuel base_url headers category_id category_title
                            page total_count st) = OutOfFuel ->
  exists evs,
    snd (MacShow.series_pages W fuel base_url headers category_id category_title
                              page total_count st) = (st ++ evs)%list
    /\ List.length (page_events evs) = fuel
    /\ Forall (fun p => page_continues (snd p) = true) (page_events evs).
Proof.
  revert page total_count st.
  induction fuel as [|fuel IH]; intros page total_count st;
    cbn [MacShow.series_pages].
  { intros _. exists []. rewrite app_nil_r. repeat split. constructor. }
  rewrite mbind_run.
  destruct (show_get_series_list_page W base_url headers category_id page st)
    as (url & E & Hc). cbv zeta in E, Hc.
  pose proof (halts_get_series_list base_url headers category_id page st) as Hg.
  destruct (MacShow.get_series_list W base_url headers category_id page st)
    as [[series_data|e|] st1]; cbn [fst snd] in E, Hc, Hg; subst st1;
    [|discriminate|now destruct Hg].
  destruct (Py.truthy series_data) eqn:Ht; cbn [negb]; [|discriminate].
  rewrite mbind_run.
  set (page_event := EGet {| rq_site := ItemPage page; rq_url := url;
                             rq_headers := headers |}
                          (w_reply W (count is_get st))).
  destruct (show_save_series_data_not_page W base_url headers series_data
              category_title (st ++ [page_event])%list) as (evs1 & E1 & H1).
  apply page_events_not_page in H1.
  pose proof (halts_save_series_data series_data base_url headers category_title
                (st ++ [page_event])%list) as Hs.
  destruct (MacShow.save_series_data W series_data base_url headers category_title
              (st ++ [page_event])%list) as [[n|e|] st2];
    cbn [fst snd] in E1, Hs; subst st2; [|discriminate|now destruct Hs].
  intros Hout. destruct (IH _ _ _ Hout) as (evs & E' & Hlen & Hall).
  exists (page_event :: evs1 ++ evs)%list.
  split; [rewrite E'; repeat rewrite <- app_assoc; reflexivity|].
  change (page_event :: evs1 ++ evs)%list with ([page_event] ++ evs1 ++ evs)%list.
  rewrite !page_events_app, H1. cbn [page_events page_event rq_site app].
  split; [cbn [List.length]; now rewrite Hlen|].
  constructor; [cbn [snd]; congruence | exact Hall].
Qed.

End Halts.

(** X16. The crawl of a category ends unless the pages do not: when the
    loop over the pages of a category is still running after [fuel]
    pages, in [fetch_and_save_vods] or in [fetch_and_save_series], it has
    asked for exactly [fuel] pages and every one of them came with status
    200 and items.  Nothing else in the crawl of a category can fail to
    end. *)
Theorem X16_only_endless_pages_keep_a_crawl_running
  (W : world) (fuel : nat) (base_url : string)
  (headers : list (string * string)) (category : pyval) (st : log) :
  (fst (MacVod.fetch_and_save_vods W fuel base_url headers category st) = OutOfFuel ->
   exists evs,
     snd (MacVod.fetch_and_save_vods W fuel base_url headers category st)
     = (st ++ evs)%list
     /\ List.length (page_events evs) = fuel
     /\ Forall (fun p => page_continues (snd p) = true) (page_events evs))
  /\ (fst (MacShow.fetch_and_save_series W fuel base_url headers category st)
      = OutOfFuel ->
      exists evs,
        snd (MacShow.fetch_and_save_series W fuel base_url headers category st)
        = (st ++ evs)%list
        /\ List.length (page_events evs) = fuel
        /\ Forall (fun p => page_continues (snd p) = true) (page_events evs)).
Proof.
  split.
  - unfold MacVod.fetch_and_save_vods, mbind, lift.
    destruct (Py.getitem category "id") as [id|e|] eqn:Ei; try discriminate.
    2: { exfalso. revert Ei. unfold Py.getitem.
         destruct category as [| | | | |d]; try discriminate.
         destruct (Py.assoc "id" d); discriminate. }
    destruct (Py.getitem category "title") as [title|e|] eqn:Et; try discriminate.
    2: { exfalso. revert Et. unfold Py.getitem.
         destruct category as [| | | | |d]; try discriminate.
         destruct (Py.assoc "title" d); discriminate. }
    destruct (Py.eq_str id "*"); [discriminate|].
    apply vod_pages_endless.
  - unfold MacShow.fetch_and_save_series, mbind, lift.
    destruct (Py.getitem category "id") as [id|e|] eqn:Ei; try discriminate.
    2: { exfalso. revert Ei. unfold Py.getitem.
         destruct category as [| | | | |d]; try discriminate.
         destruct (Py.assoc "id" d); discriminate. }
    destruct (Py.getitem category "title") as [title|e|] eqn:Et; try discriminate.
    2: { exfalso. revert Et. unfold Py.getitem.
         destruct category as [| | | | |d]; try discriminate.
         destruct (Py.assoc "title" d); discriminate. }
    apply series_pages_endless.
Qed.


(* ===================================================================== *)
(** * maclist.py, from the prompt to the playlist *)
(* ===================================================================== *)

Section ListRun.

Variable W : world.

Lemma list_get_base_url_run (st : log) (link : string)
      (host : option string) (port : option Z) :
  w_input W (count is_input st) = Line link ->
  w_urlparse W link = Ret (host, port) ->
  MacList.get_base_url W st
  = (Ret (list_base_url host port), (st ++ [EInput "Enter IPTV link: "])%list).
Proof.
  intros Hi Hp. unfold MacList.get_base_url, mbind, input_colored, lift, mret.
  rewrite Hi, Hp. reflexivity.
Qed.

Lemma list_get_mac_address_run (st : log) (mac : string) :
  w_input W (count is_input st) = Line mac ->
  MacList.get_mac_address W st
  = (Ret (upper mac), (st ++ [EInput "Input Mac address: "])%list).
Proof.
  intros Hi. unfold MacList.get_mac_address, mbind, input_colored, mret.
  rewrite Hi. reflexivity.
Qed.

Lemma list_get_token_run (base_url : string) (st : log) (r : response)
      (token : pyval) :
  w_reply W (count is_get st) = Responded r ->
  handshake_token r = Ret token ->
  exists hs,
    MacList.get_token W base_url st
    = (Ret token, (st ++ [EGet hs (Responded r)])%list)
    /\ rq_site hs = Handshake.
Proof.
  intros Hr Ht. eexists. split.
  { unfold MacList.get_token, try_except, mbind, http_get, lift. cbv zeta.
    rewrite Hr. unfold handshake_token in Ht.
    destruct (json_loads r) as [data|e|]; cbn [rbind] in Ht; try discriminate Ht.
    destruct (Py.getitem data "js") as [js|e|]; cbn [rbind] in Ht;
      try discriminate Ht.
    rewrite Ht. reflexivity. }
  reflexivity.
Qed.

Lemma list_get_subscription_run (base_url : string) (token : pyval) (st : log)
      (r : response) (phone : pyval) :
  w_reply W (count is_get st) = Responded r ->
  status_code r = 200%Z ->
  account_fields r = Ret phone ->
  exists acc,
    MacList.get_subscription W base_url token st
    = (Ret true, (st ++ [EGet acc (Responded r)])%list)
    /\ rq_site acc = AccountInfo.
Proof.
  intros Hr H200 Hf. eexists. split.
  { unfold MacList.get_subscription, try_except, mbind, http_get, lift, mret.
    cbv zeta. rewrite Hr, H200. cbn [Z.eqb Pos.eqb]. unfold account_fields in Hf.
    destruct (json_loads r) as [data|e|]; cbn [rbind] in Hf; try discriminate Hf.
    destruct (Py.getitem data "js") as [js|e|]; cbn [rbind] in Hf;
      try discriminate Hf.
    destruct (Py.getitem js "mac") as [m|e|]; cbn [rbind] in Hf;
      try discriminate Hf.
    rewrite Hf. reflexivity. }
  reflexivity.
Qed.

Lemma list_get_channel_list_run (base_url : string)
      (headers : list (string * string)) (st : log) (r3 r4 : response)
      (groups : list pyval) (group_info : Py.pydict) (channels_data : pyval) :
  w_reply W (count is_get st) = Responded r3 ->
  status_code r3 = 200%Z ->
  js_items r3 = Ret groups ->
  MacList.genre_dict groups [] = Ret group_info ->
  w_reply W (S (count is_get st)) = Responded r4 ->
  status_code r4 = 200%Z ->
  js_data r4 = Ret channels_data ->
  exists genres all_channels,
    MacList.get_channel_list W base_url headers st
    = (Ret (channels_data, Some group_info),
       (st ++ [EGet genres (Responded r3); EGet all_channels (Responded r4)])%list)
    /\ rq_site genres = Genres /\ rq_site all_channels = AllChannels.
Proof.
  intros Hr3 H3 Hg Hd Hr4 H4 Hc.
  exists {| rq_site := Genres;
            rq_url := base_url ++ "/server/load.php?type=itv&action=get_genres&JsHttpRequest=1-xml";
            rq_headers := headers |},
         {| rq_site := AllChannels;
            rq_url := base_url ++ "/portal.php?type=itv&action=get_all_channels&JsHttpRequest=1-xml";
            rq_headers := headers |}.
  split; [|split; reflexivity].
  unfold MacList.get_channel_list, try_except. cbv zeta.
  rewrite mbind_run. unfold http_get at 1. rewrite Hr3, H3.
  cbn [Z.eqb Pos.eqb]. unfold js_items in Hg.
  rewrite mbind_run. unfold lift at 1.
  destruct (json_loads r3) as [data|e|]; cbn [rbind] in Hg; try discriminate Hg.
  rewrite mbind_run. unfold lift at 1.
  destruct (Py.getitem data "js") as [js|e|]; cbn [rbind] in Hg;
    try discriminate Hg.
  rewrite mbind_run. unfold lift at 1. rewrite Hg.
  rewrite mbind_run. unfold lift at 1. rewrite Hd.
  rewrite mbind_run. unfold http_get at 1.
  rewrite count_app. cbn [count filter is_get List.length].
  rewrite Nat.add_1_r, Hr4, H4. cbn [Z.eqb Pos.eqb]. unfold js_data in Hc.
  unfold mbind, lift, mret.
  destruct (json_loads r4) as [data4|e|]; cbn [rbind] in Hc; try discriminate Hc.
  destruct (Py.getitem data4 "js") as [js4|e|]; cbn [rbind] in Hc;
    try discriminate Hc.
  rewrite Hc, <- app_assoc. reflexivity.
Qed.

Lemma list_save_channel_list_run (base_url current : string)
      (channels_data : pyval) (group_info : Py.pydict) (mac : string) (st : log)
      (channels : list pyval) (cs : list chunk) :
  w_open W (count is_open st) = true ->
  Py.iter channels_data = Ret channels ->
  Forall2 (fun channel c =>
             MacList.channel_record base_url mac group_info channel = Ret c)
          channels cs ->
  writes_succeed W (S (List.length st)) (S (List.length cs)) ->
  MacList.save_channel_list W base_url current channels_data group_info mac st
  = (Ret tt,
     (st ++ EOpen (sanitize base_url ++ "_" ++ current ++ ".m3u")
         :: EWrite Header :: map EWrite cs)%list).
Proof.
  intros Ho Hi Hc Hw.
  unfold MacList.save_channel_list, try_except. cbv zeta.
  rewrite mbind_run. unfold open_write at 1. rewrite Ho.
  apply writes_succeed_next in Hw. destruct Hw as [Hw0 Hw].
  rewrite mbind_run. unfold file_write at 1.
  rewrite length_app. cbn [List.length].
  replace (List.length st + 1)%nat with (S (List.length st)) by lia.
  rewrite Hw0.
  rewrite mbind_run. unfold lift at 1. rewrite Hi.
  rewrite mbind_run.
  rewrite <- (app_nil_r channels).
  rewrite (channel_loop_prefix W base_url mac group_info channels cs Hc [] 0%Z).
  - cbn [for_fold]. unfold mret. repeat rewrite <- app_assoc. reflexivity.
  - rewrite !length_app. cbn [List.length].
    now replace (List.length st + 1 + 1)%nat with (S (S (List.length st))) by lia.
Qed.

End ListRun.

Lemma written_map_write (cs : list chunk) : written (map EWrite cs) = cs.
Proof. induction cs as [|c cs IH]; cbn; [reflexivity | now rewrite IH]. Qed.

Lemma requests_map_write (cs : list chunk) : requests (map EWrite cs) = [].
Proof. induction cs as [|c cs IH]; cbn; [reflexivity | exact IH]. Qed.

(** X17. [maclist.py] from the prompt to the playlist.  When the user
    types a link and a MAC address, the portal answers the handshake with
    a token, the account request with status 200, [js.mac] and
    [js.phone], the genre request with status 200 and a list of genres
    that is not empty, the channel request with status 200 and a list of
    channels that is not empty and in which every channel has the fields
    of an entry, the file can be opened and every write to it succeeds,
    then [main] returns, it has sent these four requests in this order
    and no other, and the playlist is the header followed by one entry
    per channel, in the order of the portal's list.  The MAC address is
    taken to be typed in ASCII characters, on which [upper] is
    [str.upper]. *)
Theorem X17_maclist_from_prompt_to_playlist
  (W : world) (st : log) (link mac_typed : string)
  (host : option string) (port : option Z)
  (r1 r2 r3 r4 : response) (token phone channels_data : pyval)
  (groups channels : list pyval) (group_info : Py.pydict) (cs : list chunk) :
  w_input W (count is_input st) = Line link ->
  w_urlparse W link = Ret (host, port) ->
  w_input W (S (count is_input st)) = Line mac_typed ->
  ascii_only mac_typed = true ->
  w_reply W (count is_get st) = Responded r1 ->
  handshake_token r1 = Ret token -> Py.truthy token = true ->
  w_reply W (1 + count is_get st) = Responded r2 ->
  status_code r2 = 200%Z -> account_fields r2 = Ret phone ->
  w_reply W (2 + count is_get st) = Responded r3 ->
  status_code r3 = 200%Z -> js_items r3 = Ret groups ->
  MacList.genre_dict groups [] = Ret group_info -> group_info <> [] ->
  w_reply W (3 + count is_get st) = Responded r4 ->
  status_code r4 = 200%Z -> js_data r4 = Ret channels_data ->
  Py.truthy channels_data = true -> Py.iter channels_data = Ret channels ->
  Forall2 (fun channel c =>
             MacList.channel_record (list_base_url host port) (upper mac_typed)
                                    group_info channel = Ret c)
          channels cs ->
  w_open W (count is_open st) = true ->
  writes_succeed W (7 + List.length st) (S (List.length cs)) ->
  exists evs,
    MacList.main W st = (Ret tt, (st ++ evs)%list)
    /\ written evs = Header :: cs
    /\ map (fun x => rq_site (fst x)) (requests evs)
       = [Handshake; AccountInfo; Genres; AllChannels].
Proof.
  intros Hi1 Hp Hi2 _ Hr1 Ht Htt Hr2 H2 Hf Hr3 H3 Hg Hd Hne Hr4 H4 Hc Hct Hit Hcs Ho Hw.
  set (base_url := list_base_url host port) in *.
  set (st1 := (st ++ [EInput "Enter IPTV link: "])%list).
  set (st2 := (st1 ++ [EInput "Input Mac address: "])%list).
  assert (Hg2 : count is_get st2 = count is_get st).
  { unfold st2, st1. rewrite !count_app. cbn. lia. }
  assert (Hi2' : count is_input st1 = S (count is_input st)).
  { unfold st1. rewrite count_app. cbn. lia. }
  assert (Ho2 : count is_open st2 = count is_open st).
  { unfold st2, st1. rewrite !count_app. cbn. lia. }
  destruct (list_get_token_run W base_url st2 r1 token) as (hs & E3 & Hs3);
    [now rewrite Hg2 | exact Ht |].
  set (st3 := (st2 ++ [EGet hs (Responded r1)])%list) in *.
  assert (Hg3 : count is_get st3 = S (count is_get st)).
  { unfold st3. rewrite count_app, Hg2. cbn. lia. }
  destruct (list_get_subscription_run W base_url token st3 r2 phone)
    as (acc & E4 & Hs4); [now rewrite Hg3 | exact H2 | exact Hf |].
  set (st4 := (st3 ++ [EGet acc (Responded r2)])%list) in *.
  assert (Hg4 : count is_get st4 = S (S (count is_get st))).
  { unfold st4. rewrite count_app, Hg3. cbn. lia. }
  destruct (list_get_channel_list_run W base_url (bearer W token) st4 r3 r4
              groups group_info channels_data)
    as (genres & all_channels & E5 & Hs5 & Hs6);
    try assumption; try (now rewrite Hg4).
  set (st5 := (st4 ++ [EGet genres (Responded r3);
                       EGet all_channels (Responded r4)])%list) in *.
  assert (Ho5 : count is_open st5 = count is_open st).
  { unfold st5, st4, st3. rewrite !count_app, Ho2. cbn. lia. }
  pose proof (list_save_channel_list_run W base_url (w_now W (count is_open st5))
                channels_data group_info (upper mac_typed) st5 channels cs) as E6.
  rewrite Ho5 in E6. specialize (E6 Ho Hit Hcs).
  assert (Hl5 : S (List.length st5) = (7 + List.length st)%nat).
  { unfold st5, st4, st3, st2, st1. rewrite !length_app. cbn [List.length]. lia. }
  rewrite Hl5 in E6. specialize (E6 Hw).
  exists ([EInput "Enter IPTV link: "; EInput "Input Mac address: ";
           EGet hs (Responded r1); EGet acc (Responded r2);
           EGet genres (Responded r3); EGet all_channels (Responded r4);
           EOpen (sanitize base_url ++ "_" ++ w_now W (count is_open st) ++ ".m3u");
           EWrite Header] ++ map EWrite cs)%list.
  split; [|split].
  - unfold MacList.main, try_except, MacList.main_body.
    rewrite mbind_run, (list_get_base_url_run W st link host port Hi1 Hp).
    fold base_url. fold st1.
    rewrite mbind_run, (list_get_mac_address_run W st1 mac_typed)
      by (now rewrite Hi2').
    fold st2. rewrite mbind_run, E3, Htt, mbind_run, E4. cbv zeta.
    rewrite mbind_run, E5, Hct.
    destruct group_info as [|kv group_info']; [now destruct Hne|].
    cbn [Py.dict_truthy andb]. rewrite mbind_run. unfold now at 1.
    rewrite Ho5, E6. unfold st5, st4, st3, st2, st1.
    repeat rewrite <- app_assoc. reflexivity.
  - cbn [app written]. now rewrite written_map_write.
  - cbn [app requests map fst]. rewrite requests_map_write, Hs3, Hs4, Hs5, Hs6.
    reflexivity.
Qed.

Lemma X17_witness :
  exists evs,
    MacList.main Demo.world_A [] = (Ret tt, ([] ++ evs)%list)
    /\ written evs
       = [Header;
          Entry (PStr "") (PStr "News") (PStr "Ch1")
                "http://example.com:8080/play/live.php?mac=00:1A:79:AA:BB:CC&stream=42&extension=ts"]
    /\ map (fun x => rq_site (fst x)) (requests evs)
       = [Handshake; AccountInfo; Genres; AllChannels].
Proof.
  apply (X17_maclist_from_prompt_to_playlist Demo.world_A []
           "http://example.com:8080/c/" "00:1a:79:aa:bb:cc"
           (Some "example.com") (Some 8080%Z)
           {| status_code := 200; content_type := "text/javascript;charset=UTF-8";
              parsed := Some (Demo.js (PDict [("token", PStr "T0K3N")])) |}
           {| status_code := 200; content_type := "text/javascript;charset=UTF-8";
              parsed := Some (Demo.js (PDict [("mac", PStr "00:1A:79:AA:BB:CC");
                                              ("phone", PStr "2030-01-01")])) |}
           {| status_code := 200; content_type := "text/javascript;charset=UTF-8";
              parsed := Some (Demo.js (PList [PDict [("id", PStr "1");
                                                     ("title", PStr "News")]])) |}
           {| status_code := 200; content_type := "text/javascript;charset=UTF-8";
              parsed := Some (Demo.js (PDict [("data", PList [Demo.channel_A])])) |}
           (PStr "T0K3N") (PStr "2030-01-01") (PList [Demo.channel_A])
           [PDict [("id", PStr "1"); ("title", PStr "News")]]
           [Demo.channel_A] Demo.genres_A).
  all: try reflexivity.
  - discriminate.
  - constructor; [reflexivity | constructor].
  - intros i _. reflexivity.
Defined.


(* ===================================================================== *)
(** * A category that fails does not stop the others *)
(* ===================================================================== *)

Section Ordinary.

Variable W : world.

Lemma ordinary_mret {A : Type} (a : A) : ordinary (mret a).
Proof. intros st e. discriminate. Qed.

Lemma ordinary_lift {A : Type} (r : result A) :
  (forall e, r = Raise e -> is_Exception e = true) -> ordinary (lift r).
Proof. intros H st e. apply H. Qed.

Lemma ordinary_mbind {A B : Type} (m : M A) (f : A -> M B) :
  ordinary m -> (forall a, ordinary (f a)) -> ordinary (mbind m f).
Proof.
  intros Hm Hf st e. rewrite mbind_run. specialize (Hm st).
  destruct (m st) as [[a|e'|] st1]; cbn [fst] in *.
  - apply Hf.
  - intros [= <-]. now apply Hm.
  - discriminate.
Qed.

Lemma ordinary_try_except {A : Type} (m : M A) (classes : exn -> bool)
      (h : exn -> M A) :
  ordinary m -> (forall e, ordinary (h e)) -> ordinary (try_except m classes h).
Proof.
  intros Hm Hh st e. unfold try_except. specialize (Hm st).
  destruct (m st) as [[a|e'|] st1]; cbn [fst] in *; try discriminate.
  destruct (classes e'); [apply Hh|]. intros [= <-]. now apply Hm.
Qed.

Lemma ordinary_for_fold {A S : Type} (xs : list A) (body : S -> A -> M S) :
  (forall acc x, ordinary (body acc x)) ->
  forall acc, ordinary (for_fold xs acc body).
Proof.
  intros Hb. induction xs as [|x xs IH]; intros acc; cbn [for_fold].
  - apply ordinary_mret.
  - apply ordinary_mbind; [apply Hb | exact IH].
Qed.

Lemma ordinary_http_get (site : callsite) (url : string)
      (headers : list (string * string)) :
  ordinary (http_get W site url headers).
Proof.
  intros st e. unfold http_get.
  destruct (w_reply W (count is_get st)); cbn; [|discriminate].
  now intros [= <-].
Qed.

Lemma ordinary_aio_get (site : callsite) (url : string)
      (headers : list (string * string)) :
  ordinary (aio_get W site url headers).
Proof.
  intros st e. unfold aio_get.
  destruct (w_reply W (count is_get st)); cbn; [|discriminate].
  destruct (w_timeout W _); now intros [= <-].
Qed.

Lemma ordinary_file_write (c : chunk) : ordinary (file_write W c).
Proof.
  intros st e. unfold file_write.
  destruct (w_write W _); cbn; [discriminate | |]; now intros [= <-].
Qed.

Lemma rbind_ordinary {A B : Type} (r : result A) (f : A -> result B) (e : exn) :
  (r = Raise e -> is_Exception e = true) ->
  (forall a, f a = Raise e -> is_Exception e = true) ->
  rbind r f = Raise e -> is_Exception e = true.
Proof.
  intros Hr Hf. destruct r; cbn [rbind]; [apply Hf | | discriminate].
  intros [= <-]. now apply Hr.
Qed.

(** A function on values raises what [except Exception] catches. *)
Ltac pure_ordinary :=
  intro;
  unfold play_link_of, MacShow.format_episode_number, MacShow.py_int;
  repeat first
    [ discriminate
    | match goal with |- Raise _ = Raise _ -> _ => intros [= <-]; reflexivity end
    | apply rbind_ordinary; [|intro]
    | match goal with
      | |- (if ?c then _ else _) = _ -> _ => destruct c
      | |- match ?x with _ => _ end = _ -> _ => destruct x
      end
    | progress unfold Py.getitem, Py.get_default, Py.iter, Py.quote, Py.split,
        Py.nth_str, Py.len, Py.format_d, json_loads ].

Ltac ordinary_step :=
  lazymatch goal with
  | |- ordinary (mbind _ _) => apply ordinary_mbind; [|intros]
  | |- ordinary (mret _) => apply ordinary_mret
  | |- ordinary (lift _) => apply ordinary_lift; pure_ordinary
  | |- ordinary (try_except _ _ _) => apply ordinary_try_except; [|intros]
  | |- ordinary (for_fold _ _ _) => apply ordinary_for_fold; intros
  | |- ordinary (file_write _ _) => apply ordinary_file_write
  | |- ordinary (http_get _ _ _ _) => apply ordinary_http_get
  | |- ordinary (aio_get _ _ _ _) => apply ordinary_aio_get
  | |- ordinary (if ?c then _ else _) => destruct c
  | |- ordinary (match ?x with _ => _ end) => destruct x
  | |- ordinary (let _ := _ in _) => cbv zeta
  end.



Lemma ordinary_series_pages (fuel : nat) (base_url : string)
      (headers : list (string * string)) (category_id category_title : pyval)
      (page total_count : Z) :
  ordinary (MacShow.series_pages W fuel base_url headers category_id
                                 category_title page total_count).
Proof.
  revert page total_count.
  induction fuel as [|fuel IH]; intros page total_count; cbn [MacShow.series_pages].
  - intros st e. discriminate.
  - unfold MacShow.get_series_list, MacShow.save_series_data, MacShow.save_seasons,
      MacShow.save_episodes, MacShow.get_seasons_episodes, MacShow.fetch_play_link.
    repeat first [apply IH | ordinary_step].
Qed.

Lemma ordinary_fetch_and_save_series (fuel : nat) (base_url : string)
      (headers : list (string * string)) (category : pyval) :
  ordinary (MacShow.fetch_and_save_series W fuel base_url headers category).
Proof.
  unfold MacShow.fetch_and_save_series.
  repeat first [apply ordinary_series_pages | ordinary_step].
Qed.



End Ordinary.

Lemma each_in_turn_returns (crawl : pyval -> M Z) (categories : list pyval)
      (st : log) (e : exn) :
  fst (each_in_turn crawl categories st) <> Raise e.
Proof.
  revert st. induction categories as [|cat rest IH]; intros st; cbn.
  - discriminate.
  - destruct (crawl cat st) as [[n|e'|] st1]; [apply IH | apply IH | discriminate].
Qed.

(** X18. The failure of a category does not stop the crawl of the others
    in [macshow.py].  When every category of the list has a title, the
    loop over the categories is the crawls of the categories one after
    the other, in the order of the list, each from the log that the one
    before left, whether that one returned or ended in an exception; no
    exception leaves the loop. *)
Theorem X18_a_failed_category_is_skipped
  (W : world) (fuel : nat) (base_url : string)
  (headers : list (string * string)) (categories : list pyval) (st : log) :
  Forall (has_key "title") categories ->
  MacShow.crawl_categories W fuel base_url headers categories st
  = each_in_turn (MacShow.fetch_and_save_series W fuel base_url headers)
                 categories st
  /\ forall e,
       fst (MacShow.crawl_categories W fuel base_url headers categories st)
       <> Raise e.
Proof.
  intros H.
  assert (E : MacShow.crawl_categories W fuel base_url headers categories st
              = each_in_turn (MacShow.fetch_and_save_series W fuel base_url headers)
                             categories st).
  { unfold MacShow.crawl_categories. revert st.
    induction H as [|cat rest [t Ht] _ IH]; intros st; cbn [for_fold each_in_turn].
    - reflexivity.
    - rewrite mbind_run. unfold try_except at 1. rewrite mbind_run.
      pose proof (ordinary_fetch_and_save_series W fuel base_url headers cat st)
        as Ho.
      destruct (MacShow.fetch_and_save_series W fuel base_url headers cat st)
        as [[n|e'|] st1]; cbn [fst] in Ho.
      + unfold mbind at 1, lift at 1. rewrite Ht. unfold mret at 1. apply IH.
      + rewrite (Ho e' eq_refl). unfold mbind at 1, lift at 1. rewrite Ht.
        unfold mret at 1. apply IH.
      + reflexivity. }
  split; [exact E|]. intros e. rewrite E. apply each_in_turn_returns.
Qed.

Lemma X18_witness :
  MacShow.crawl_categories DemoShow.after_a_failure 5 "http://example.com:8080" []
    [DemoShow.broken; DemoShow.category] []
  = each_in_turn (MacShow.fetch_and_save_series DemoShow.after_a_failure 5
                    "http://example.com:8080" [])
                 [DemoShow.broken; DemoShow.category] []
  /\ forall e,
       fst (MacShow.crawl_categories DemoShow.after_a_failure 5
              "http://example.com:8080" [] [DemoShow.broken; DemoShow.category] [])
       <> Raise e.
Proof.
  apply (X18_a_failed_category_is_skipped DemoShow.after_a_failure 5
           "http://example.com:8080" [] [DemoShow.broken; DemoShow.category] []).
  constructor; [|constructor; [|constructor]].
  - exists (PStr "Broken"). reflexivity.
  - exists (PStr "Drama"). reflexivity.
Defined.

(** The crawl of the first category ends in a [KeyError]; the second
    category is crawled all the same, and its episode is written. *)
Example show_second_category_crawled :
  let W := DemoShow.after_a_failure in
  let run := MacShow.crawl_categories W 5 "http://example.com:8080" []
               [DemoShow.broken; DemoShow.category] [] in
  fst (MacShow.fetch_and_save_series W 5 "http://example.com:8080" []
         DemoShow.broken []) = Raise KeyError
  /\ fst run = Ret tt
  /\ written (snd run)
     = [Episode "7" "1" (PInt 1) (PStr "Show") (PStr "http://img.example.com/7.jpg")
                (PStr "Drama") "S1 E1" "http://cdn.example.com/show/s1e1.mkv"].
Proof. vm_compute. repeat split. Qed.




(** The job of the first category ends in a [KeyError]; the job of the
    second one is run all the same, and its movie is written. *)
Example vod_second_job_run :
  let W := DemoVod.after_a_failure in
  let run := mbind (MacVod.submit_all W 5 "http://example.com:8080" []
                      [DemoVod.broken; DemoVod.action])
                   MacVod.report [] in
  map fst (match fst (MacVod.submit_all W 5 "http://example.com:8080" []
                        [DemoVod.broken; DemoVod.action] []) with
           | Ret futures => futures
           | _ => []
           end)
  = [Raise KeyError; Ret 1%Z]
  /\ fst run = Ret tt
  /\ List.length (written (snd run)) = 1%nat.
Proof. vm_compute. repeat split. Qed.


(* ===================================================================== *)
(** * The label of an episode *)
(* ===================================================================== *)

Lemma zeros_length (n : nat) : String.length (Py.zeros n) = n.
Proof. induction n as [|n IH]; cbn; [reflexivity | now rewrite IH]. Qed.

Lemma append_length (a b : string) :
  String.length (a ++ b) = (String.length a + String.length b)%nat.
Proof. induction a as [|c a IH]; cbn; [reflexivity | now rewrite IH]. Qed.

(** X19. The label of an episode in [macshow.py].  For an episode number
    that is a natural number, [format_episode_number] gives [S], the
    season number, [ E] and the episode number with zeros before it: as
    many as it takes to reach the number of digits of the count of
    episodes, none when the episode number has at least as many digits;
    no digit of the episode number is dropped. *)
Theorem X19_episode_label (season_num episode_num total_episodes : Z) :
  (0 <= episode_num)%Z ->
  exists digits,
    MacShow.format_episode_number season_num (PInt episode_num) total_episodes
    = Ret ("S" ++ str_of_Z season_num ++ " E" ++ digits)
    /\ (exists k, digits = Py.zeros k ++ str_of_Z episode_num)
    /\ String.length digits
       = Nat.max (String.length (str_of_Z total_episodes))
                 (String.length (str_of_Z episode_num)).
Proof.
  intros H.
  exists (Py.pad_left (String.length (str_of_Z total_episodes)) (str_of_Z episode_num)).
  unfold MacShow.format_episode_number, Py.format_d, Py.format_0d. cbn [rbind].
  destruct (Z.ltb_spec episode_num 0) as [Hlt|_]; [lia|].
  split; [reflexivity|]. unfold Py.pad_left. split; [now eexists|].
  rewrite append_length, zeros_length. lia.
Qed.

Lemma X19_witness :
  exists digits,
    MacShow.format_episode_number 2 (PInt 7) 12
    = Ret ("S" ++ str_of_Z 2 ++ " E" ++ digits)
    /\ (exists k, digits = Py.zeros k ++ str_of_Z 7)
    /\ String.length digits
       = Nat.max (String.length (str_of_Z 12)) (String.length (str_of_Z 7)).
Proof. apply (X19_episode_label 2 7 12). lia. Defined.


(* ===================================================================== *)
(** * The user at the first prompt *)
(* ===================================================================== *)

Section FirstPrompt.

Variables (W : world) (fuel : nat).

Lemma try_block_first_prompt (s : retrying) (st : log) (e : exn) :
  match w_input W (count is_input st) with
  | Line _ => False
  | CtrlC => e = KeyboardInterrupt
  | EndOfInput => e = EOFError
  end ->
  try_block s W fuel st = (Raise e, (st ++ [EInput "Enter IPTV link: "])%list).
Proof.
  intros H.
  destruct s; cbn [try_block];
    unfold MacVod.main_body, MacVod.get_base_url, MacShow.main_body,
      MacShow.get_base_url, mbind, input_colored;
    destruct (w_input W (count is_input st)); try contradiction; now subst e.
Qed.

Lemma list_first_prompt (st : log) (e : exn) :
  match w_input W (count is_input st) with
  | Line _ => False
  | CtrlC => e = KeyboardInterrupt
  | EndOfInput => e = EOFError
  end ->
  MacList.main_body W st = (Raise e, (st ++ [EInput "Enter IPTV link: "])%list).
Proof.
  intros H.
  unfold MacList.main_body, MacList.get_base_url, mbind, input_colored.
  destruct (w_input W (count is_input st)); try contradiction; now subst e.
Qed.

Lemma main_of_end_of_input (s : retrying) (depth : nat) (st : log) :
  (forall n, (count is_input st <= n)%nat -> w_input W n = EndOfInput) ->
  main_of s W depth fuel st
  = (Raise RecursionError,
     (st ++ repeat (EInput "Enter IPTV link: ") (S depth))%list).
Proof.
  revert st. induction depth as [|depth IH]; intros st H;
    rewrite main_of_unfold, (try_block_first_prompt s st EOFError)
      by (now rewrite (H _ (le_n _))); cbn [is_KeyboardInterrupt is_Exception].
  - reflexivity.
  - rewrite IH.
    + rewrite <- app_assoc. reflexivity.
    + intros n Hn. apply H. rewrite count_app in Hn. lia.
Qed.

End FirstPrompt.

(** X20. Ctrl-C at the first prompt ends [maclist.py] and [macvod.py]
    in the same way: [main] exits with [SystemExit], and nothing has been
    sent, opened or written. *)
Theorem X20_ctrl_c_at_the_prompt (W : world) (depth fuel : nat) (st : log) :
  w_input W (count is_input st) = CtrlC ->
  MacList.main W st
  = (Raise SystemExit, (st ++ [EInput "Enter IPTV link: "])%list)
  /\ MacVod.main W depth fuel st
     = (Raise SystemExit, (st ++ [EInput "Enter IPTV link: "])%list).
Proof.
  intros H.
  assert (Hc : match w_input W (count is_input st) with
               | Line _ => False
               | CtrlC => KeyboardInterrupt = KeyboardInterrupt
               | EndOfInput => KeyboardInterrupt = EOFError
               end) by now rewrite H.
  split.
  - unfold MacList.main, try_except.
    now rewrite (list_first_prompt W st KeyboardInterrupt Hc).
  - change (MacVod.main W depth fuel st) with (main_of Vod W depth fuel st).
    rewrite main_of_unfold, (try_block_first_prompt W fuel Vod st _ Hc).
    reflexivity.
Qed.

Lemma X20_witness :
  MacList.main DemoPrompt.interrupted []
  = (Raise SystemExit, ([] ++ [EInput "Enter IPTV link: "])%list)
  /\ MacVod.main DemoPrompt.interrupted 3 5 []
     = (Raise SystemExit, ([] ++ [EInput "Enter IPTV link: "])%list).
Proof.
  apply (X20_ctrl_c_at_the_prompt DemoPrompt.interrupted 3 5 []).
  reflexivity.
Defined.

(** X21. The end of the input at the first prompt.  When there is
    nothing left to read, [maclist.py] ends with the [EOFError] of the
    prompt.  [macvod.py] and [macshow.py] catch it and call [main] again,
    which asks again and fails in the same way: they ask for the link
    once per nested call that the interpreter allows, send nothing, and
    end in [RecursionError]. *)
Theorem X21_end_of_input (W : world) (depth fuel : nat) (st : log) :
  (forall n, (count is_input st <= n)%nat -> w_input W n = EndOfInput) ->
  MacList.main W st
  = (Raise EOFError, (st ++ [EInput "Enter IPTV link: "])%list)
  /\ MacVod.main W depth fuel st
     = (Raise RecursionError,
        (st ++ repeat (EInput "Enter IPTV link: ") (S depth))%list)
  /\ MacShow.main W depth fuel st
     = (Raise RecursionError,
        (st ++ repeat (EInput "Enter IPTV link: ") (S depth))%list).
Proof.
  intros H. split; [|split].
  - unfold MacList.main, try_except.
    rewrite (list_first_prompt W st EOFError) by (now rewrite (H _ (le_n _))).
    reflexivity.
  - exact (main_of_end_of_input W fuel Vod depth st H).
  - exact (main_of_end_of_input W fuel Show depth st H).
Qed.

Lemma X21_witness :
  MacList.main (Demo.world_of [] []) []
  = (Raise EOFError, ([] ++ [EInput "Enter IPTV link: "])%list)
  /\ MacVod.main (Demo.world_of [] []) 2 5 []
     = (Raise RecursionError,
        ([] ++ repeat (EInput "Enter IPTV link: ") 3)%list)
  /\ MacShow.main (Demo.world_of [] []) 2 5 []
     = (Raise RecursionError,
        ([] ++ repeat (EInput "Enter IPTV link: ") 3)%list).
Proof.
  apply (X21_end_of_input (Demo.world_of [] []) 2 5 []).
  intros n _. cbn. now destruct n.
Defined.


(* ===================================================================== *)
(** * Requests that are not served *)
(* ===================================================================== *)

(** X22. A request for categories, for a page or for the seasons of a
    series that gets no response, or a response with a status other than
    200, gives [None] in [get_vod_categories] and [get_vod_list] of
    [macvod.py], and each of them has sent one request.  In
    [get_series_categories], [get_series_list] and [get_seasons_episodes]
    of [macshow.py] it gives [None] as well, after one request, unless
    the request timed out: then the [asyncio.TimeoutError], which
    [except aiohttp.ClientError] does not catch, leaves the function. *)
Theorem X22_not_served_is_none
  (W : world) (base_url : string) (headers : list (string * string))
  (category_id : pyval) (page : Z) (series_id : string) (st : log) :
  not_served W st ->
  none_after_one_request W st (MacVod.get_vod_categories W base_url headers st)
  /\ none_after_one_request W st (MacVod.get_vod_list W base_url headers category_id page st)
  /\ none_unless_timeout W st (MacShow.get_series_categories W base_url headers st)
  /\ none_unless_timeout W st (MacShow.get_series_list W base_url headers category_id page st)
  /\ none_unless_timeout W st (MacShow.get_seasons_episodes W base_url headers series_id
                                            category_id st).
Proof.
  unfold not_served, none_after_one_request, none_unless_timeout, times_out.
  intros H.
  unfold MacVod.get_vod_categories, MacVod.get_vod_list,
    MacShow.get_series_categories, MacShow.get_series_list,
    MacShow.get_seasons_episodes, try_except, mbind, http_get, aio_get, lift, mret.
  destruct (w_reply W (count is_get st)) as [|r].
  - destruct (w_timeout W (count is_get st));
      cbn; repeat split; eexists; reflexivity.
  - destruct (Z.eqb_spec (status_code r) 200) as [E|_]; [contradiction|].
    cbn. repeat split; eexists; reflexivity.
Qed.

Lemma X22_witness :
  let W := Demo.with_timeouts (Demo.world_of [] []) in
  let st := @nil event in
  none_after_one_request W st
    (MacVod.get_vod_categories W "http://example.com:8080" [] st)
  /\ none_after_one_request W st
       (MacVod.get_vod_list W "http://example.com:8080" [] (PStr "5") 1 st)
  /\ none_unless_timeout W st
       (MacShow.get_series_categories W "http://example.com:8080" [] st)
  /\ none_unless_timeout W st
       (MacShow.get_series_list W "http://example.com:8080" [] (PStr "5") 1 st)
  /\ none_unless_timeout W st
       (MacShow.get_seasons_episodes W "http://example.com:8080" [] "7"
                                     (PStr "5") st).
Proof.
  apply (X22_not_served_is_none (Demo.with_timeouts (Demo.world_of [] []))
           "http://example.com:8080" [] (PStr "5") 1 "7" []).
  exact I.
Defined.

(** The request for the categories of [macshow.py] that times out, and
    the one that is refused. *)
Example series_categories_timeout :
  fst (MacShow.get_series_categories (Demo.with_timeouts (Demo.world_of [] []))
         "http://example.com:8080" [] []) = Raise TimeoutError
  /\ fst (MacShow.get_series_categories (Demo.world_of [] [])
            "http://example.com:8080" [] []) = Ret PNone
  /\ fst (MacVod.get_vod_categories (Demo.with_timeouts (Demo.world_of [] []))
            "http://example.com:8080" [] []) = Ret PNone.
Proof. repeat split. Qed.

(** X26. A [create_link] request that is not served.  When the request
    gets no response, or a response with a status other than 200,
    [fetch_play_link] of [macvod.py] returns [None], "no link", after
    this one request.  [fetch_play_link] of [macshow.py] does the same,
    unless the request timed out: then the [asyncio.TimeoutError] leaves
    it, and with it the crawl of the category. *)
Theorem X26_link_not_served
  (W : world) (base_url cmd : string) (episode_num : pyval) (st : log) :
  not_served W st ->
  (fst (MacVod.fetch_play_link W base_url (PStr cmd) st) = Ret None
   /\ exists rq,
        rq_site rq = CreateLink
        /\ snd (MacVod.fetch_play_link W base_url (PStr cmd) st)
           = (st ++ [EGet rq (w_reply W (count is_get st))])%list)
  /\ (fst (MacShow.fetch_play_link W base_url cmd episode_num st)
      = (if times_out W st then Raise TimeoutError else Ret None)
      /\ exists rq,
           rq_site rq = CreateLink
           /\ snd (MacShow.fetch_play_link W base_url cmd episode_num st)
              = (st ++ [EGet rq (w_reply W (count is_get st))])%list).
Proof.
  unfold not_served, times_out. intros H.
  unfold MacVod.fetch_play_link, MacShow.fetch_play_link, try_except, mbind,
    http_get, aio_get, lift, mret, play_link_of.
  cbn [Py.quote].
  destruct (w_reply W (count is_get st)) as [|r].
  - destruct (w_timeout W (count is_get st)); cbn;
      (split; (split; [reflexivity|]));
      (eexists; split; [|reflexivity]; reflexivity).
  - destruct (Z.eqb_spec (status_code r) 200) as [E|_]; [contradiction|].
    cbn. (split; (split; [reflexivity|]));
      (eexists; split; [|reflexivity]; reflexivity).
Qed.

Lemma X26_witness :
  let W := Demo.with_timeouts (Demo.world_of [] []) in
  let st := @nil event in
  (fst (MacVod.fetch_play_link W "http://example.com:8080"
          (PStr "ffmpeg http://vod.example.com/1.mp4") st) = Ret None
   /\ exists rq,
        rq_site rq = CreateLink
        /\ snd (MacVod.fetch_play_link W "http://example.com:8080"
                  (PStr "ffmpeg http://vod.example.com/1.mp4") st)
           = (st ++ [EGet rq (w_reply W (count is_get st))])%list)
  /\ (fst (MacShow.fetch_play_link W "http://example.com:8080"
             "ffmpeg http://vod.example.com/1.mp4" (PInt 1) st)
      = Raise TimeoutError
      /\ exists rq,
           rq_site rq = CreateLink
           /\ snd (MacShow.fetch_play_link W "http://example.com:8080"
                     "ffmpeg http://vod.example.com/1.mp4" (PInt 1) st)
              = (st ++ [EGet rq (w_reply W (count is_get st))])%list).
Proof.
  apply (X26_link_not_served (Demo.with_timeouts (Demo.world_of [] []))
           "http://example.com:8080" "ffmpeg http://vod.example.com/1.mp4"
           (PInt 1) []).
  exact I.
Defined.

(** X23. The channels of [maclist.py].  [get_channel_list] returns a
    list of channels and the titles of the genres exactly when the genre
    request is answered with status 200 and a list [js] of genres with
    ids and titles, and the channel request, sent next, is answered with
    status 200 and a body with [js.data]; what it returns is that
    [js.data] and the dictionary made of the genres. *)
Theorem X23_channels_and_genres
  (W : world) (base_url : string) (headers : list (string * string)) (st : log)
  (channels_data : pyval) (group_info : Py.pydict) :
  fst (MacList.get_channel_list W base_url headers st)
  = Ret (channels_data, Some group_info)
  <-> exists r3 r4 groups,
        w_reply W (count is_get st) = Responded r3
        /\ status_code r3 = 200%Z
        /\ js_items r3 = Ret groups
        /\ MacList.genre_dict groups [] = Ret group_info
        /\ w_reply W (S (count is_get st)) = Responded r4
        /\ status_code r4 = 200%Z
        /\ js_data r4 = Ret channels_data.
Proof.
  split.
  - unfold MacList.get_channel_list, try_except. cbv zeta.
    rewrite mbind_run. unfold http_get at 1.
    destruct (w_reply W (count is_get st)) as [|r3]; [discriminate|].
    destruct (Z.eqb_spec (status_code r3) 200) as [E3|_]; [|discriminate].
    rewrite mbind_run. unfold lift at 1.
    destruct (json_loads r3) as [data|e|] eqn:E31;
      try (destruct (is_TransportError e); discriminate); try discriminate.
    rewrite mbind_run. unfold lift at 1.
    destruct (Py.getitem data "js") as [js|e|] eqn:E32;
      try (destruct (is_TransportError e); discriminate); try discriminate.
    rewrite mbind_run. unfold lift at 1.
    destruct (Py.iter js) as [groups|e|] eqn:E33;
      try (destruct (is_TransportError e); discriminate); try discriminate.
    rewrite mbind_run. unfold lift at 1.
    destruct (MacList.genre_dict groups []) as [gi|e|] eqn:Eg;
      try (destruct (is_TransportError e); discriminate); try discriminate.
    rewrite mbind_run. unfold http_get at 1.
    rewrite count_app. cbn [count filter is_get List.length]. rewrite Nat.add_1_r.
    destruct (w_reply W (S (count is_get st))) as [|r4] eqn:Er4; [discriminate|].
    destruct (Z.eqb_spec (status_code r4) 200) as [E4|_]; [|discriminate].
    unfold mbind, lift, mret.
    destruct (json_loads r4) as [data4|e|] eqn:E41;
      try (destruct (is_TransportError e); discriminate); try discriminate.
    destruct (Py.getitem data4 "js") as [js4|e|] eqn:E42;
      try (destruct (is_TransportError e); discriminate); try discriminate.
    destruct (Py.getitem js4 "data") as [cd|e|] eqn:E43;
      try (destruct (is_TransportError e); discriminate); try discriminate.
    cbn [fst]. intros [= <- <-]. exists r3, r4, groups.
    split; [reflexivity|]. split; [exact E3|].
    split; [unfold js_items; rewrite E31; cbn [rbind]; rewrite E32; exact E33|].
    split; [exact Eg|]. split; [reflexivity|]. split; [exact E4|].
    unfold js_data. rewrite E41. cbn [rbind]. rewrite E42. exact E43.
  - intros (r3 & r4 & groups & Hr3 & H3 & Hg & Hd & Hr4 & H4 & Hc).
    destruct (list_get_channel_list_run W base_url headers st r3 r4 groups
                group_info channels_data Hr3 H3 Hg Hd Hr4 H4 Hc)
      as (genres & all & E & _).
    now rewrite E.
Qed.
